(** * The string-to-AGraph expression compiler of bingo

    A shallow embedding of [examples/StringToAGraphExample.py]: the
    shunting-yard converter [convert_to_postfix], the assembler
    [postfix_to_agraph], and the properties the specification states about
    them.

    Conventions of the embedding.
    - A token is a Python [str]; it is a [string] here, a sequence of code
      points below 256. In that range the class [\d] of the pattern
      [var_or_const_pattern] is exactly the ten characters '0'..'9'.
    - The two work stacks are Python lists whose LAST element is the top
      (the source says so: "index -1 = top"). They are lists whose HEAD is
      the top here: [stack.append(x)] is [x :: stack], [stack.pop()] removes
      the head, [stack[-1]] is the head, and a Python iteration
      [for token in stack], which starts at index 0, visits [rev stack].
    - [output] and [command_array] are only appended to and keep the Python
      order: [output.append(x)] is [output ++ [x]].
    - A Python exception is a value of [py_error]; a computation that may
      raise has type [py_result A].
    - [int(s)] converts a digit string of at most 4300 digits, the default
      of [sys.get_int_max_str_digits()], which the source leaves as it is;
      on a longer one it raises [ValueError]. *)

From Stdlib Require Import List String Ascii ZArith Bool Lia.
From Stdlib Require Import Permutation.
From Stdlib Require Decimal DecimalString DecimalPos DecimalN.
Import ListNotations.

Local Open Scope string_scope.
Local Open Scope Z_scope.
Local Open Scope list_scope.

(** ** Exceptions *)

Inductive py_error : Type :=
| IndexError (msg : string)
| KeyError (key : string)
| RuntimeError (msg : string)
| ValueError (msg : string).

Definition py_result (A : Type) : Type := (py_error + A)%type.

Definition ret {A : Type} (a : A) : py_result A := inr a.

Definition raise {A : Type} (e : py_error) : py_result A := inl e.

Definition bind {A B : Type} (m : py_result A) (k : A -> py_result B)
  : py_result B :=
  match m with
  | inl e => inl e
  | inr a => k a
  end.

Notation "x <- m ;; k" := (bind m (fun x => k))
  (at level 61, m at next level, right associativity).
Notation "' pat <- m ;; k" := (bind m (fun x => match x with pat => k end))
  (at level 61, pat pattern, m at next level, right associativity).

(** The two errors the specification names, as the source raises them. *)
Definition MismatchedParenthesesError : py_error :=
  RuntimeError "Mismatched parenthesis".

Definition MalformedExpressionError : py_error :=
  RuntimeError "Error evaluating postfix expression".

(** ** Python lists used as stacks (head = top) *)

(** [stack.pop()] *)
Definition pop {A : Type} (stack : list A) : py_result (A * list A) :=
  match stack with
  | [] => raise (IndexError "pop from empty list")
  | top :: rest => ret (top, rest)
  end.

(** ** Operator registry *)

Definition token : Type := string.

(** Modelled from the spec: the module
    [bingo.symbolic_regression.agraph.operator_definitions], which gives
    the integer constants ADDITION, SUBTRACTION, ..., is not part of the
    sources at hand; the specification describes the operator code as a
    closed enumeration with these seven members. *)
Inductive OperatorCode : Type :=
| ADDITION | SUBTRACTION | MULTIPLICATION | DIVISION | POWER
| VARIABLE | CONSTANT.

(** [operators = {"+", "-", "*", "/", "^"}]; only membership is tested. *)
Definition operators : list token := ["+"; "-"; "*"; "/"; "^"].

(** [token in operators] *)
Definition is_operator (t : token) : bool :=
  existsb (String.eqb t) operators.

(** A dict with string keys, as an association list; [d[k]] raises
    [KeyError] on a missing key. *)
Fixpoint getitem {V : Type} (d : list (string * V)) (k : string)
  : py_result V :=
  match d with
  | [] => raise (KeyError k)
  | (k', v) :: d' => if String.eqb k k' then ret v else getitem d' k
  end.

Definition precedence : list (string * Z) :=
  [("+", 0); ("-", 0); ("*", 1); ("/", 1); ("^", 2)].

Definition operator_map : list (string * OperatorCode) :=
  [("+", ADDITION); ("-", SUBTRACTION); ("*", MULTIPLICATION);
   ("/", DIVISION); ("^", POWER); ("X", VARIABLE); ("C", CONSTANT)].

(** ** Leaf reference resolver: [re.compile(r"([XC])_(\d+)")] *)

Definition is_digit (c : ascii) : bool :=
  ((48 <=? nat_of_ascii c) && (nat_of_ascii c <=? 57))%nat.

Fixpoint all_digits (s : string) : bool :=
  match s with
  | EmptyString => true
  | String c s' => is_digit c && all_digits s'
  end.

(** [var_or_const_pattern.fullmatch(token)]: [None] when the token does not
    match, else the two groups. *)
Definition fullmatch (t : token) : option (string * string) :=
  match t with
  | String k (String u digits) =>
      if (Ascii.eqb k "X" || Ascii.eqb k "C") && Ascii.eqb u "_"
         && negb (String.eqb digits "") && all_digits digits
      then Some (String k EmptyString, digits)
      else None
  | _ => None
  end.

(** The number a string of decimal digits denotes. *)
Fixpoint int_acc (acc : Z) (s : string) : Z :=
  match s with
  | EmptyString => acc
  | String c s' => int_acc (10 * acc + (Z.of_nat (nat_of_ascii c) - 48)) s'
  end.

Definition int_value (s : string) : Z := int_acc 0 s.

(** [sys.get_int_max_str_digits()]: the interpreter's default. *)
Definition int_max_str_digits : Z := 4300.

(** [int(s)] on a string of decimal digits. CPython limits the length of
    the strings it converts to integers (3.11 and later, and the patched
    releases before it): a string of more than [int_max_str_digits]
    digits, leading zeros counted, is refused with [ValueError]. *)
Definition int (s : string) : py_result Z :=
  if int_max_str_digits <? Z.of_nat (String.length s)
  then raise (ValueError
                ("Exceeds the limit (4300 digits) for integer string "
                 ++ "conversion: value has "
                 ++ DecimalString.NilEmpty.string_of_uint
                      (Nat.to_uint (String.length s))
                 ++ " digits; use sys.set_int_max_str_digits() "
                 ++ "to increase the limit")%string)
  else ret (int_value s).

(** ** Infix-to-postfix converter *)

(** The [while] loop of the operator branch:
    [while len(stack) > 0 and stack[-1] in operators
           and precedence[stack[-1]] >= precedence[token]:
         output.append(stack.pop())] *)
Fixpoint pop_operators (tok : token) (stack output : list token)
  : py_result (list token * list token) :=
  match stack with
  | [] => ret (stack, output)
  | top :: rest =>
      if is_operator top then
        p_top <- getitem precedence top ;;
        p_tok <- getitem precedence tok ;;
        if p_top >=? p_tok
        then pop_operators tok rest (output ++ [top])
        else ret (stack, output)
      else ret (stack, output)
  end.

(** The [while] loop of the [")"] branch:
    [while stack[-1] != "(":
         if len(stack) == 0: raise RuntimeError("Mismatched parenthesis")
         output.append(stack.pop())]
    The subscript [stack[-1]] is evaluated first, so on the empty stack the
    loop condition itself raises. *)
Fixpoint pop_until_open (stack output : list token)
  : py_result (list token * list token) :=
  match stack with
  | [] => raise (IndexError "list index out of range")
  | top :: rest =>
      if negb (String.eqb top "(") then
        if (List.length (top :: rest) =? 0)%nat
        then raise MismatchedParenthesesError
        else pop_until_open rest (output ++ [top])
      else ret (top :: rest, output)
  end.

(** One iteration of [for token in infix_tokens]. *)
Definition convert_token (tok : token) (stack output : list token)
  : py_result (list token * list token) :=
  if is_operator tok then
    '(stack1, output1) <- pop_operators tok stack output ;;
    ret (tok :: stack1, output1)
  else if String.eqb tok "(" then
    ret (tok :: stack, output)
  else if String.eqb tok ")" then
    '(stack1, output1) <- pop_until_open stack output ;;
    '(_, stack2) <- pop stack1 ;;
    ret (stack2, output1)
  else
    ret (stack, output ++ [tok]).

Fixpoint convert_loop (infix_tokens : list token) (stack output : list token)
  : py_result (list token * list token) :=
  match infix_tokens with
  | [] => ret (stack, output)
  | tok :: more =>
      '(stack1, output1) <- convert_token tok stack output ;;
      convert_loop more stack1 output1
  end.

(** The final loop, over the elements of the stack from index 0 upwards:
    [for token in stack:
         if token == "(": raise RuntimeError("Mismatched parenthesis")
         output.append(token)] *)
Fixpoint drain (items output : list token) : py_result (list token) :=
  match items with
  | [] => ret output
  | tok :: more =>
      if String.eqb tok "("
      then raise MismatchedParenthesesError
      else drain more (output ++ [tok])
  end.

Definition convert_to_postfix (infix_tokens : list token)
  : py_result (list token) :=
  '(stack, output) <- convert_loop infix_tokens [] [] ;;
  drain (rev stack) output.

(** ** Postfix-to-command-array assembler *)

(** A row [[code, operand1, operand2]] of the command array. *)
Record row : Type := Row {
  code : OperatorCode;
  operand1 : Z;
  operand2 : Z
}.

Record asm_state : Type := AsmState {
  stack : list Z;
  command_array : list row;
  i : Z
}.

Definition asm_init : asm_state :=
  {| stack := []; command_array := []; i := 0 |}.

(** One iteration of [for token in postfix_tokens]. *)
Definition assemble_token (tok : token) (st : asm_state)
  : py_result asm_state :=
  if is_operator tok then
    '(operands0, stack1) <- pop (stack st) ;;
    '(operands1, stack2) <- pop stack1 ;;
    c <- getitem operator_map tok ;;
    ret {| stack := i st :: stack2;
           command_array := command_array st ++ [Row c operands1 operands0];
           i := i st + 1 |}
  else
    command_array1 <-
      match fullmatch tok with
      | Some (kind, digits) =>
          c <- getitem operator_map kind ;;
          operand1 <- int digits ;;
          operand2 <- int digits ;;
          ret (command_array st ++ [Row c operand1 operand2])
      | None => ret (command_array st)
      end ;;
    ret {| stack := i st :: stack st;
           command_array := command_array1;
           i := i st + 1 |}.

Fixpoint assemble_loop (postfix_tokens : list token) (st : asm_state)
  : py_result asm_state :=
  match postfix_tokens with
  | [] => ret st
  | tok :: more =>
      st1 <- assemble_token tok st ;;
      assemble_loop more st1
  end.

Definition postfix_to_agraph (postfix_tokens : list token)
  : py_result (list row) :=
  st <- assemble_loop postfix_tokens asm_init ;;
  if (1 <? List.length (stack st))%nat
  then raise MalformedExpressionError
  else ret (command_array st).

(** The pipeline of the script's main block:
    [postfix = convert_to_postfix(expression)] followed by
    [command_array = postfix_to_agraph(postfix)]. *)
Definition compile (infix_tokens : list token) : py_result (list row) :=
  postfix <- convert_to_postfix infix_tokens ;;
  postfix_to_agraph postfix.

(** ** Parenthesis structure of a token sequence *)

(** Nesting depth after reading [tokens] from depth [depth]; [None] when
    some [")"] is read at depth 0, that is, has no open ["("] to its
    left. *)
Fixpoint paren_depth (tokens : list token) (depth : nat) : option nat :=
  match tokens with
  | [] => Some depth
  | tok :: more =>
      if String.eqb tok "(" then paren_depth more (S depth)
      else if String.eqb tok ")" then
        match depth with
        | O => None
        | S d => paren_depth more d
        end
      else paren_depth more depth
  end.

(** Number of ["("] left open after [tokens], a [")"] at depth 0 closing
    nothing. *)
Fixpoint open_left (tokens : list token) (depth : nat) : nat :=
  match tokens with
  | [] => depth
  | tok :: more =>
      if String.eqb tok "(" then open_left more (S depth)
      else if String.eqb tok ")" then open_left more (Nat.pred depth)
      else open_left more depth
  end.

(** Number of ["("] on a side stack. *)
Fixpoint count_open (stack : list token) : nat :=
  match stack with
  | [] => O
  | tok :: rest =>
      if String.eqb tok "(" then S (count_open rest) else count_open rest
  end.

(** Codes of the binary arithmetic rows. *)
Definition is_binary (c : OperatorCode) : bool :=
  match c with
  | ADDITION | SUBTRACTION | MULTIPLICATION | DIVISION | POWER => true
  | VARIABLE | CONSTANT => false
  end.

(** A token the assembler can turn into a row: an operator or a leaf
    reference. *)
Definition backed (tok : token) : bool :=
  is_operator tok
  || match fullmatch tok with Some _ => true | None => false end.

(** A token the converter passes straight to the output: the last branch
    of its loop body. *)
Definition is_leaf (tok : token) : bool :=
  negb (is_operator tok) && negb (String.eqb tok "(")
  && negb (String.eqb tok ")").

(** A token whose digits, when it is a leaf reference, [int] converts:
    there are at most [int_max_str_digits] of them. *)
Definition within_digit_limit (tok : token) : bool :=
  match fullmatch tok with
  | Some (_, digits) =>
      Z.of_nat (String.length digits) <=? int_max_str_digits
  | None => true
  end.

(** The rows the assembler appends for a token that is no operator and is
    within the digit limit: one row for a leaf reference, none otherwise. *)
Definition leaf_rows (tok : token) : list row :=
  match fullmatch tok with
  | Some (kind, digits) =>
      match getitem operator_map kind with
      | inr c => [Row c (int_value digits) (int_value digits)]
      | inl _ => []
      end
  | None => []
  end.

(** ** Invariants of the assembler state *)

(** The operands of a binary row are indices of rows before it. *)
Definition rows_ok (ca : list row) : Prop :=
  forall n r,
    nth_error ca n = Some r ->
    is_binary (code r) = true ->
    0 <= operand1 r < Z.of_nat n /\ 0 <= operand2 r < Z.of_nat n.

(** Holds of every state the loop reaches: the counter never falls behind
    the number of rows. *)
Definition counter_covers_rows (st : asm_state) : Prop :=
  Z.of_nat (List.length (command_array st)) <= i st.

(** Holds as long as every token read was an operator or a leaf reference:
    the counter is the number of rows, the stack holds indices of rows, and
    the rows refer backwards. *)
Record asm_backed (st : asm_state) : Prop := AsmBacked {
  counter_is_length : i st = Z.of_nat (List.length (command_array st));
  stack_in_range : Forall (fun x => 0 <= x < i st) (stack st);
  rows_refer_back : rows_ok (command_array st)
}.

(** ** The module's containers in an arbitrary storage order

    The source calls no random number generator and reads no clock, file or
    environment. What can differ between two runs of the interpreter on the
    same tokens is how it stores the module's containers: [operators] is a
    set of strings, and the order in which a set stores and enumerates its
    elements follows the hashes of the strings, which change from one
    interpreter process to the next (hash randomisation); [precedence] and
    [operator_map] are dicts. Below are the two functions of the source
    once more, over containers given in any order: a set as the list of
    its elements, a dict as the list of its items, each in storage order.
    As in the source, the set is only tested for membership and the dicts
    are only subscripted. *)

Record containers : Type := Containers {
  operators_of : list token;
  precedence_of : list (string * Z);
  operator_map_of : list (string * OperatorCode)
}.

(** The containers in the order the source writes them. *)
Definition as_written : containers :=
  {| operators_of := operators;
     precedence_of := precedence;
     operator_map_of := operator_map |}.

(** The same set and the same two dicts, stored in some order. *)
Definition same_contents (m : containers) : Prop :=
  Permutation operators (operators_of m)
  /\ Permutation precedence (precedence_of m)
  /\ Permutation operator_map (operator_map_of m).

Section StorageOrder.

Variable m : containers.

Definition is_operator_in (t : token) : bool :=
  existsb (String.eqb t) (operators_of m).

Fixpoint pop_operators_in (tok : token) (stack output : list token)
  : py_result (list token * list token) :=
  match stack with
  | [] => ret (stack, output)
  | top :: rest =>
      if is_operator_in top then
        p_top <- getitem (precedence_of m) top ;;
        p_tok <- getitem (precedence_of m) tok ;;
        if p_top >=? p_tok
        then pop_operators_in tok rest (output ++ [top])
        else ret (stack, output)
      else ret (stack, output)
  end.

Definition convert_token_in (tok : token) (stack output : list token)
  : py_result (list token * list token) :=
  if is_operator_in tok then
    '(stack1, output1) <- pop_operators_in tok stack output ;;
    ret (tok :: stack1, output1)
  else if String.eqb tok "(" then
    ret (tok :: stack, output)
  else if String.eqb tok ")" then
    '(stack1, output1) <- pop_until_open stack output ;;
    '(_, stack2) <- pop stack1 ;;
    ret (stack2, output1)
  else
    ret (stack, output ++ [tok]).

Fixpoint convert_loop_in (infix_tokens : list token)
                         (stack output : list token)
  : py_result (list token * list token) :=
  match infix_tokens with
  | [] => ret (stack, output)
  | tok :: more =>
      '(stack1, output1) <- convert_token_in tok stack output ;;
      convert_loop_in more stack1 output1
  end.

Definition convert_to_postfix_in (infix_tokens : list token)
  : py_result (list token) :=
  '(stack, output) <- convert_loop_in infix_tokens [] [] ;;
  drain (rev stack) output.

Definition assemble_token_in (tok : token) (st : asm_state)
  : py_result asm_state :=
  if is_operator_in tok then
    '(operands0, stack1) <- pop (stack st) ;;
    '(operands1, stack2) <- pop stack1 ;;
    c <- getitem (operator_map_of m) tok ;;
    ret {| stack := i st :: stack2;
           command_array := command_array st ++ [Row c operands1 operands0];
           i := i st + 1 |}
  else
    command_array1 <-
      match fullmatch tok with
      | Some (kind, digits) =>
          c <- getitem (operator_map_of m) kind ;;
          operand1 <- int digits ;;
          operand2 <- int digits ;;
          ret (command_array st ++ [Row c operand1 operand2])
      | None => ret (command_array st)
      end ;;
    ret {| stack := i st :: stack st;
           command_array := command_array1;
           i := i st + 1 |}.

Fixpoint assemble_loop_in (postfix_tokens : list token) (st : asm_state)
  : py_result asm_state :=
  match postfix_tokens with
  | [] => ret st
  | tok :: more =>
      st1 <- assemble_token_in tok st ;;
      assemble_loop_in more st1
  end.

Definition postfix_to_agraph_in (postfix_tokens : list token)
  : py_result (list row) :=
  st <- assemble_loop_in postfix_tokens asm_init ;;
  if (1 <? List.length (stack st))%nat
  then raise MalformedExpressionError
  else ret (command_array st).

Definition compile_in (infix_tokens : list token) : py_result (list row) :=
  postfix <- convert_to_postfix_in infix_tokens ;;
  postfix_to_agraph_in postfix.

End StorageOrder.

(** ** Shapes of token sequences *)

Definition is_paren (tok : token) : bool :=
  String.eqb tok "(" || String.eqb tok ")".

(** The tokens that are no parentheses, in their order. *)
Definition strip_parens (tokens : list token) : list token :=
  filter (fun tok => negb (is_paren tok)) tokens.

(** What a side stack may hold: operators and ["("]. *)
Definition stack_ok (stack : list token) : Prop :=
  Forall (fun tok => is_operator tok = true \/ tok = "(") stack.

(** Number of indices on the index stack after the assembler has read
    [tokens] with [depth] indices on it; [None] when an operator finds
    fewer than two. *)
Fixpoint arity (tokens : list token) (depth : nat) : option nat :=
  match tokens with
  | [] => Some depth
  | tok :: more =>
      if is_operator tok then
        match depth with
        | S (S d) => arity more (S d)
        | _ => None
        end
      else arity more (S depth)
  end.

(** The indices the binary rows of a command array refer to, row by
    row. *)
Definition references (ca : list row) : list Z :=
  flat_map (fun r => if is_binary (code r)
                     then [operand1 r; operand2 r] else []) ca.

(** The indices [0], ..., [n - 1]. *)
Definition indices (n : nat) : list Z := map Z.of_nat (seq 0 n).

(** ** Infix expressions *)

(** The token sequences that are infix expressions: a leaf, two
    expressions joined by an operator, an expression in parentheses. *)
Inductive infix_expr : list token -> Prop :=
| ie_leaf : forall a, is_leaf a = true -> infix_expr [a]
| ie_binary : forall e1 o e2,
    infix_expr e1 -> is_operator o = true -> infix_expr e2 ->
    infix_expr (e1 ++ o :: e2)
| ie_paren : forall e, infix_expr e -> infix_expr ("(" :: e ++ [")"]).

(** Number of operators on a side stack. *)
Definition count_operators (stack : list token) : nat :=
  List.length (filter is_operator stack).

(** ** Expression trees *)

Inductive expr : Type :=
| Leaf (a : token)
| Binary (l : expr) (o : token) (r : expr).

(** The leaves are leaf tokens of the converter, the inner nodes
    operators. *)
Fixpoint well_formed (e : expr) : bool :=
  match e with
  | Leaf a => is_leaf a
  | Binary l o r => well_formed l && is_operator o && well_formed r
  end.

(** The leaves are leaf references, the inner nodes operators. *)
Fixpoint leaves_resolve (e : expr) : bool :=
  match e with
  | Leaf a => match fullmatch a with Some _ => true | None => false end
  | Binary l o r => leaves_resolve l && is_operator o && leaves_resolve r
  end.

(** No leaf is a leaf reference with more digits than [int] converts. *)
Fixpoint leaves_within_limit (e : expr) : bool :=
  match e with
  | Leaf a => within_digit_limit a
  | Binary l _ r => leaves_within_limit l && leaves_within_limit r
  end.

(** The infix tokens of [e] with a pair of parentheses around every
    application of an operator. *)
Fixpoint parenthesized (e : expr) : list token :=
  match e with
  | Leaf a => [a]
  | Binary l o r =>
      "(" :: parenthesized l ++ o :: parenthesized r ++ [")"]
  end.

(** The same without the outermost pair. *)
Definition parenthesized_inside (e : expr) : list token :=
  match e with
  | Leaf a => [a]
  | Binary l o r => parenthesized l ++ o :: parenthesized r
  end.

(** Left operand, right operand, operator. *)
Fixpoint postorder (e : expr) : list token :=
  match e with
  | Leaf a => [a]
  | Binary l o r => postorder l ++ postorder r ++ [o]
  end.

Fixpoint size (e : expr) : nat :=
  match e with
  | Leaf _ => 1
  | Binary l _ r => size l + size r + 1
  end.

(** [denotes ca n e]: read from row [n], following the operands of the
    binary rows, the command array [ca] is the expression [e]. *)
Inductive denotes (ca : list row) : Z -> expr -> Prop :=
| den_leaf : forall n a kind digits c,
    0 <= n ->
    fullmatch a = Some (kind, digits) ->
    getitem operator_map kind = inr c ->
    nth_error ca (Z.to_nat n)
    = Some (Row c (int_value digits) (int_value digits)) ->
    denotes ca n (Leaf a)
| den_binary : forall n l o r c x y,
    0 <= n ->
    is_operator o = true ->
    getitem operator_map o = inr c ->
    nth_error ca (Z.to_nat n) = Some (Row c x y) ->
    denotes ca x l ->
    denotes ca y r ->
    denotes ca n (Binary l o r).

(** The same tree up to the spelling of the leaves: the same operators in
    the same places, and leaves with the same row. *)
Fixpoint same_tree (e1 e2 : expr) : Prop :=
  match e1, e2 with
  | Leaf a, Leaf b => leaf_rows a = leaf_rows b
  | Binary l1 o1 r1, Binary l2 o2 r2 =>
      o1 = o2 /\ same_tree l1 l2 /\ same_tree r1 r2
  | _, _ => False
  end.

(** The expression [a0 o1 a1 o2 a2 ...] grouped from the left:
    [((a0 o1 a1) o2 a2) ...]. *)
Definition left_nested (a0 : token) (pairs : list (token * token)) : expr :=
  fold_left (fun e p => Binary e (fst p) (Leaf (snd p))) pairs (Leaf a0).

(** Its tokens without any parentheses. *)
Definition chain (a0 : token) (pairs : list (token * token)) : list token :=
  a0 :: flat_map (fun p => [fst p; snd p]) pairs.

(** A link [o a] of a chain whose operators all have precedence [prec]
    and whose operands are leaf references that [int] converts. *)
Definition chain_link (prec : Z) (p : token * token) : Prop :=
  is_operator (fst p) = true
  /\ getitem precedence (fst p) = inr prec
  /\ leaves_resolve (Leaf (snd p)) = true
  /\ within_digit_limit (snd p) = true.

(** ** Decimal numerals *)

(** The decimal numeral of [n], as [str(n)] writes it: no sign, no
    leading zero, ["0"] for zero. *)
Definition decimal (n : N) : string :=
  DecimalString.NilEmpty.string_of_uint (N.to_uint n).

(** The leaf reference [<kind>_<n>]. *)
Definition leaf_reference (kind : ascii) (n : N) : token :=
  String kind (String "_" (decimal n)).

(** * The logging set-up of [bingo/Util/Log.py]

    The standard [logging] module is not part of the sources; what the
    code needs of it is modelled as data: a handler is a record of what
    the code sets on it, the root logger is the list of its handlers, and
    a log record is the three attributes the filters read. *)

Module Log.

(** Levels: [INFO] and [DETAILED_INFO] are defined by the source,
    [logging.WARNING] and [logging.DEBUG] by the standard library. *)
Definition INFO : Z := 25.
Definition DETAILED_INFO : Z := 20.
Definition WARNING : Z := 30.
Definition DEBUG : Z := 10.



(** The argument [verbosity], as far as the code tells values apart. *)
Inductive verbosity : Type :=
| VStr (s : string)
| VInt (n : Z)
| VOther.

Definition verbosity_map : list (string * Z) :=
  [("quiet", WARNING); ("standard", INFO);
   ("detailed", DETAILED_INFO); ("debug", DEBUG)].

(** Returns the level and the warnings issued through [warnings.warn]. *)
Definition _get_log_level_from_verbosity (v : verbosity)
  : py_result (Z * list string) :=
  match v with
  | VStr s =>
      level <- getitem verbosity_map s ;;
      ret (level, [])
  | VInt n => ret (n, [])
  | VOther =>
      ret (INFO, ["Unrecognized verbosity level provided. "
                  ++ "Using standard verbosity."]%string)
  end.

Definition tab : string := String (ascii_of_nat 9) EmptyString.

Definition _get_console_format_string (module timestamp : bool) : string :=
  let format_string := "%(message)s" in
  let format_string :=
    if module then ("%(module)s" ++ tab ++ format_string)%string
    else format_string in
  let format_string :=
    if timestamp then ("%(asctime)s" ++ tab ++ format_string)%string
    else format_string in
  format_string.

(** The two filter classes, with the arguments of their constructors. *)
Inductive log_filter : Type :=
| StatsFilter (filter_out : bool)
| MpiFilter (add_proc_number : bool).

Inductive handler_kind : Type :=
| StreamHandler
| FileHandler (filename : string).

Record handler : Type := Handler {
  h_kind : handler_kind;
  h_level : Z;
  h_format : string;
  h_filters : list log_filter
}.

Definition _make_console_handler (level : Z) (module timestamp : bool)
  : handler :=
  {| h_kind := StreamHandler;
     h_level := level;
     h_format := _get_console_format_string module timestamp;
     h_filters := [StatsFilter true; MpiFilter true] |}.

Definition _make_stats_file_handler : handler :=
  {| h_kind := FileHandler "spam.log";
     h_level := INFO;
     h_format := "%(message)s";
     h_filters := [StatsFilter false; MpiFilter true] |}.

(** [configure_logging] on a root logger with the handlers
    [root_handlers]: the handlers afterwards and the warnings issued.
    Every handler is a new object, so [addHandler] appends it. *)
Definition configure_logging (v : verbosity) (module timestamp : bool)
           (stats_file : option string) (root_handlers : list handler)
  : py_result (list handler * list string) :=
  '(level, warned) <- _get_log_level_from_verbosity v ;;
  let console_handler := _make_console_handler level module timestamp in
  let root_handlers := root_handlers ++ [console_handler] in
  match stats_file with
  | Some _ => ret (root_handlers ++ [_make_stats_file_handler], warned)
  | None => ret (root_handlers, warned)
  end.

(** Values of the attribute [stats] of a log record. *)
Inductive py_value : Type :=
| PBool (b : bool)
| PInt (n : Z)
| PStr (s : string)
| PNone.

(** A log record: its level, its message (a string) and, when the
    logging call passed [extra={"stats": ...}], the attribute [stats]. *)
Record log_record : Type := LogRecord {
  levelno : Z;
  msg : string;
  stats : option py_value
}.

(** [b == v] for a Boolean [b]: [True] equals [1], [False] equals [0]. *)
Definition bool_eq (b : bool) (v : py_value) : bool :=
  match v with
  | PBool b' => Bool.eqb b b'
  | PInt n => n =? (if b then 1 else 0)
  | PStr _ => false
  | PNone => false
  end.

(** [StatsFilter(filter_out).filter(record)] *)
Definition StatsFilter_filter (filter_out : bool) (record : log_record)
  : bool :=
  match stats record with
  | Some v => negb (bool_eq filter_out v)
  | None => filter_out
  end.


End Log.

(** * The option handling of [bingo/local_optimizers/scipy_optimizer.py]

    Of [ScipyOptimizer] the part that decides what is handed to scipy is
    modelled: the two property setters, the two checks, the choice of the
    backend and the retry of [_run_method_for_optimization]. The
    optimization itself belongs to scipy and enters as a parameter. The
    setter of [options] keeps the dict it is given: the dict of the model
    is that one object, seen by the caller and by the optimizer alike. *)

Module ScipyOptimizer.

(** Values of options. A float is kept as its literal; a value of any
    other type as a tag. *)
Inductive value : Type :=
| VStr (s : string)
| VList (l : list Z)
| VFloat (literal : string)
| VOther (tag : nat).

(** A dict with string keys, in insertion order. *)
Definition dict : Type := list (string * value).

(** [k in d.keys()] *)
Definition contains (d : dict) (k : string) : bool :=
  existsb (fun kv => String.eqb k (fst kv)) d.

(** [d.get(k)] *)
Fixpoint lookup (d : dict) (k : string) : option value :=
  match d with
  | [] => None
  | (k', v) :: d' => if String.eqb k k' then Some v else lookup d' k
  end.

(** [d[k] = v]: the value of an existing key is replaced in place, a new
    key is added at the end. *)
Fixpoint setitem (d : dict) (k : string) (v : value) : dict :=
  match d with
  | [] => [(k, v)]
  | (k', v') :: d' =>
      if String.eqb k k' then (k', v) :: d' else (k', v') :: setitem d' k v
  end.

Definition ROOT_SET : list string := ["lm"].

Definition MINIMIZE_SET : list string :=
  ["Nelder-Mead"; "Powell"; "CG"; "BFGS"; "L-BFGS-B"; "TNC"; "SLSQP"].

Definition JACOBIAN_SET : list string :=
  ["CG"; "BFGS"; "L-BFGS-B"; "TNC"; "SLSQP"; "lm"].

Inductive error : Type :=
| NotListed (method : value)      (* KeyError("{} is not a listed method") *)
| NeedsVector (method : value)    (* TypeError("{} requires VectorBasedFunction ...") *)
| Unhashable                      (* TypeError of [in] on a set, for a list *)
| MissingKey (key : string)       (* KeyError of a dict subscript *)
| Unset (attribute : string)      (* AttributeError: not assigned yet *)
| ScipyTypeError                  (* TypeError raised inside the scipy call *)
| ScipyError (tag : nat).         (* any other exception of the scipy call *)

(** [method in s] for a set [s] of strings: a list cannot be hashed, and a
    value of another type equals no string. *)
Definition member (method : value) (s : list string) : error + bool :=
  match method with
  | VStr m => inr (existsb (String.eqb m) s)
  | VList _ => inl Unhashable
  | VFloat _ | VOther _ => inr false
  end.

(** [_verify_method(method)] *)
Definition _verify_method (method : value) : error + unit :=
  match member method ROOT_SET with
  | inl e => inl e
  | inr true => inr tt
  | inr false =>
      match member method MINIMIZE_SET with
      | inl e => inl e
      | inr true => inr tt
      | inr false => inl (NotListed method)
      end
  end.

(** What the code asks of an objective function. *)
Record objective : Type := Objective {
  has_evaluate_fitness_vector : bool;   (* hasattr(obj, "evaluate_fitness_vector") *)
  is_vector_gradient_mixin : bool;      (* isinstance(obj, VectorGradientMixin) *)
  is_gradient_mixin : bool              (* isinstance(obj, GradientMixin) *)
}.

(** [_verify_objective_fn(objective_fn, method)] *)
Definition _verify_objective_fn (obj : objective) (method : value)
  : error + unit :=
  match member method ROOT_SET with
  | inl e => inl e
  | inr true =>
      if has_evaluate_fitness_vector obj then inr tt
      else inl (NeedsVector method)
  | inr false => inr tt
  end.

(** The attributes of a [ScipyOptimizer]; an attribute that has not been
    assigned yet is [None]. *)
Record optimizer : Type := Optimizer {
  _options : option dict;
  _scipy_options : option dict;
  _objective_fn : option objective;
  _jacobian_capable : option bool;
  _gradient_capable : option bool
}.

Definition unset : optimizer :=
  {| _options := None; _scipy_options := None; _objective_fn := None;
     _jacobian_capable := None; _gradient_capable := None |}.

Definition with_options (self : optimizer) (d : dict) : optimizer :=
  {| _options := Some d;
     _scipy_options := _scipy_options self;
     _objective_fn := _objective_fn self;
     _jacobian_capable := _jacobian_capable self;
     _gradient_capable := _gradient_capable self |}.

Definition with_scipy_options (self : optimizer) (d : dict) : optimizer :=
  {| _options := _options self;
     _scipy_options := Some d;
     _objective_fn := _objective_fn self;
     _jacobian_capable := _jacobian_capable self;
     _gradient_capable := _gradient_capable self |}.

(** The setter of [options]: the object afterwards and, when the setter
    raised, the exception. *)
Definition set_options (self : optimizer) (kwargs : dict)
  : optimizer * option error :=
  let d := kwargs in
  let d := if contains d "param_init_bounds" then d
           else setitem d "param_init_bounds" (VList [-10000; 10000]) in
  let d := if contains d "method" then d
           else setitem d "method" (VStr "BFGS") in
  match lookup d "method" with
  | None => (with_options self d, Some (MissingKey "method"))
  | Some method =>
      match _verify_method method with
      | inl e => (with_options self d, Some e)
      | inr _ =>
          let d := if contains d "tol" then d
                   else setitem d "tol" (VFloat "1e-6") in
          let scipy :=
            filter (fun kv => negb (String.eqb (fst kv) "param_init_bounds"))
                   d in
          (with_scipy_options (with_options self d) scipy, None)
      end
  end.

(** The dict [set_options] builds before it checks the method: the
    defaults of [param_init_bounds] and [method] filled in. *)
Definition with_first_defaults (kwargs : dict) : dict :=
  let d := if contains kwargs "param_init_bounds" then kwargs
           else setitem kwargs "param_init_bounds" (VList [-10000; 10000]) in
  if contains d "method" then d else setitem d "method" (VStr "BFGS").

Definition with_defaults (kwargs : dict) : dict :=
  let d := with_first_defaults kwargs in
  if contains d "tol" then d else setitem d "tol" (VFloat "1e-6").

(** The setter of [objective_fn]. *)
Definition set_objective_fn (self : optimizer) (obj : objective)
  : optimizer * option error :=
  let self1 :=
    {| _options := _options self;
       _scipy_options := _scipy_options self;
       _objective_fn := Some obj;
       _jacobian_capable := Some (is_vector_gradient_mixin obj);
       _gradient_capable := Some (is_gradient_mixin obj) |} in
  match _options self1 with
  | None => (self1, Some (Unset "_options"))
  | Some d =>
      match lookup d "method" with
      | None => (self1, Some (MissingKey "method"))
      | Some method =>
          match _verify_objective_fn obj method with
          | inl e => (self1, Some e)
          | inr _ => (self1, None)
          end
      end
  end.

(** [ScipyOptimizer(objective_fn, **options)] *)
Definition __init__ (obj : objective) (options : dict)
  : optimizer * option error :=
  match set_options unset options with
  | (self1, Some e) => (self1, Some e)
  | (self1, None) => set_objective_fn self1 obj
  end.

Inductive backend : Type := minimize | root.

Inductive jacobian : Type :=
| NoJacobian              (* False *)
| VectorJacobian          (* get_fitness_vector_and_jacobian(indv)[1] *)
| Gradient.               (* get_fitness_and_gradient(indv)[1] *)

(** [jacobian_method and capable], for a capability attribute that may not
    have been assigned: [and] reads it only when [jacobian_method] holds. *)
Definition use_jacobian (jacobian_method : bool) (attribute : string)
           (capable : option bool) : error + bool :=
  if jacobian_method then
    match capable with
    | Some b => inr b
    | None => inl (Unset attribute)
    end
  else inr false.

(** [_get_backend_and_jacobian()] *)
Definition _get_backend_and_jacobian (self : optimizer)
  : error + (backend * jacobian) :=
  match _options self with
  | None => inl (Unset "_options")
  | Some d =>
      match lookup d "method" with
      | None => inl (MissingKey "method")
      | Some method =>
          match member method JACOBIAN_SET with
          | inl e => inl e
          | inr jacobian_method =>
              match member method ROOT_SET with
              | inl e => inl e
              | inr true =>
                  match use_jacobian jacobian_method "_jacobian_capable"
                          (_jacobian_capable self) with
                  | inl e => inl e
                  | inr true => inr (root, VectorJacobian)
                  | inr false => inr (root, NoJacobian)
                  end
              | inr false =>
                  match use_jacobian jacobian_method "_gradient_capable"
                          (_gradient_capable self) with
                  | inl e => inl e
                  | inr true => inr (minimize, Gradient)
                  | inr false => inr (minimize, NoJacobian)
                  end
              end
          end
      end
  end.



Section Retry.

(** The result of an optimization, [optimize_result.x]. *)
Variable X : Type.

(** The call [backend(sub_routine, params, args=individual, jac=jacobian,
    **self._scipy_options)], which sees the optimizer as it is when the
    call is made. *)
Variable scipy_call : optimizer -> backend -> jacobian -> error + X.


End Retry.

End ScipyOptimizer.

(** * The diagnostics of [bingo/evolutionary_algorithms/ea_diagnostics.py]

    Conventions. A statistics array [np.zeros(3)] holds three counts; they
    are integers here (the floats of the source hold them exactly below
    2^53). A Boolean numpy array is a list of [bool]. The arguments
    [offspring], [offspring_parents], [offspring_crossover_type] and
    [offspring_mutation_type] of [update] have one entry per offspring and
    are taken as one list of rows. Of a chromosome only its fitness is
    read. The comparisons of fitness values and the conversion of
    [astype(bool)] are parameters. *)

Module EaDiagnostics.

Record stats : Type := Stats {
  total : Z;
  beneficial : Z;
  detrimental : Z
}.

Definition zeros : stats := Stats 0 0 0.

(** [a + b] on two statistics arrays *)
Definition stats_add (a b : stats) : stats :=
  Stats (total a + total b) (beneficial a + beneficial b)
        (detrimental a + detrimental b).

(** [n] times the array [a] *)
Definition stats_scale (n : Z) (a : stats) : stats :=
  Stats (n * total a) (n * beneficial a) (n * detrimental a).

(** ** Dicts of statistics *)

Section Dict.

Variable K : Type.
Variable eqb : K -> K -> bool.
Variable show : K -> string.

Fixpoint lookup (d : list (K * stats)) (k : K) : option stats :=
  match d with
  | [] => None
  | (k', v) :: d' => if eqb k k' then Some v else lookup d' k
  end.

(** [d[k] = v] *)
Fixpoint setitem (d : list (K * stats)) (k : K) (v : stats)
  : list (K * stats) :=
  match d with
  | [] => [(k, v)]
  | (k', v') :: d' =>
      if eqb k k' then (k', v) :: d' else (k', v') :: setitem d' k v
  end.

(** [d[k] += v] *)
Fixpoint iadd (d : list (K * stats)) (k : K) (v : stats)
  : py_result (list (K * stats)) :=
  match d with
  | [] => raise (KeyError (show k))
  | (k', v') :: d' =>
      if eqb k k' then ret ((k', stats_add v' v) :: d')
      else d1 <- iadd d' k v ;; ret ((k', v') :: d1)
  end.

(** [{k: np.zeros(3) for k in keys}] *)
Definition zeros_for (keys : list K) : list (K * stats) :=
  fold_left (fun d k => setitem d k zeros) keys [].

(** The value of [k], [zeros] for a missing key. *)
Definition get (d : list (K * stats)) (k : K) : stats :=
  match lookup d k with
  | Some v => v
  | None => zeros
  end.

End Dict.

Definition pair_eqb (p q : string * string) : bool :=
  String.eqb (fst p) (fst q) && String.eqb (snd p) (snd q).

Definition show_pair (p : string * string) : string :=
  ("(" ++ fst p ++ ", " ++ snd p ++ ")")%string.

Definition show_type (t : string) : string := t.

Record diagnostics : Type := Diagnostics {
  _crossover_stats : stats;
  _mutation_stats : stats;
  _cross_mut_stats : stats;
  _crossover_types : list string;
  _mutation_types : list string;
  _crossover_type_stats : list (string * stats);
  _mutation_type_stats : list (string * stats);
  _crossover_mutation_type_stats : list ((string * string) * stats)
}.

(** [EaDiagnostics(crossover_types, mutation_types)]; [None] stands for
    the empty list. *)
Definition __init__ (crossover_types mutation_types : option (list string))
  : diagnostics :=
  let crossover_types :=
    match crossover_types with Some l => l | None => [] end in
  let mutation_types :=
    match mutation_types with Some l => l | None => [] end in
  {| _crossover_stats := zeros;
     _mutation_stats := zeros;
     _cross_mut_stats := zeros;
     _crossover_types := crossover_types;
     _mutation_types := mutation_types;
     _crossover_type_stats := zeros_for string String.eqb crossover_types;
     _mutation_type_stats := zeros_for string String.eqb mutation_types;
     _crossover_mutation_type_stats :=
       zeros_for (string * string) pair_eqb
         (list_prod crossover_types mutation_types) |}.

(** ** Boolean arrays *)

(** Number of [True] entries: [np.sum] of a Boolean array. *)
Definition count (a : list bool) : Z :=
  Z.of_nat (List.length (filter (fun b => b) a)).

(** [a * b] and [np.logical_and(a, b)] on arrays of one length *)
Fixpoint mul (a b : list bool) : list bool :=
  match a, b with
  | x :: a', y :: b' => (x && y) :: mul a' b'
  | _, _ => []
  end.

(** [arr[idx]] for a Boolean array [idx] of the length of [arr] *)
Fixpoint mask {A : Type} (arr : list A) (idx : list bool) : list A :=
  match arr, idx with
  | x :: arr', b :: idx' =>
      if b then x :: mask arr' idx' else mask arr' idx'
  | _, _ => []
  end.

(** [_get_stats(idx, beneficial_var, detrimental_var)] *)
Definition _get_stats (idx beneficial_var detrimental_var : list bool)
  : stats :=
  Stats (count idx) (count (mul beneficial_var idx))
        (count (mul detrimental_var idx)).

(** [array == type_], element by element; [None] equals no string. *)
Definition eq_type (types : list (option string)) (type_ : string)
  : list bool :=
  map (fun t => match t with
                | Some s => String.eqb s type_
                | None => false
                end) types.

(** ** [update] *)

Section Update.

Variable fitness : Type.

(** [a < b] and [a > b] on fitness values *)
Variable lt : fitness -> fitness -> bool.
Variable gt : fitness -> fitness -> bool.

(** The conversion of one entry by [astype(bool)] *)
Variable astype_bool : option string -> bool.

(** One offspring: its fitness, the indices of its parents, the types of
    the crossover and of the mutation it underwent. *)
Record offspring_row : Type := Row_ {
  child_fitness : fitness;
  parent_indices : list Z;
  crossover_type : option string;
  mutation_type : option string
}.

(** [population[p]]: a negative index counts from the end. *)
Definition py_index (population : list fitness) (p : Z)
  : py_result fitness :=
  let n := Z.of_nat (List.length population) in
  let q := if p <? 0 then p + n else p in
  if (0 <=? q) && (q <? n) then
    match nth_error population (Z.to_nat q) with
    | Some f => ret f
    | None => raise (IndexError "list index out of range")
    end
  else raise (IndexError "list index out of range").

(** [all(cmp(population[p].fitness) for p in parent_indices)]: the
    generator is read up to the first [False]. *)
Fixpoint all_parents (cmp : fitness -> bool) (population : list fitness)
         (parents : list Z) : py_result bool :=
  match parents with
  | [] => ret true
  | p :: more =>
      f <- py_index population p ;;
      if cmp f then all_parents cmp population more else ret false
  end.

(** One iteration of the loop over the offspring: the entries of
    [beneficial_var] and [detrimental_var]. *)
Definition variation (population : list fitness) (row : offspring_row)
  : py_result (bool * bool) :=
  match parent_indices row with
  | [] => ret (false, false)
  | _ =>
      b <- all_parents (fun f => lt (child_fitness row) f) population
             (parent_indices row) ;;
      d <- all_parents (fun f => gt (child_fitness row) f) population
             (parent_indices row) ;;
      ret (b, d)
  end.

Fixpoint variations (population : list fitness) (rows : list offspring_row)
  : py_result (list (bool * bool)) :=
  match rows with
  | [] => ret []
  | row :: more =>
      bd <- variation population row ;;
      bds <- variations population more ;;
      ret (bd :: bds)
  end.

Section Loops.

Variables offspring_crossover_type offspring_mutation_type
  : list (option string).
Variables just_cross just_mut cross_mut beneficial_var detrimental_var
  : list bool.

(** The inner loop, [for mutation_type in self._mutation_types]. *)
Fixpoint mutation_loop (crossover_type_ : string) (cross_idx : list bool)
         (mutation_types : list string)
         (mt : list (string * stats))
         (cmt : list ((string * string) * stats))
  : py_result (list (string * stats) * list ((string * string) * stats)) :=
  match mutation_types with
  | [] => ret (mt, cmt)
  | mutation_type_ :: more =>
      let mut_idx := eq_type offspring_mutation_type mutation_type_ in
      mt1 <- iadd string String.eqb show_type mt mutation_type_
               (_get_stats (mask just_mut mut_idx)
                  (mask beneficial_var mut_idx)
                  (mask detrimental_var mut_idx)) ;;
      let cross_mut_idx := mul cross_idx mut_idx in
      cmt1 <- iadd (string * string) pair_eqb show_pair cmt
                (crossover_type_, mutation_type_)
                (_get_stats (mask cross_mut cross_mut_idx)
                   (mask beneficial_var cross_mut_idx)
                   (mask detrimental_var cross_mut_idx)) ;;
      mutation_loop crossover_type_ cross_idx more mt1 cmt1
  end.

(** The outer loop, [for crossover_type in self._crossover_types]. *)
Fixpoint crossover_loop (crossover_types mutation_types : list string)
         (ct mt : list (string * stats))
         (cmt : list ((string * string) * stats))
  : py_result (list (string * stats) * list (string * stats)
               * list ((string * string) * stats)) :=
  match crossover_types with
  | [] => ret (ct, mt, cmt)
  | crossover_type_ :: more =>
      let cross_idx := eq_type offspring_crossover_type crossover_type_ in
      ct1 <- iadd string String.eqb show_type ct crossover_type_
               (_get_stats (mask just_cross cross_idx)
                  (mask beneficial_var cross_idx)
                  (mask detrimental_var cross_idx)) ;;
      '(mt1, cmt1) <- mutation_loop crossover_type_ cross_idx
                        mutation_types mt cmt ;;
      crossover_loop more mutation_types ct1 mt1 cmt1
  end.

End Loops.

(** [self.update(population, offspring, offspring_parents,
    offspring_crossover_type, offspring_mutation_type)] *)
Definition update (self : diagnostics) (population : list fitness)
           (rows : list offspring_row) : py_result diagnostics :=
  let offspring_crossover_type := map crossover_type rows in
  let offspring_mutation_type := map mutation_type rows in
  let offspring_crossover := map astype_bool offspring_crossover_type in
  let offspring_mutation := map astype_bool offspring_mutation_type in
  bds <- variations population rows ;;
  let beneficial_var := map fst bds in
  let detrimental_var := map snd bds in
  let just_cross := mul offspring_crossover (map negb offspring_mutation) in
  let just_mut := mul (map negb offspring_crossover) offspring_mutation in
  let cross_mut := mul offspring_crossover offspring_mutation in
  '(ct, mt, cmt) <-
    crossover_loop offspring_crossover_type offspring_mutation_type
      just_cross just_mut cross_mut beneficial_var detrimental_var
      (_crossover_types self) (_mutation_types self)
      (_crossover_type_stats self) (_mutation_type_stats self)
      (_crossover_mutation_type_stats self) ;;
  ret {| _crossover_stats :=
           stats_add (_crossover_stats self)
             (_get_stats just_cross beneficial_var detrimental_var);
         _mutation_stats :=
           stats_add (_mutation_stats self)
             (_get_stats just_mut beneficial_var detrimental_var);
         _cross_mut_stats :=
           stats_add (_cross_mut_stats self)
             (_get_stats cross_mut beneficial_var detrimental_var);
         _crossover_types := _crossover_types self;
         _mutation_types := _mutation_types self;
         _crossover_type_stats := ct;
         _mutation_type_stats := mt;
         _crossover_mutation_type_stats := cmt |}.

(** What one [update] counts for the offspring that underwent only a
    mutation, of type [mutation_type_]: the statistics of
    [just_mut[mut_idx]]. *)
Definition mutation_only_stats (rows : list offspring_row)
           (bds : list (bool * bool)) (mutation_type_ : string) : stats :=
  let offspring_crossover := map astype_bool (map crossover_type rows) in
  let offspring_mutation := map astype_bool (map mutation_type rows) in
  let just_mut := mul (map negb offspring_crossover) offspring_mutation in
  let mut_idx := eq_type (map mutation_type rows) mutation_type_ in
  _get_stats (mask just_mut mut_idx) (mask (map fst bds) mut_idx)
    (mask (map snd bds) mut_idx).

(** The same for the offspring that underwent only a crossover, of type
    [crossover_type_]. *)
Definition crossover_only_stats (rows : list offspring_row)
           (bds : list (bool * bool)) (crossover_type_ : string) : stats :=
  let offspring_crossover := map astype_bool (map crossover_type rows) in
  let offspring_mutation := map astype_bool (map mutation_type rows) in
  let just_cross := mul offspring_crossover (map negb offspring_mutation) in
  let cross_idx := eq_type (map crossover_type rows) crossover_type_ in
  _get_stats (mask just_cross cross_idx) (mask (map fst bds) cross_idx)
    (mask (map snd bds) cross_idx).

End Update.

(** ** Consistency of the counts *)

(** Neither count is negative, and the beneficial and the detrimental
    offspring together are no more than all. *)
Definition stats_ok (s : stats) : Prop :=
  0 <= beneficial s /\ 0 <= detrimental s
  /\ beneficial s + detrimental s <= total s.

Definition diagnostics_ok (self : diagnostics) : Prop :=
  stats_ok (_crossover_stats self)
  /\ stats_ok (_mutation_stats self)
  /\ stats_ok (_cross_mut_stats self)
  /\ Forall (fun kv => stats_ok (snd kv)) (_crossover_type_stats self)
  /\ Forall (fun kv => stats_ok (snd kv)) (_mutation_type_stats self)
  /\ Forall (fun kv => stats_ok (snd kv))
       (_crossover_mutation_type_stats self).

(** No offspring is counted both as beneficial and as detrimental. *)
Definition exclusive (bds : list (bool * bool)) : Prop :=
  Forall (fun bd => fst bd && snd bd = false) bds.

(** ** Sums of diagnostics *)

Section TypeStatsSum.

Variable K : Type.
Variable eqb : K -> K -> bool.
Variable show : K -> string.


End TypeStatsSum.


End EaDiagnostics.

(** * Properties *)

(** ** The operator registry *)

Lemma is_operator_cases (t : token) :
  is_operator t = true ->
  t = "+" \/ t = "-" \/ t = "*" \/ t = "/" \/ t = "^".
Proof.
  unfold is_operator, operators; simpl.
  rewrite !orb_true_iff, !String.eqb_eq.
  intros [H | [H | [H | [H | [H | H]]]]]; auto 6. discriminate H.
Qed.

Ltac operator_cases H :=
  apply is_operator_cases in H;
  destruct H as [H | [H | [H | [H | H]]]]; subst.

Lemma precedence_of_operator (t : token) :
  is_operator t = true -> exists p, getitem precedence t = inr p.
Proof.
  intros H; operator_cases H; eexists; reflexivity.
Qed.

Lemma operator_map_of_operator (t : token) :
  is_operator t = true ->
  exists c, getitem operator_map t = inr c /\ is_binary c = true.
Proof.
  intros H; operator_cases H; eexists; split; reflexivity.
Qed.

Lemma fullmatch_kind (t : token) (kind digits : string) :
  fullmatch t = Some (kind, digits) ->
  exists c, getitem operator_map kind = inr c /\ is_binary c = false.
Proof.
  destruct t as [| k [| u ds]]; simpl; try discriminate.
  destruct (Ascii.eqb k "X") eqn:EX; simpl.
  - apply Ascii.eqb_eq in EX; subst k.
    destruct (_ && _); intros [= <- <-]. exists VARIABLE; split; reflexivity.
  - destruct (Ascii.eqb k "C") eqn:EC; simpl; try discriminate.
    apply Ascii.eqb_eq in EC; subst k.
    destruct (_ && _); intros [= <- <-]. exists CONSTANT; split; reflexivity.
Qed.

Lemma long_token_not_operator (c1 c2 : ascii) (s : string) :
  is_operator (String c1 (String c2 s)) = false.
Proof.
  unfold is_operator, operators; simpl.
  repeat match goal with
         | |- context [Ascii.eqb ?a ?b] => destruct (Ascii.eqb a b)
         end; reflexivity.
Qed.

(** A leaf reference is a token the converter passes to the output. *)
Lemma fullmatch_is_leaf (t : token) (g : string * string) :
  fullmatch t = Some g -> is_leaf t = true.
Proof.
  destruct t as [| k [| u ds]]; simpl; try discriminate.
  intros _. unfold is_leaf. rewrite long_token_not_operator. simpl.
  destruct (Ascii.eqb k "("), (Ascii.eqb k ")"); reflexivity.
Qed.

(** ** Conversion of digit strings *)

Lemma int_within_limit (s : string) :
  Z.of_nat (String.length s) <= int_max_str_digits ->
  int s = inr (int_value s).
Proof.
  intros H. unfold int.
  replace (int_max_str_digits <? Z.of_nat (String.length s)) with false
    by (symmetry; apply Z.ltb_ge; exact H).
  reflexivity.
Qed.

Lemma int_beyond_limit (s : string) :
  int_max_str_digits < Z.of_nat (String.length s) ->
  exists msg, int s = inl (ValueError msg).
Proof.
  intros H. unfold int. apply Z.ltb_lt in H. rewrite H.
  eexists; reflexivity.
Qed.

Lemma int_returns (s : string) (n : Z) :
  int s = inr n ->
  n = int_value s /\ Z.of_nat (String.length s) <= int_max_str_digits.
Proof.
  unfold int.
  destruct (int_max_str_digits <? Z.of_nat (String.length s)) eqn:E;
    [discriminate |].
  intros [= <-]. apply Z.ltb_ge in E. auto.
Qed.

Lemma int_raises (s : string) (e : py_error) :
  int s = inl e ->
  int_max_str_digits < Z.of_nat (String.length s)
  /\ exists msg, e = ValueError msg.
Proof.
  unfold int.
  destruct (int_max_str_digits <? Z.of_nat (String.length s)) eqn:E;
    [| discriminate].
  intros [= <-]. apply Z.ltb_lt in E. eauto.
Qed.

(** The limit at work: a string of 4300 digits is converted, one of 4301
    digits is refused. *)
Lemma int_limit_example :
  int (string_of_list_ascii (repeat "1"%char 4300))
  = inr (int_value (string_of_list_ascii (repeat "1"%char 4300)))
  /\ int (string_of_list_ascii (repeat "1"%char 4301))
     = inl (ValueError
              ("Exceeds the limit (4300 digits) for integer string "
               ++ "conversion: value has 4301 digits; "
               ++ "use sys.set_int_max_str_digits() to increase the limit")).
Proof.
  split.
  - apply int_within_limit. vm_compute. discriminate.
  - vm_compute. reflexivity.
Qed.

(** ** The side stack and the nesting depth *)

Lemma pop_operators_returns (tok : token) (stack output : list token) :
  is_operator tok = true ->
  exists stack1 output1,
    pop_operators tok stack output = inr (stack1, output1)
    /\ count_open stack1 = count_open stack.
Proof.
  intros Htok. destruct (precedence_of_operator tok Htok) as [q Hq].
  revert output.
  induction stack as [| top rest IH]; intros output; cbn [pop_operators].
  - eauto.
  - destruct (is_operator top) eqn:Htop; [| eauto].
    destruct (precedence_of_operator top Htop) as [p Hp].
    rewrite Hp, Hq; cbn [bind].
    destruct (p >=? q); [| eauto].
    destruct (IH (output ++ [top])) as (s1 & o1 & E & C).
    exists s1, o1. split; [exact E |].
    rewrite C. cbn [count_open]. destruct (String.eqb top "(") eqn:Eo; [| reflexivity].
    apply String.eqb_eq in Eo; subst top. discriminate Htop.
Qed.

Lemma pop_until_open_no_open (stack output : list token) :
  count_open stack = O ->
  pop_until_open stack output = inl (IndexError "list index out of range").
Proof.
  revert output.
  induction stack as [| top rest IH]; intros output; simpl; [reflexivity |].
  destruct (String.eqb top "("); simpl; [discriminate |].
  intros C. apply IH, C.
Qed.

Lemma pop_until_open_finds (stack output : list token) (d : nat) :
  count_open stack = S d ->
  exists rest output1,
    pop_until_open stack output = inr ("(" :: rest, output1)
    /\ count_open rest = d.
Proof.
  revert output.
  induction stack as [| top rest IH]; intros output; simpl; [discriminate |].
  destruct (String.eqb top "(") eqn:E; simpl.
  - apply String.eqb_eq in E; subst top. intros [= C]. eauto.
  - intros C. apply IH, C.
Qed.

(** The loop over the infix tokens follows [paren_depth]: it raises
    [IndexError] exactly when some [")"] has no open ["("], and otherwise
    ends with as many ["("] on the stack as are left open. *)
Lemma convert_loop_depth (tokens : list token) :
  forall stack output,
    match paren_depth tokens (count_open stack) with
    | None =>
        convert_loop tokens stack output
        = inl (IndexError "list index out of range")
    | Some d =>
        exists stack1 output1,
          convert_loop tokens stack output = inr (stack1, output1)
          /\ count_open stack1 = d
    end.
Proof.
  induction tokens as [| tok more IH]; intros stack output; simpl.
  - eauto.
  - unfold convert_token.
    destruct (is_operator tok) eqn:Hop.
    + assert (String.eqb tok "(" = false /\ String.eqb tok ")" = false)
        as [E1 E2] by (operator_cases Hop; split; reflexivity).
      rewrite E1, E2.
      destruct (pop_operators_returns tok stack output Hop)
        as (s1 & o1 & E & C).
      rewrite E; simpl.
      specialize (IH (tok :: s1) o1). simpl in IH.
      rewrite E1, C in IH. exact IH.
    + destruct (String.eqb tok "(") eqn:E1.
      * simpl. specialize (IH (tok :: stack) output). simpl in IH.
        rewrite E1 in IH. exact IH.
      * destruct (String.eqb tok ")") eqn:E2.
        -- destruct (count_open stack) as [| d] eqn:C.
           ++ rewrite pop_until_open_no_open by exact C. reflexivity.
           ++ destruct (pop_until_open_finds stack output d C)
                as (rest & o1 & E & C1).
              rewrite E; simpl. specialize (IH rest o1).
              rewrite C1 in IH. exact IH.
        -- simpl. apply IH.
Qed.

Lemma drain_open (items output : list token) :
  In "(" items -> drain items output = inl MismatchedParenthesesError.
Proof.
  revert output.
  induction items as [| tok more IH]; intros output; simpl; [tauto |].
  destruct (String.eqb tok "(") eqn:E; [reflexivity |].
  intros [-> | H]; [discriminate E | apply IH, H].
Qed.

Lemma count_open_In (stack : list token) :
  (0 < count_open stack)%nat -> In "(" stack.
Proof.
  induction stack as [| tok rest IH]; simpl; [lia |].
  destruct (String.eqb tok "(") eqn:E.
  - apply String.eqb_eq in E. auto.
  - auto.
Qed.

Lemma paren_depth_open_left (tokens : list token) :
  forall depth d, paren_depth tokens depth = Some d ->
                  open_left tokens depth = d.
Proof.
  induction tokens as [| tok more IH]; intros depth d; simpl.
  - congruence.
  - destruct (String.eqb tok "("); [apply IH |].
    destruct (String.eqb tok ")"); [| apply IH].
    destruct depth; [discriminate | apply IH].
Qed.

(** ** The converter on concrete expressions *)

(** C1. The claim: [X_0 + X_1 * X_2] compiles to a command array whose root
    is an Addition row with a Multiplication of [X_1], [X_2] as right
    operand. What the code does on these tokens: when the input ends the
    side stack holds ["+"] below ["*"], the final loop emits it from
    index 0 upwards, so the postfix sequence is [X_0 X_1 X_2 + *]; the root,
    row 4, is a Multiplication row whose left operand is the row of [X_0]
    and whose right operand, row 3, is the Addition of [X_1] and [X_2]. *)
Theorem precedence_example_root_is_multiplication :
  convert_to_postfix ["X_0"; "+"; "X_1"; "*"; "X_2"]
  = inr ["X_0"; "X_1"; "X_2"; "+"; "*"]
  /\ assemble_loop ["X_0"; "X_1"; "X_2"; "+"; "*"] asm_init
     = inr {| stack := [4];
              command_array :=
                [Row VARIABLE 0 0; Row VARIABLE 1 1; Row VARIABLE 2 2;
                 Row ADDITION 1 2; Row MULTIPLICATION 0 3];
              i := 5 |}
  /\ compile ["X_0"; "+"; "X_1"; "*"; "X_2"]
     = inr [Row VARIABLE 0 0; Row VARIABLE 1 1; Row VARIABLE 2 2;
            Row ADDITION 1 2; Row MULTIPLICATION 0 3].
Proof.
  repeat split; reflexivity.
Qed.

(** C2. On the tokens [X_0 + X_1 + C_0 + C_1] the converter returns
    [X_0 X_1 + C_0 + C_1 +], and the assembler turns that into the seven
    rows of the specification; the one index left on the index stack, the
    root, is 6. *)
Theorem concrete_scenario :
  convert_to_postfix ["X_0"; "+"; "X_1"; "+"; "C_0"; "+"; "C_1"]
  = inr ["X_0"; "X_1"; "+"; "C_0"; "+"; "C_1"; "+"]
  /\ postfix_to_agraph ["X_0"; "X_1"; "+"; "C_0"; "+"; "C_1"; "+"]
     = inr [Row VARIABLE 0 0; Row VARIABLE 1 1; Row ADDITION 0 1;
            Row CONSTANT 0 0; Row ADDITION 2 3; Row CONSTANT 1 1;
            Row ADDITION 4 5]
  /\ (exists st,
        assemble_loop ["X_0"; "X_1"; "+"; "C_0"; "+"; "C_1"; "+"] asm_init
        = inr st
        /\ stack st = [6]).
Proof.
  split; [reflexivity |]. split; [reflexivity |].
  eexists; split; reflexivity.
Qed.

(** ** Parentheses *)

(** C3. The claim: a [")"] with no open ["("] to its left makes the
    converter fail with [MismatchedParenthesesError]. What the code does:
    on every such token sequence the subscript [stack[-1]] of the loop
    condition raises [IndexError] on the empty stack; the test
    [len(stack) == 0] below it is never reached with an empty stack. *)
Theorem unmatched_close_raises_index_error (tokens : list token) :
  paren_depth tokens 0 = None ->
  convert_to_postfix tokens = inl (IndexError "list index out of range")
  /\ convert_to_postfix tokens <> inl MismatchedParenthesesError.
Proof.
  intros H. pose proof (convert_loop_depth tokens [] []) as L.
  simpl in L. rewrite H in L.
  unfold convert_to_postfix. rewrite L. simpl.
  split; [reflexivity | discriminate].
Qed.

Lemma unmatched_close_witness :
  paren_depth ["X_0"; ")"] 0 = None
  /\ convert_to_postfix ["X_0"; ")"]
     = inl (IndexError "list index out of range")
  /\ convert_to_postfix ["X_0"; ")"] <> inl MismatchedParenthesesError.
Proof.
  split; [reflexivity |].
  apply (unmatched_close_raises_index_error ["X_0"; ")"]). reflexivity.
Defined.

(** C7, as stated, fails: in [") ("] the ["("] is never closed, yet the
    converter stops at the [")"] with [IndexError] and never reaches the
    final loop. *)
Lemma unclosed_open_counterexample :
  (0 < open_left [")"; "("] 0)%nat
  /\ convert_to_postfix [")"; "("]
     = inl (IndexError "list index out of range")
  /\ convert_to_postfix [")"; "("] <> inl MismatchedParenthesesError.
Proof.
  split; [simpl; lia |]. split; [reflexivity | discriminate].
Qed.

(** C7, amended. For every token sequence in which each [")"] has an open
    ["("] to its left and some ["("] is left open, the loop over the tokens
    completes and the final loop over the side stack raises
    [MismatchedParenthesesError]. *)
Theorem unclosed_open_raises_in_drain (tokens : list token) :
  paren_depth tokens 0 <> None ->
  (0 < open_left tokens 0)%nat ->
  (exists stack output,
     convert_loop tokens [] [] = inr (stack, output)
     /\ drain (rev stack) output = inl MismatchedParenthesesError)
  /\ convert_to_postfix tokens = inl MismatchedParenthesesError.
Proof.
  intros Hd Ho.
  pose proof (convert_loop_depth tokens [] []) as L. simpl in L.
  destruct (paren_depth tokens 0) as [d |] eqn:E; [| congruence].
  apply paren_depth_open_left in E. rewrite E in Ho.
  destruct L as (stack & output & L & C).
  assert (D : drain (rev stack) output = inl MismatchedParenthesesError).
  { apply drain_open. rewrite <- in_rev. apply count_open_In. lia. }
  split.
  - exists stack, output. auto.
  - unfold convert_to_postfix. rewrite L. exact D.
Qed.

Lemma unclosed_open_witness :
  paren_depth ["("; "X_0"; "+"; "X_1"] 0 <> None
  /\ (0 < open_left ["("; "X_0"; "+"; "X_1"] 0)%nat
  /\ convert_to_postfix ["("; "X_0"; "+"; "X_1"]
     = inl MismatchedParenthesesError.
Proof.
  split; [discriminate |]. split; [simpl; lia |].
  apply (unclosed_open_raises_in_drain ["("; "X_0"; "+"; "X_1"]).
  - discriminate.
  - simpl; lia.
Defined.

(** ** The assembler *)

Ltac monad_step := cbn [bind ret raise pop].

Lemma assemble_loop_app (tokens1 tokens2 : list token) :
  forall st,
    assemble_loop (tokens1 ++ tokens2) st
    = (st1 <- assemble_loop tokens1 st ;; assemble_loop tokens2 st1).
Proof.
  induction tokens1 as [| tok more IH]; intros st; simpl; [reflexivity |].
  destruct (assemble_token tok st) as [e | st1]; simpl; [reflexivity |].
  apply IH.
Qed.

Lemma assemble_token_covers (tok : token) (st st1 : asm_state) :
  counter_covers_rows st ->
  assemble_token tok st = inr st1 ->
  counter_covers_rows st1.
Proof.
  unfold counter_covers_rows, assemble_token. intros H.
  destruct (is_operator tok).
  - destruct (stack st) as [| a [| b s2]]; monad_step; try discriminate.
    destruct (getitem operator_map tok) as [e | c]; monad_step; [discriminate |].
    intros [= <-]; simpl. rewrite length_app; simpl. lia.
  - destruct (fullmatch tok) as [[kind digits] |]; monad_step.
    + destruct (getitem operator_map kind) as [e | c]; monad_step;
        [discriminate |].
      destruct (int digits) as [e | n]; monad_step; [discriminate |].
      intros [= <-]; simpl. rewrite length_app; simpl. lia.
    + intros [= <-]; simpl. lia.
Qed.

Lemma assemble_loop_covers (tokens : list token) :
  forall st st1,
    counter_covers_rows st ->
    assemble_loop tokens st = inr st1 ->
    counter_covers_rows st1.
Proof.
  induction tokens as [| tok more IH]; intros st st1 H; simpl.
  - intros [= <-]. exact H.
  - destruct (assemble_token tok st) as [e | st'] eqn:E; simpl;
      [discriminate |].
    apply IH. eapply assemble_token_covers; eauto.
Qed.

Lemma rows_ok_snoc (ca : list row) (r : row) :
  rows_ok ca ->
  (is_binary (code r) = true ->
   0 <= operand1 r < Z.of_nat (List.length ca)
   /\ 0 <= operand2 r < Z.of_nat (List.length ca)) ->
  rows_ok (ca ++ [r]).
Proof.
  intros Hca Hr n r' Hn Hb.
  destruct (Nat.lt_ge_cases n (List.length ca)) as [Lt | Ge].
  - rewrite nth_error_app1 in Hn by exact Lt. eapply Hca; eauto.
  - rewrite nth_error_app2 in Hn by exact Ge.
    destruct (n - List.length ca)%nat as [| k] eqn:K; simpl in Hn.
    + injection Hn as <-. replace n with (List.length ca) by lia. auto.
    + destruct k; discriminate Hn.
Qed.

Lemma Forall_range_weaken (l : list Z) (a b : Z) :
  a <= b ->
  Forall (fun x => 0 <= x < a) l -> Forall (fun x => 0 <= x < b) l.
Proof.
  intros Hab H. eapply Forall_impl; [| exact H]. simpl; intros; lia.
Qed.

Lemma assemble_token_backed (tok : token) (st st1 : asm_state) :
  backed tok = true ->
  asm_backed st ->
  assemble_token tok st = inr st1 ->
  asm_backed st1.
Proof.
  unfold backed, assemble_token. intros Hb [Hi Hs Hr].
  assert (Hlen : 0 <= i st) by lia.
  destruct (is_operator tok) eqn:Hop.
  - destruct (stack st) as [| a [| b s2]] eqn:Es; monad_step; try discriminate.
    destruct (operator_map_of_operator tok Hop) as (c & Ec & _).
    rewrite Ec; monad_step. intros [= <-].
    inversion Hs as [| ? ? Ha Hs1]; subst.
    inversion Hs1 as [| ? ? Hb' Hs2]; subst.
    constructor; simpl.
    + rewrite length_app; simpl. lia.
    + constructor; [lia |].
      apply Forall_range_weaken with (a := i st); [lia | exact Hs2].
    + apply rows_ok_snoc; [exact Hr |]. simpl. intros _. lia.
  - simpl in Hb.
    destruct (fullmatch tok) as [[kind digits] |] eqn:Em; [| discriminate].
    destruct (fullmatch_kind tok kind digits Em) as (c & Ec & Hc).
    rewrite Ec; monad_step.
    destruct (int digits) as [e | n]; monad_step; [discriminate |].
    intros [= <-].
    constructor; simpl.
    + rewrite length_app; simpl. lia.
    + constructor; [lia |].
      apply Forall_range_weaken with (a := i st); [lia | exact Hs].
    + apply rows_ok_snoc; [exact Hr |]. simpl. congruence.
Qed.

Lemma assemble_loop_backed (tokens : list token) :
  forall st st1,
    forallb backed tokens = true ->
    asm_backed st ->
    assemble_loop tokens st = inr st1 ->
    asm_backed st1.
Proof.
  induction tokens as [| tok more IH]; intros st st1 Hb Hst; simpl.
  - intros [= <-]. exact Hst.
  - simpl in Hb. apply andb_true_iff in Hb as [Hb1 Hb2].
    destruct (assemble_token tok st) as [e | st'] eqn:E; simpl;
      [discriminate |].
    apply IH; [exact Hb2 |]. eapply assemble_token_backed; eauto.
Qed.

Lemma asm_init_backed : asm_backed asm_init.
Proof.
  constructor; simpl; [reflexivity | constructor |].
  intros [| n] r H; discriminate H.
Qed.

Lemma postfix_to_agraph_returns (postfix : list token) (ca : list row) :
  postfix_to_agraph postfix = inr ca ->
  exists st, assemble_loop postfix asm_init = inr st
             /\ command_array st = ca.
Proof.
  unfold postfix_to_agraph.
  destruct (assemble_loop postfix asm_init) as [e | st]; simpl;
    [discriminate |].
  destruct (1 <? List.length (stack st))%nat; [discriminate |].
  intros [= <-]. eauto.
Qed.

(** C4, as stated, fails: the tokens [a b +] are assembled into the single
    row [[Addition, 0, 1]]. It sits at index 0 and neither operand is
    below 0: the two leaves took the indices 0 and 1 and left no row. *)
Lemma back_reference_counterexample :
  exists ca r,
    postfix_to_agraph ["a"; "b"; "+"] = inr ca
    /\ nth_error ca 0 = Some r
    /\ is_binary (code r) = true
    /\ ~ operand1 r < Z.of_nat 0
    /\ ~ operand2 r < Z.of_nat 0.
Proof.
  exists [Row ADDITION 0 1], (Row ADDITION 0 1).
  repeat split; simpl; try reflexivity; lia.
Qed.

(** C4, amended. When every token of the postfix sequence is an operator
    or matches the leaf-reference pattern, every binary row of the returned
    command array has both operands non-negative and strictly below the
    row's own index. *)
Theorem binary_rows_refer_back (postfix : list token) (ca : list row)
                               (n : nat) (r : row) :
  forallb backed postfix = true ->
  postfix_to_agraph postfix = inr ca ->
  nth_error ca n = Some r ->
  is_binary (code r) = true ->
  0 <= operand1 r < Z.of_nat n /\ 0 <= operand2 r < Z.of_nat n.
Proof.
  intros Hb Hrun Hn Hbin.
  destruct (postfix_to_agraph_returns postfix ca Hrun) as (st & L & <-).
  pose proof (assemble_loop_backed postfix asm_init st Hb asm_init_backed L)
    as [_ _ Hr].
  exact (Hr n r Hn Hbin).
Qed.

Lemma binary_rows_refer_back_witness :
  0 <= operand1 (Row MULTIPLICATION 0 1) < Z.of_nat 2
  /\ 0 <= operand2 (Row MULTIPLICATION 0 1) < Z.of_nat 2.
Proof.
  apply (binary_rows_refer_back ["X_3"; "C_7"; "*"]
           [Row VARIABLE 3 3; Row CONSTANT 7 7; Row MULTIPLICATION 0 1]
           2 (Row MULTIPLICATION 0 1)); reflexivity.
Defined.

(** C6. Whenever the loop of the assembler ends with more than one index
    on the index stack, [postfix_to_agraph] raises
    [MalformedExpressionError] and returns no command array. *)
Theorem residual_indices_raise (postfix : list token) (st : asm_state) :
  assemble_loop postfix asm_init = inr st ->
  (1 < List.length (stack st))%nat ->
  postfix_to_agraph postfix = inl MalformedExpressionError
  /\ (forall ca, postfix_to_agraph postfix <> inr ca).
Proof.
  intros L H. unfold postfix_to_agraph. rewrite L; monad_step.
  apply Nat.ltb_lt in H. rewrite H.
  split; [reflexivity | discriminate].
Qed.

Lemma residual_indices_witness :
  postfix_to_agraph ["X_0"; "X_1"] = inl MalformedExpressionError
  /\ (forall ca, postfix_to_agraph ["X_0"; "X_1"] <> inr ca).
Proof.
  apply (residual_indices_raise ["X_0"; "X_1"]
           {| stack := [1; 0];
              command_array := [Row VARIABLE 0 0; Row VARIABLE 1 1];
              i := 2 |}).
  - reflexivity.
  - simpl; lia.
Defined.

(** C8. In every state [st] the assembler reaches, a token that is no
    operator and fails the leaf-reference pattern leaves the command array
    as it is, pushes the counter [i st] on the index stack and increments
    the counter; the command array has no row at the pushed index. *)
Theorem unmatched_leaf_reserves_slot (tokens : list token) (tok : token)
                                     (st : asm_state) :
  assemble_loop tokens asm_init = inr st ->
  is_operator tok = false ->
  fullmatch tok = None ->
  let st1 := {| stack := i st :: stack st;
                command_array := command_array st;
                i := i st + 1 |} in
  assemble_token tok st = inr st1
  /\ assemble_loop (tokens ++ [tok]) asm_init = inr st1
  /\ 0 <= i st
  /\ nth_error (command_array st1) (Z.to_nat (i st)) = None.
Proof.
  intros L Hop Hm st1.
  assert (T : assemble_token tok st = inr st1).
  { unfold assemble_token. rewrite Hop, Hm. reflexivity. }
  assert (C : counter_covers_rows st).
  { apply (assemble_loop_covers tokens asm_init); [| exact L].
    unfold counter_covers_rows; simpl; lia. }
  unfold counter_covers_rows in C.
  split; [exact T |]. split.
  - rewrite assemble_loop_app, L; monad_step. simpl. rewrite T. reflexivity.
  - split; [lia |]. apply nth_error_None. simpl. lia.
Qed.

Lemma unmatched_leaf_witness :
  assemble_token "sin" {| stack := [0];
                          command_array := [Row VARIABLE 0 0];
                          i := 1 |}
  = inr {| stack := [1; 0];
           command_array := [Row VARIABLE 0 0];
           i := 2 |}
  /\ nth_error [Row VARIABLE 0 0] (Z.to_nat 1) = None.
Proof.
  pose proof (unmatched_leaf_reserves_slot ["X_0"] "sin"
                {| stack := [0];
                   command_array := [Row VARIABLE 0 0];
                   i := 1 |} eq_refl eq_refl eq_refl) as H.
  simpl in H. destruct H as (T & _ & _ & N). split; [exact T | exact N].
Defined.

(** C10. On the empty postfix sequence the assembler raises nothing: the
    loop ends in the initial state, with no index on the index stack, the
    test for more than one index is false, and the empty command array is
    returned. *)
Theorem empty_postfix_returns_empty :
  assemble_loop [] asm_init = inr asm_init
  /\ stack asm_init = []
  /\ (1 <? List.length (stack asm_init))%nat = false
  /\ postfix_to_agraph [] = inr [].
Proof.
  repeat split.
Qed.

(** ** Associativity *)

Lemma is_leaf_inv (tok : token) :
  is_leaf tok = true ->
  is_operator tok = false /\ String.eqb tok "(" = false
  /\ String.eqb tok ")" = false.
Proof.
  unfold is_leaf. rewrite !andb_true_iff, !negb_true_iff. tauto.
Qed.

Lemma convert_token_leaf (tok : token) (stack output : list token) :
  is_leaf tok = true ->
  convert_token tok stack output = inr (stack, output ++ [tok]).
Proof.
  intros H. apply is_leaf_inv in H as (H1 & H2 & H3).
  unfold convert_token. rewrite H1, H2, H3. reflexivity.
Qed.

Lemma convert_token_first_operator (o : token) (output : list token) :
  is_operator o = true ->
  convert_token o [] output = inr ([o], output).
Proof.
  intros H. unfold convert_token. rewrite H. reflexivity.
Qed.

Lemma convert_token_equal_precedence (o1 o2 : token) (output : list token) :
  is_operator o1 = true ->
  is_operator o2 = true ->
  getitem precedence o1 = getitem precedence o2 ->
  convert_token o2 [o1] output = inr ([o2], output ++ [o1]).
Proof.
  intros H1 H2 Hp. unfold convert_token. rewrite H2.
  cbn [pop_operators]. rewrite H1, Hp.
  destruct (precedence_of_operator o2 H2) as [q ->]. monad_step.
  replace (q >=? q) with true by (symmetry; apply Z.geb_le; lia).
  reflexivity.
Qed.

Lemma convert_token_operator_on_open (o : token) (rest output : list token) :
  is_operator o = true ->
  convert_token o ("(" :: rest) output = inr (o :: "(" :: rest, output).
Proof.
  intros H. unfold convert_token. rewrite H. reflexivity.
Qed.

Lemma convert_token_close_one (o : token) (rest output : list token) :
  is_operator o = true ->
  convert_token ")" (o :: "(" :: rest) output = inr (rest, output ++ [o]).
Proof.
  intros H; operator_cases H; reflexivity.
Qed.

Lemma drain_one_operator (o : token) (output : list token) :
  is_operator o = true -> drain [o] output = inr (output ++ [o]).
Proof.
  intros H; operator_cases H; reflexivity.
Qed.

Lemma assemble_token_leaf (tok : token) (st : asm_state) :
  is_operator tok = false ->
  within_digit_limit tok = true ->
  assemble_token tok st
  = inr {| stack := i st :: stack st;
           command_array := command_array st ++ leaf_rows tok;
           i := i st + 1 |}.
Proof.
  intros H L. unfold assemble_token, leaf_rows. rewrite H.
  unfold within_digit_limit in L.
  destruct (fullmatch tok) as [[kind digits] |] eqn:E.
  - destruct (fullmatch_kind tok kind digits E) as (c & -> & _).
    apply Z.leb_le in L. rewrite (int_within_limit digits L).
    reflexivity.
  - monad_step. rewrite app_nil_r. reflexivity.
Qed.

Lemma assemble_token_operator (o : token) (c : OperatorCode) (x y : Z)
                              (s : list Z) (ca : list row) (n : Z) :
  is_operator o = true ->
  getitem operator_map o = inr c ->
  assemble_token o {| stack := x :: y :: s; command_array := ca; i := n |}
  = inr {| stack := n :: s;
           command_array := ca ++ [Row c y x];
           i := n + 1 |}.
Proof.
  intros H E. unfold assemble_token. rewrite H. cbn [stack pop bind ret].
  rewrite E. reflexivity.
Qed.

Lemma leaf_rows_cases (tok : token) :
  leaf_rows tok = []
  \/ exists r, leaf_rows tok = [r] /\ is_binary (code r) = false.
Proof.
  unfold leaf_rows.
  destruct (fullmatch tok) as [[kind digits] |] eqn:E; [| auto].
  destruct (fullmatch_kind tok kind digits E) as (c & -> & Hc).
  right. eexists; split; [reflexivity | exact Hc].
Qed.

Section ThreeOperands.

Variables a b c o1 o2 : token.
Variables k1 k2 : OperatorCode.
Hypothesis leaf_a : is_leaf a = true.
Hypothesis leaf_b : is_leaf b = true.
Hypothesis leaf_c : is_leaf c = true.
Hypothesis limit_a : within_digit_limit a = true.
Hypothesis limit_b : within_digit_limit b = true.
Hypothesis limit_c : within_digit_limit c = true.
Hypothesis op_o1 : is_operator o1 = true.
Hypothesis op_o2 : is_operator o2 = true.
Hypothesis code_o1 : getitem operator_map o1 = inr k1.
Hypothesis code_o2 : getitem operator_map o2 = inr k2.

Ltac convert_leaf := rewrite convert_token_leaf by assumption; monad_step.

Lemma postfix_flat :
  getitem precedence o1 = getitem precedence o2 ->
  convert_to_postfix [a; o1; b; o2; c] = inr [a; b; o1; c; o2].
Proof.
  intros Hp. unfold convert_to_postfix. cbn [convert_loop].
  convert_leaf.
  rewrite convert_token_first_operator by assumption; monad_step.
  convert_leaf.
  rewrite convert_token_equal_precedence by assumption; monad_step.
  convert_leaf.
  cbn [rev app]. apply drain_one_operator, op_o2.
Qed.

Lemma postfix_left_grouped :
  convert_to_postfix ["("; a; o1; b; ")"; o2; c] = inr [a; b; o1; c; o2].
Proof.
  unfold convert_to_postfix. cbn [convert_loop].
  change (convert_token "(" [] []) with (@inr py_error _ (["("], @nil token)).
  monad_step. convert_leaf.
  rewrite convert_token_operator_on_open by assumption; monad_step.
  convert_leaf.
  rewrite convert_token_close_one by assumption; monad_step.
  rewrite convert_token_first_operator by assumption; monad_step.
  convert_leaf.
  cbn [rev app]. apply drain_one_operator, op_o2.
Qed.

Lemma postfix_right_grouped :
  convert_to_postfix [a; o1; "("; b; o2; c; ")"] = inr [a; b; c; o2; o1].
Proof.
  unfold convert_to_postfix. cbn [convert_loop].
  convert_leaf.
  rewrite convert_token_first_operator by assumption; monad_step.
  change (convert_token "(" [o1] ([] ++ [a]))
    with (@inr py_error _ (["("; o1], [] ++ [a])).
  monad_step. convert_leaf.
  rewrite convert_token_operator_on_open by assumption; monad_step.
  convert_leaf.
  rewrite convert_token_close_one by assumption; monad_step.
  cbn [rev app]. apply drain_one_operator, op_o1.
Qed.

Ltac assemble_leaf :=
  rewrite assemble_token_leaf
    by first [assumption | apply is_leaf_inv; assumption];
  cbn [bind ret stack command_array i].

Ltac assemble_operator k :=
  rewrite (assemble_token_operator _ k) by assumption;
  cbn [bind ret stack command_array i].

Lemma assemble_left_grouped :
  postfix_to_agraph [a; b; o1; c; o2]
  = inr (leaf_rows a ++ leaf_rows b ++ [Row k1 0 1]
         ++ leaf_rows c ++ [Row k2 2 3]).
Proof.
  unfold postfix_to_agraph, asm_init. cbn [assemble_loop].
  assemble_leaf. assemble_leaf. assemble_operator k1.
  assemble_leaf. assemble_operator k2.
  cbn. rewrite <- !app_assoc. reflexivity.
Qed.

Lemma assemble_right_grouped :
  postfix_to_agraph [a; b; c; o2; o1]
  = inr (leaf_rows a ++ leaf_rows b ++ leaf_rows c
         ++ [Row k2 1 2; Row k1 0 3]).
Proof.
  unfold postfix_to_agraph, asm_init. cbn [assemble_loop].
  assemble_leaf. assemble_leaf. assemble_leaf.
  assemble_operator k2. assemble_operator k1.
  cbn. rewrite <- !app_assoc. reflexivity.
Qed.

End ThreeOperands.

Lemma grouped_rows_differ (ra rb rc : list row) (k1 k2 : OperatorCode) :
  (rc = [] \/ exists r, rc = [r] /\ is_binary (code r) = false) ->
  is_binary k1 = true ->
  ra ++ rb ++ [Row k1 0 1] ++ rc ++ [Row k2 2 3]
  <> ra ++ rb ++ rc ++ [Row k2 1 2; Row k1 0 3].
Proof.
  intros Hc Hk H.
  apply app_inv_head in H. apply app_inv_head in H.
  destruct Hc as [-> | (r & -> & Hr)]; simpl in H.
  - discriminate H.
  - injection H as <- _. simpl in Hr. congruence.
Qed.

(** C5. Two operators of equal precedence, [^] included, are compiled
    left-associatively: for leaf tokens [a], [b], [c] the tokens
    [a o1 b o2 c] give the postfix sequence [a b o1 c o2], the one of
    [( a o1 b ) o2 c], and so the same outcome of the pipeline; when no
    leaf reference among [a], [b], [c] has more digits than [int]
    converts, that outcome is the command array in which the root is the
    row of [o2], its left operand the row of [o1] over [a] and [b], and it
    differs from the array of [a o1 ( b o2 c )]. *)
Theorem equal_precedence_left_associative (a b c o1 o2 : token)
                                          (k1 k2 : OperatorCode) :
  is_leaf a = true -> is_leaf b = true -> is_leaf c = true ->
  is_operator o1 = true -> is_operator o2 = true ->
  getitem operator_map o1 = inr k1 ->
  getitem operator_map o2 = inr k2 ->
  getitem precedence o1 = getitem precedence o2 ->
  convert_to_postfix [a; o1; b; o2; c] = inr [a; b; o1; c; o2]
  /\ compile [a; o1; b; o2; c] = compile ["("; a; o1; b; ")"; o2; c]
  /\ (within_digit_limit a = true ->
      within_digit_limit b = true ->
      within_digit_limit c = true ->
      compile [a; o1; b; o2; c]
      = inr (leaf_rows a ++ leaf_rows b ++ [Row k1 0 1]
             ++ leaf_rows c ++ [Row k2 2 3])
      /\ compile [a; o1; b; o2; c] <> compile [a; o1; "("; b; o2; c; ")"]).
Proof.
  intros La Lb Lc H1 H2 E1 E2 Hp.
  pose proof (postfix_flat a b c o1 o2 La Lb Lc H1 H2 Hp) as P.
  pose proof (postfix_left_grouped a b c o1 o2 La Lb Lc H1 H2) as PL.
  pose proof (postfix_right_grouped a b c o1 o2 La Lb Lc H1 H2) as PR.
  split; [exact P |]. split.
  { unfold compile. rewrite P, PL. reflexivity. }
  intros Ma Mb Mc.
  pose proof (assemble_left_grouped a b c o1 o2 k1 k2
                La Lb Lc Ma Mb Mc H1 H2 E1 E2) as AL.
  pose proof (assemble_right_grouped a b c o1 o2 k1 k2
                La Lb Lc Ma Mb Mc H1 H2 E1 E2) as AR.
  assert (C : compile [a; o1; b; o2; c]
              = inr (leaf_rows a ++ leaf_rows b ++ [Row k1 0 1]
                     ++ leaf_rows c ++ [Row k2 2 3])).
  { unfold compile. rewrite P. exact AL. }
  split; [exact C |].
  rewrite C. unfold compile. rewrite PR. monad_step. rewrite AR.
  intros [= H]. revert H. apply grouped_rows_differ.
  - apply leaf_rows_cases.
  - destruct (operator_map_of_operator o1 H1) as (k & Ek & Hk).
    congruence.
Qed.

Lemma equal_precedence_witness :
  (compile ["X_0"; "-"; "X_1"; "-"; "X_2"]
   = inr [Row VARIABLE 0 0; Row VARIABLE 1 1; Row SUBTRACTION 0 1;
          Row VARIABLE 2 2; Row SUBTRACTION 2 3]
   /\ compile ["X_0"; "-"; "X_1"; "-"; "X_2"]
      = compile ["("; "X_0"; "-"; "X_1"; ")"; "-"; "X_2"]
   /\ compile ["X_0"; "-"; "X_1"; "-"; "X_2"]
      <> compile ["X_0"; "-"; "("; "X_1"; "-"; "X_2"; ")"])
  /\ compile ["X_0"; "^"; "X_1"; "^"; "X_2"]
     = inr [Row VARIABLE 0 0; Row VARIABLE 1 1; Row POWER 0 1;
            Row VARIABLE 2 2; Row POWER 2 3].
Proof.
  split.
  - destruct (equal_precedence_left_associative
                "X_0" "X_1" "X_2" "-" "-" SUBTRACTION SUBTRACTION
                eq_refl eq_refl eq_refl eq_refl eq_refl
                eq_refl eq_refl eq_refl) as (_ & G & R).
    destruct (R eq_refl eq_refl eq_refl) as (C & N).
    split; [exact C |]. split; [exact G | exact N].
  - destruct (equal_precedence_left_associative
                "X_0" "X_1" "X_2" "^" "^" POWER POWER
                eq_refl eq_refl eq_refl eq_refl eq_refl
                eq_refl eq_refl eq_refl) as (_ & _ & R).
    destruct (R eq_refl eq_refl eq_refl) as (C & _). exact C.
Defined.

(** ** Independence of the storage order *)

Lemma existsb_permutation {A : Type} (f : A -> bool) (l l' : list A) :
  Permutation l l' -> existsb f l = existsb f l'.
Proof.
  induction 1 as [| x l l' _ IH | x y l | l l' l'' _ IH1 _ IH2]; simpl.
  - reflexivity.
  - rewrite IH. reflexivity.
  - destruct (f x), (f y); reflexivity.
  - congruence.
Qed.

(** A subscript finds the value of a key wherever the dict stores it, as
    long as no key occurs twice. *)
Lemma getitem_permutation {V : Type} (d d' : list (string * V))
                          (k : string) :
  Permutation d d' ->
  NoDup (map fst d) ->
  getitem d k = getitem d' k.
Proof.
  induction 1 as [| [k1 v1] d d' _ IH | [k1 v1] [k2 v2] d
                  | d d' d'' P1 IH1 _ IH2]; intros ND.
  - reflexivity.
  - cbn [getitem]. destruct (String.eqb k k1); [reflexivity |].
    apply IH. inversion ND; assumption.
  - cbn [getitem].
    destruct (String.eqb k k2) eqn:E2, (String.eqb k k1) eqn:E1;
      try reflexivity.
    apply String.eqb_eq in E1, E2. subst k1 k2.
    inversion ND as [| ? ? N _]. exfalso. apply N. left. reflexivity.
  - rewrite IH1 by exact ND. apply IH2.
    eapply Permutation_NoDup; [| exact ND].
    apply Permutation_map. exact P1.
Qed.

Lemma precedence_keys_differ : NoDup (map fst precedence).
Proof.
  repeat constructor; simpl; intuition discriminate.
Qed.

Lemma operator_map_keys_differ : NoDup (map fst operator_map).
Proof.
  repeat constructor; simpl; intuition discriminate.
Qed.

Section SameContents.

Variable m : containers.
Hypothesis contents : same_contents m.

Lemma is_operator_in_eq (t : token) : is_operator_in m t = is_operator t.
Proof.
  destruct contents as (P & _ & _). unfold is_operator_in, is_operator.
  symmetry. apply existsb_permutation, P.
Qed.

Lemma precedence_of_eq (k : string) :
  getitem (precedence_of m) k = getitem precedence k.
Proof.
  destruct contents as (_ & P & _). symmetry.
  apply getitem_permutation; [exact P | exact precedence_keys_differ].
Qed.

Lemma operator_map_of_eq (k : string) :
  getitem (operator_map_of m) k = getitem operator_map k.
Proof.
  destruct contents as (_ & _ & P). symmetry.
  apply getitem_permutation; [exact P | exact operator_map_keys_differ].
Qed.

Lemma pop_operators_in_eq (tok : token) (stack : list token) :
  forall output,
    pop_operators_in m tok stack output = pop_operators tok stack output.
Proof.
  induction stack as [| top rest IH]; intros output;
    cbn [pop_operators_in pop_operators]; [reflexivity |].
  rewrite is_operator_in_eq, !precedence_of_eq.
  destruct (is_operator top); [| reflexivity].
  destruct (getitem precedence top) as [e | p]; [reflexivity |].
  destruct (getitem precedence tok) as [e | q]; [reflexivity |].
  monad_step. destruct (p >=? q); [apply IH | reflexivity].
Qed.

Lemma convert_token_in_eq (tok : token) (stack output : list token) :
  convert_token_in m tok stack output = convert_token tok stack output.
Proof.
  unfold convert_token_in, convert_token.
  rewrite is_operator_in_eq, pop_operators_in_eq. reflexivity.
Qed.

Lemma convert_loop_in_eq (tokens : list token) :
  forall stack output,
    convert_loop_in m tokens stack output = convert_loop tokens stack output.
Proof.
  induction tokens as [| tok more IH]; intros stack output;
    cbn [convert_loop_in convert_loop]; [reflexivity |].
  rewrite convert_token_in_eq.
  destruct (convert_token tok stack output) as [e | [s1 o1]];
    [reflexivity | apply IH].
Qed.

Lemma convert_to_postfix_in_eq (tokens : list token) :
  convert_to_postfix_in m tokens = convert_to_postfix tokens.
Proof.
  unfold convert_to_postfix_in, convert_to_postfix.
  rewrite convert_loop_in_eq. reflexivity.
Qed.

Lemma assemble_token_in_eq (tok : token) (st : asm_state) :
  assemble_token_in m tok st = assemble_token tok st.
Proof.
  unfold assemble_token_in, assemble_token.
  rewrite is_operator_in_eq, operator_map_of_eq.
  destruct (fullmatch tok) as [[kind digits] |]; [| reflexivity].
  rewrite operator_map_of_eq. reflexivity.
Qed.

Lemma assemble_loop_in_eq (tokens : list token) :
  forall st, assemble_loop_in m tokens st = assemble_loop tokens st.
Proof.
  induction tokens as [| tok more IH]; intros st;
    cbn [assemble_loop_in assemble_loop]; [reflexivity |].
  rewrite assemble_token_in_eq.
  destruct (assemble_token tok st) as [e | st1]; [reflexivity | apply IH].
Qed.

Lemma postfix_to_agraph_in_eq (tokens : list token) :
  postfix_to_agraph_in m tokens = postfix_to_agraph tokens.
Proof.
  unfold postfix_to_agraph_in, postfix_to_agraph.
  rewrite assemble_loop_in_eq. reflexivity.
Qed.

Lemma compile_in_eq (tokens : list token) :
  compile_in m tokens = compile tokens.
Proof.
  unfold compile_in, compile. rewrite convert_to_postfix_in_eq.
  destruct (convert_to_postfix tokens) as [e | postfix]; [reflexivity |].
  apply postfix_to_agraph_in_eq.
Qed.

End SameContents.

(** C9. Compilation is deterministic. The source draws no random number
    and reads nothing but its argument; what two runs of the interpreter on
    the same token sequence may differ in is the order in which the set
    [operators] and the dicts [precedence] and [operator_map] are stored.
    Whatever these orders are in the two runs, both runs end with the same
    outcome of the conversion (the same postfix sequence, or the same
    exception) and the same outcome of the assembly (the same command
    array, or the same exception), the ones [convert_to_postfix] and
    [compile] give. *)
Theorem compile_independent_of_storage_order (m1 m2 : containers)
                                             (tokens : list token) :
  same_contents m1 ->
  same_contents m2 ->
  convert_to_postfix_in m1 tokens = convert_to_postfix_in m2 tokens
  /\ compile_in m1 tokens = compile_in m2 tokens
  /\ convert_to_postfix_in m1 tokens = convert_to_postfix tokens
  /\ compile_in m1 tokens = compile tokens.
Proof.
  intros C1 C2.
  rewrite !(convert_to_postfix_in_eq m1 C1), !(compile_in_eq m1 C1).
  rewrite (convert_to_postfix_in_eq m2 C2), (compile_in_eq m2 C2).
  repeat split.
Qed.

Lemma compile_independent_of_storage_order_witness :
  convert_to_postfix_in
    {| operators_of := ["^"; "/"; "*"; "-"; "+"];
       precedence_of := rev precedence;
       operator_map_of := rev operator_map |}
    ["X_0"; "*"; "("; "C_0"; "-"; "X_1"; ")"]
  = convert_to_postfix_in as_written
      ["X_0"; "*"; "("; "C_0"; "-"; "X_1"; ")"]
  /\ compile_in
       {| operators_of := ["^"; "/"; "*"; "-"; "+"];
       precedence_of := rev precedence;
       operator_map_of := rev operator_map |}
       ["X_0"; "*"; "("; "C_0"; "-"; "X_1"; ")"]
     = compile_in as_written ["X_0"; "*"; "("; "C_0"; "-"; "X_1"; ")"]
  /\ convert_to_postfix_in
       {| operators_of := ["^"; "/"; "*"; "-"; "+"];
       precedence_of := rev precedence;
       operator_map_of := rev operator_map |}
       ["X_0"; "*"; "("; "C_0"; "-"; "X_1"; ")"]
     = convert_to_postfix ["X_0"; "*"; "("; "C_0"; "-"; "X_1"; ")"]
  /\ compile_in
       {| operators_of := ["^"; "/"; "*"; "-"; "+"];
       precedence_of := rev precedence;
       operator_map_of := rev operator_map |}
       ["X_0"; "*"; "("; "C_0"; "-"; "X_1"; ")"]
     = compile ["X_0"; "*"; "("; "C_0"; "-"; "X_1"; ")"].
Proof.
  apply (compile_independent_of_storage_order
           {| operators_of := ["^"; "/"; "*"; "-"; "+"];
       precedence_of := rev precedence;
       operator_map_of := rev operator_map |}
           as_written
           ["X_0"; "*"; "("; "C_0"; "-"; "X_1"; ")"]).
  - repeat split; apply Permutation_rev.
  - repeat split; apply Permutation_refl.
Defined.

(** * Further properties of the converter *)

(** ** What one iteration moves *)

Lemma pop_operators_moves (tok : token) (stack output s1 o1 : list token) :
  pop_operators tok stack output = inr (s1, o1) ->
  exists moved,
    stack = moved ++ s1 /\ o1 = output ++ moved
    /\ Forall (fun t => is_operator t = true) moved.
Proof.
  revert output.
  induction stack as [| top rest IH]; intros output; cbn [pop_operators].
  - intros [= <- <-]. exists []. rewrite ?app_nil_r. repeat split; constructor.
  - destruct (is_operator top) eqn:Htop.
    + destruct (getitem precedence top) as [e | p]; monad_step;
        [discriminate |].
      destruct (getitem precedence tok) as [e | q]; monad_step;
        [discriminate |].
      destruct (p >=? q).
      * intros H. destruct (IH _ H) as (moved & -> & -> & F).
        exists (top :: moved). rewrite <- app_assoc. simpl.
        repeat split; auto.
      * intros [= <- <-]. exists []. rewrite ?app_nil_r. repeat split; constructor.
    + intros [= <- <-]. exists []. rewrite ?app_nil_r. repeat split; constructor.
Qed.

Lemma pop_until_open_moves (stack output s1 o1 : list token) :
  pop_until_open stack output = inr (s1, o1) ->
  exists moved rest,
    stack = moved ++ "(" :: rest /\ s1 = "(" :: rest
    /\ o1 = output ++ moved /\ ~ In "(" moved.
Proof.
  revert output.
  induction stack as [| top rest IH]; intros output; cbn [pop_until_open].
  - discriminate.
  - destruct (String.eqb top "(") eqn:E; cbn [negb].
    + apply String.eqb_eq in E; subst top. intros [= <- <-].
      exists [], rest. rewrite ?app_nil_r. simpl. auto.
    + apply String.eqb_neq in E. cbn [List.length Nat.eqb].
      intros H. destruct (IH _ H) as (moved & rest' & -> & -> & -> & N).
      exists (top :: moved), rest'. rewrite <- app_assoc. simpl.
      repeat split; auto. intros [-> | I]; [apply E; reflexivity | auto].
Qed.

(** The four ways an iteration of the converter's loop can end without
    raising. *)
Lemma convert_token_cases (tok : token) (stack output s1 o1 : list token) :
  convert_token tok stack output = inr (s1, o1) ->
  (is_operator tok = true
   /\ exists moved rest,
        stack = moved ++ rest /\ s1 = tok :: rest /\ o1 = output ++ moved
        /\ Forall (fun t => is_operator t = true) moved)
  \/ (tok = "(" /\ s1 = "(" :: stack /\ o1 = output)
  \/ (tok = ")"
      /\ exists moved,
           stack = moved ++ "(" :: s1 /\ o1 = output ++ moved
           /\ ~ In "(" moved)
  \/ (is_leaf tok = true /\ s1 = stack /\ o1 = output ++ [tok]).
Proof.
  unfold convert_token.
  destruct (is_operator tok) eqn:Hop.
  - destruct (pop_operators tok stack output) as [e | [s o]] eqn:P;
      monad_step; [discriminate |].
    intros [= <- <-]. left. split; [reflexivity |].
    destruct (pop_operators_moves _ _ _ _ _ P) as (moved & -> & -> & F).
    exists moved, s. auto.
  - destruct (String.eqb tok "(") eqn:E1.
    + apply String.eqb_eq in E1; subst tok. intros [= <- <-]. auto.
    + destruct (String.eqb tok ")") eqn:E2.
      * apply String.eqb_eq in E2; subst tok.
        destruct (pop_until_open stack output) as [e | [s o]] eqn:P;
          monad_step; [discriminate |].
        destruct (pop_until_open_moves _ _ _ _ P)
          as (moved & rest & -> & -> & -> & N).
        monad_step. intros [= <- <-]. right; right; left.
        split; [reflexivity |]. exists moved. auto.
      * intros [= <- <-]. right; right; right.
        unfold is_leaf. rewrite Hop, E1, E2. auto.
Qed.

Lemma operator_not_paren (tok : token) :
  is_operator tok = true -> is_paren tok = false.
Proof.
  intros H; operator_cases H; reflexivity.
Qed.

Lemma operator_not_leaf (tok : token) :
  is_operator tok = true -> is_leaf tok = false.
Proof.
  intros H. unfold is_leaf. rewrite H. reflexivity.
Qed.

Lemma leaf_not_paren (tok : token) :
  is_leaf tok = true -> is_paren tok = false.
Proof.
  intros H. apply is_leaf_inv in H as (_ & H1 & H2).
  unfold is_paren. rewrite H1, H2. reflexivity.
Qed.

Lemma strip_parens_app (l1 l2 : list token) :
  strip_parens (l1 ++ l2) = strip_parens l1 ++ strip_parens l2.
Proof.
  apply filter_app.
Qed.

Lemma strip_parens_operators (l : list token) :
  Forall (fun t => is_operator t = true) l -> strip_parens l = l.
Proof.
  induction 1 as [| t l H _ IH]; simpl; [reflexivity |].
  rewrite (operator_not_paren t H). simpl. rewrite IH. reflexivity.
Qed.

Lemma filter_leaf_operators (l : list token) :
  Forall (fun t => is_operator t = true) l -> filter is_leaf l = [].
Proof.
  induction 1 as [| t l H _ IH]; simpl; [reflexivity |].
  rewrite (operator_not_leaf t H). exact IH.
Qed.

Lemma stack_ok_operators (l : list token) :
  stack_ok l -> ~ In "(" l -> Forall (fun t => is_operator t = true) l.
Proof.
  induction 1 as [| t l H _ IH]; intros N; constructor.
  - destruct H as [H | ->]; [exact H |]. exfalso. apply N. left; reflexivity.
  - apply IH. intros I. apply N. right; exact I.
Qed.

Lemma Forall_operators_no_paren (l : list token) :
  Forall (fun t => is_operator t = true) l ->
  Forall (fun t => is_paren t = false) l.
Proof.
  intros H. eapply Forall_impl; [| exact H].
  intros t. apply operator_not_paren.
Qed.

(** What one iteration keeps: the stack holds operators and ["("] only,
    the tokens that are no parentheses are moved around but neither lost
    nor duplicated, no parenthesis reaches the output, and the leaves reach
    the output in the order they are read. *)
Lemma convert_token_shape (tok : token) (stack output s1 o1 : list token) :
  stack_ok stack ->
  convert_token tok stack output = inr (s1, o1) ->
  stack_ok s1
  /\ Permutation (strip_parens (o1 ++ s1))
       (strip_parens (output ++ stack) ++ strip_parens [tok])
  /\ (Forall (fun t => is_paren t = false) output ->
      Forall (fun t => is_paren t = false) o1)
  /\ filter is_leaf o1 = filter is_leaf output ++ filter is_leaf [tok].
Proof.
  intros OK H.
  destruct (convert_token_cases _ _ _ _ _ H)
    as [(Hop & moved & rest & -> & -> & -> & F)
       | [(-> & -> & ->)
         | [(-> & moved & -> & -> & N)
           | (Hl & -> & ->)]]].
  - apply Forall_app in OK as [_ OKr].
    split; [constructor; auto |]. split; [| split].
    + rewrite !strip_parens_app. simpl.
      rewrite (operator_not_paren tok Hop). simpl.
      rewrite <- !app_assoc. do 2 apply Permutation_app_head.
      apply Permutation_cons_append.
    + intros P. apply Forall_app. split; [exact P |].
      apply Forall_operators_no_paren, F.
    + rewrite filter_app, (filter_leaf_operators moved F). simpl.
      rewrite (operator_not_leaf tok Hop). reflexivity.
  - split; [constructor; auto |]. split; [| split].
    + rewrite !strip_parens_app. simpl. rewrite app_nil_r. reflexivity.
    + auto.
    + simpl. rewrite app_nil_r. reflexivity.
  - apply Forall_app in OK as [OKm OKr].
    pose proof (stack_ok_operators moved OKm N) as F.
    inversion OKr as [| ? ? _ OKs]; subst.
    split; [exact OKs |]. split; [| split].
    + rewrite !strip_parens_app. simpl. rewrite app_nil_r.
      rewrite <- app_assoc. reflexivity.
    + intros P. apply Forall_app. split; [exact P |].
      apply Forall_operators_no_paren, F.
    + rewrite filter_app, (filter_leaf_operators moved F). reflexivity.
  - split; [exact OK |]. split; [| split].
    + rewrite !strip_parens_app. simpl.
      rewrite (leaf_not_paren tok Hl). simpl.
      rewrite <- !app_assoc. apply Permutation_app_head.
      apply Permutation_app_comm.
    + intros P. apply Forall_app. split; [exact P |].
      constructor; [apply leaf_not_paren, Hl | constructor].
    + rewrite filter_app. reflexivity.
Qed.

Lemma convert_loop_shape (tokens : list token) :
  forall stack output s1 o1,
    stack_ok stack ->
    convert_loop tokens stack output = inr (s1, o1) ->
    stack_ok s1
    /\ Permutation (strip_parens (o1 ++ s1))
         (strip_parens (output ++ stack) ++ strip_parens tokens)
    /\ (Forall (fun t => is_paren t = false) output ->
        Forall (fun t => is_paren t = false) o1)
    /\ filter is_leaf o1 = filter is_leaf output ++ filter is_leaf tokens.
Proof.
  induction tokens as [| tok more IH]; intros stack output s1 o1 OK;
    cbn [convert_loop].
  - intros [= <- <-]. simpl. rewrite !app_nil_r. auto.
  - destruct (convert_token tok stack output) as [e | [s o]] eqn:T;
      monad_step; [discriminate |].
    intros L.
    destruct (convert_token_shape _ _ _ _ _ OK T) as (OK1 & P1 & N1 & F1).
    destruct (IH _ _ _ _ OK1 L) as (OK2 & P2 & N2 & F2).
    split; [exact OK2 |]. split; [| split].
    + rewrite P2, P1. rewrite <- app_assoc.
      apply Permutation_app_head.
      change (tok :: more) with ([tok] ++ more).
      rewrite strip_parens_app. reflexivity.
    + auto.
    + rewrite F2, F1, <- app_assoc.
      change (tok :: more) with ([tok] ++ more).
      rewrite (filter_app is_leaf [tok] more). reflexivity.
Qed.

Lemma drain_no_open (items : list token) :
  forall output, ~ In "(" items -> drain items output = inr (output ++ items).
Proof.
  induction items as [| tok more IH]; intros output N; cbn [drain].
  - rewrite app_nil_r. reflexivity.
  - destruct (String.eqb tok "(") eqn:E.
    + apply String.eqb_eq in E. exfalso. apply N. left. auto.
    + rewrite IH by (intros I; apply N; right; exact I).
      rewrite <- app_assoc. reflexivity.
Qed.

Lemma count_open_zero (stack : list token) :
  count_open stack = O -> ~ In "(" stack.
Proof.
  induction stack as [| tok rest IH]; simpl; [tauto |].
  destruct (String.eqb tok "(") eqn:E; [discriminate |].
  apply String.eqb_neq in E. intros C [H | H]; [congruence | tauto].
Qed.

(** A returned postfix sequence is the output of the loop followed by the
    side stack from its bottom to its top, and that stack holds operators
    only. *)
Lemma convert_to_postfix_returns (tokens postfix : list token) :
  convert_to_postfix tokens = inr postfix ->
  exists stack output,
    convert_loop tokens [] [] = inr (stack, output)
    /\ Forall (fun t => is_operator t = true) stack
    /\ postfix = output ++ rev stack.
Proof.
  unfold convert_to_postfix.
  destruct (convert_loop tokens [] []) as [e | [stack output]] eqn:L;
    monad_step; [discriminate |].
  intros D. exists stack, output. split; [reflexivity |].
  destruct (convert_loop_shape tokens [] [] stack output (Forall_nil _) L)
    as (OK & _).
  assert (N : ~ In "(" stack).
  { intros I. rewrite (drain_open (rev stack) output) in D;
      [discriminate | rewrite <- in_rev; exact I]. }
  split; [apply stack_ok_operators; assumption |].
  rewrite drain_no_open in D by (rewrite <- in_rev; exact N).
  congruence.
Qed.

(** ** Outcomes of the conversion *)

(** X1. The converter returns a postfix sequence exactly when the
    parentheses of the token sequence are balanced: every [")"] has an open
    ["("] to its left and no ["("] is left open. Nothing else in the tokens
    can make it raise. *)
Theorem convert_to_postfix_returns_iff_balanced (tokens : list token) :
  (exists postfix, convert_to_postfix tokens = inr postfix)
  <-> paren_depth tokens 0 = Some O.
Proof.
  pose proof (convert_loop_depth tokens [] []) as L. simpl in L.
  unfold convert_to_postfix.
  destruct (paren_depth tokens 0) as [[| d] |].
  - destruct L as (stack & output & -> & C). monad_step.
    split; [reflexivity |]. intros _.
    rewrite drain_no_open; [eauto |].
    rewrite <- in_rev. apply count_open_zero, C.
  - destruct L as (stack & output & -> & C). monad_step.
    rewrite drain_open
      by (rewrite <- in_rev; apply count_open_In; rewrite C; lia).
    split; [intros [p H] | intros H]; discriminate H.
  - rewrite L. monad_step.
    split; [intros [p H] | intros H]; discriminate H.
Qed.

(** X2. The converter raises two exceptions only: the [IndexError] of the
    subscript [stack[-1]] and the [RuntimeError] of the final loop. It
    never raises [KeyError] on a lookup of [precedence], and the
    [stack.pop()] that discards the ["("] never finds the stack empty. *)
Theorem convert_to_postfix_errors (tokens : list token) (e : py_error) :
  convert_to_postfix tokens = inl e ->
  e = IndexError "list index out of range"
  \/ e = MismatchedParenthesesError.
Proof.
  pose proof (convert_loop_depth tokens [] []) as L. simpl in L.
  unfold convert_to_postfix.
  destruct (paren_depth tokens 0) as [[| d] |].
  - destruct L as (stack & output & -> & C). monad_step.
    rewrite drain_no_open
      by (rewrite <- in_rev; apply count_open_zero, C).
    discriminate.
  - destruct L as (stack & output & -> & C). monad_step.
    rewrite drain_open
      by (rewrite <- in_rev; apply count_open_In; rewrite C; lia).
    intros [= <-]. auto.
  - rewrite L. monad_step. intros [= <-]. auto.
Qed.

Lemma convert_to_postfix_errors_witness :
  MismatchedParenthesesError = IndexError "list index out of range"
  \/ MismatchedParenthesesError = MismatchedParenthesesError.
Proof.
  apply (convert_to_postfix_errors ["("; "X_0"; "*"; "("; "X_1"; ")"]).
  reflexivity.
Defined.

(** X3. A returned postfix sequence holds exactly the tokens of the input
    that are no parentheses, each as often as the input does: it is a
    permutation of them, and it contains neither ["("] nor [")"]. *)
Theorem postfix_permutes_tokens (tokens postfix : list token) :
  convert_to_postfix tokens = inr postfix ->
  Permutation postfix (strip_parens tokens)
  /\ ~ In "(" postfix /\ ~ In ")" postfix
  /\ List.length postfix = List.length (strip_parens tokens).
Proof.
  intros H.
  destruct (convert_to_postfix_returns _ _ H) as (stack & output & L & F & ->).
  destruct (convert_loop_shape tokens [] [] stack output (Forall_nil _) L)
    as (_ & P & _ & _).
  simpl in P.
  assert (Q : Permutation (output ++ rev stack) (strip_parens tokens)).
  { rewrite <- P, strip_parens_app, (strip_parens_operators stack F).
    destruct (convert_loop_shape tokens [] [] stack output (Forall_nil _) L)
      as (_ & _ & N & _).
    assert (S : strip_parens output = output).
    { specialize (N (Forall_nil _)). clear - N.
      induction N as [| t l Ht _ IH]; simpl; [reflexivity |].
      rewrite Ht. simpl. rewrite IH. reflexivity. }
    rewrite S. apply Permutation_app_head. symmetry. apply Permutation_rev. }
  assert (NP : forall t, In t (output ++ rev stack) -> is_paren t = false).
  { intros t I. apply (Permutation_in _ Q) in I.
    apply filter_In in I as [_ I]. apply negb_true_iff in I. exact I. }
  split; [exact Q |]. split; [| split].
  - intros I. apply NP in I. discriminate I.
  - intros I. apply NP in I. discriminate I.
  - apply Permutation_length, Q.
Qed.

Lemma postfix_permutes_tokens_witness :
  Permutation ["X_0"; "X_1"; "C_0"; "+"; "*"]
    (strip_parens ["X_0"; "*"; "("; "X_1"; "+"; "C_0"; ")"])
  /\ ~ In "(" ["X_0"; "X_1"; "C_0"; "+"; "*"]
  /\ ~ In ")" ["X_0"; "X_1"; "C_0"; "+"; "*"]
  /\ List.length ["X_0"; "X_1"; "C_0"; "+"; "*"]
     = List.length (strip_parens ["X_0"; "*"; "("; "X_1"; "+"; "C_0"; ")"]).
Proof.
  apply (postfix_permutes_tokens ["X_0"; "*"; "("; "X_1"; "+"; "C_0"; ")"]).
  reflexivity.
Defined.

(** X4. The leaves pass through the converter unchanged and in their
    order: the leaves of a returned postfix sequence, read from left to
    right, are the leaves of the input read from left to right. *)
Theorem postfix_keeps_leaf_order (tokens postfix : list token) :
  convert_to_postfix tokens = inr postfix ->
  filter is_leaf postfix = filter is_leaf tokens.
Proof.
  intros H.
  destruct (convert_to_postfix_returns _ _ H) as (stack & output & L & F & ->).
  destruct (convert_loop_shape tokens [] [] stack output (Forall_nil _) L)
    as (_ & _ & _ & E).
  rewrite filter_app, E. simpl.
  rewrite (filter_leaf_operators (rev stack)); [apply app_nil_r |].
  apply Forall_rev, F.
Qed.

Lemma postfix_keeps_leaf_order_witness :
  filter is_leaf ["X_0"; "X_1"; "C_0"; "+"; "*"]
  = filter is_leaf ["X_0"; "*"; "("; "X_1"; "+"; "C_0"; ")"].
Proof.
  apply (postfix_keeps_leaf_order
           ["X_0"; "*"; "("; "X_1"; "+"; "C_0"; ")"]).
  reflexivity.
Defined.

(** ** An enclosing pair of parentheses *)

Lemma convert_loop_app (tokens1 tokens2 : list token) :
  forall stack output,
    convert_loop (tokens1 ++ tokens2) stack output
    = ('(s1, o1) <- convert_loop tokens1 stack output ;;
       convert_loop tokens2 s1 o1).
Proof.
  induction tokens1 as [| tok more IH]; intros stack output; simpl;
    [reflexivity |].
  destruct (convert_token tok stack output) as [e | [s o]]; monad_step;
    [reflexivity | apply IH].
Qed.

(** Below an open parenthesis the side stack is out of reach: a stack that
    sits on ["(" :: base] is handled as if it sat on nothing. *)
Lemma pop_operators_frame (tok : token) (base : list token) :
  forall stack output s1 o1,
    pop_operators tok stack output = inr (s1, o1) ->
    pop_operators tok (stack ++ "(" :: base) output
    = inr (s1 ++ "(" :: base, o1).
Proof.
  intros stack.
  induction stack as [| top rest IH]; intros output s1 o1;
    cbn [pop_operators app].
  - intros [= <- <-]. reflexivity.
  - destruct (is_operator top).
    + destruct (getitem precedence top) as [e | p]; monad_step;
        [discriminate |].
      destruct (getitem precedence tok) as [e | q]; monad_step;
        [discriminate |].
      destruct (p >=? q); [apply IH |].
      intros [= <- <-]. reflexivity.
    + intros [= <- <-]. reflexivity.
Qed.

Lemma pop_until_open_frame (base : list token) :
  forall stack output s1 o1,
    pop_until_open stack output = inr (s1, o1) ->
    pop_until_open (stack ++ "(" :: base) output
    = inr (s1 ++ "(" :: base, o1).
Proof.
  intros stack.
  induction stack as [| top rest IH]; intros output s1 o1;
    cbn [pop_until_open app].
  - discriminate.
  - destruct (String.eqb top "("); cbn [negb].
    + intros [= <- <-]. reflexivity.
    + cbn [List.length Nat.eqb]. apply IH.
Qed.

Lemma convert_token_frame (tok : token) (base stack output s1 o1 : list token) :
  convert_token tok stack output = inr (s1, o1) ->
  convert_token tok (stack ++ "(" :: base) output
  = inr (s1 ++ "(" :: base, o1).
Proof.
  unfold convert_token.
  destruct (is_operator tok).
  - destruct (pop_operators tok stack output) as [e | [s o]] eqn:P;
      monad_step; [discriminate |].
    rewrite (pop_operators_frame tok base _ _ _ _ P). monad_step.
    intros [= <- <-]. reflexivity.
  - destruct (String.eqb tok "("); [intros [= <- <-]; reflexivity |].
    destruct (String.eqb tok ")"); [| intros [= <- <-]; reflexivity].
    destruct (pop_until_open stack output) as [e | [s o]] eqn:P;
      monad_step; [discriminate |].
    rewrite (pop_until_open_frame base _ _ _ _ P). monad_step.
    destruct s as [| top s]; monad_step; [discriminate |].
    intros [= <- <-]. reflexivity.
Qed.

Lemma convert_loop_frame (base tokens : list token) :
  forall stack output s1 o1,
    convert_loop tokens stack output = inr (s1, o1) ->
    convert_loop tokens (stack ++ "(" :: base) output
    = inr (s1 ++ "(" :: base, o1).
Proof.
  induction tokens as [| tok more IH]; intros stack output s1 o1;
    cbn [convert_loop].
  - intros [= <- <-]. reflexivity.
  - destruct (convert_token tok stack output) as [e | [s o]] eqn:T;
      monad_step; [discriminate |].
    rewrite (convert_token_frame tok base _ _ _ _ T). monad_step.
    apply IH.
Qed.

Lemma pop_until_open_operators (stack rest : list token) :
  forall output,
    Forall (fun t => is_operator t = true) stack ->
    pop_until_open (stack ++ "(" :: rest) output
    = inr ("(" :: rest, output ++ stack).
Proof.
  induction stack as [| top more IH]; intros output F;
    cbn [pop_until_open app].
  - rewrite app_nil_r. reflexivity.
  - inversion F as [| ? ? Htop Fm]; subst.
    assert (E : String.eqb top "(" = false)
      by (operator_cases Htop; reflexivity).
    rewrite E. cbn [negb List.length Nat.eqb].
    rewrite IH by exact Fm. rewrite <- app_assoc. reflexivity.
Qed.

(** X5. A pair of parentheses around a whole token sequence is not
    neutral. When the converter returns on [tokens], its result is the
    output of the loop followed by the operators left on the side stack
    from the BOTTOM of the stack to its top; on ["(" tokens ")"] it
    returns the same output followed by the same operators from the TOP of
    the stack to its bottom. *)
Theorem enclosing_parentheses_reverse_the_rest (tokens postfix : list token) :
  convert_to_postfix tokens = inr postfix ->
  exists stack output,
    convert_loop tokens [] [] = inr (stack, output)
    /\ postfix = output ++ rev stack
    /\ convert_to_postfix ("(" :: tokens ++ [")"]) = inr (output ++ stack).
Proof.
  intros H.
  destruct (convert_to_postfix_returns _ _ H) as (stack & output & L & F & ->).
  exists stack, output. split; [exact L |]. split; [reflexivity |].
  unfold convert_to_postfix. cbn [convert_loop].
  change (convert_token "(" [] []) with (@inr py_error _ (["("], @nil token)).
  monad_step. rewrite convert_loop_app.
  pose proof (convert_loop_frame [] tokens [] [] stack output L) as Fr.
  cbn [app] in Fr.
  match type of Fr with
  | ?lhs = _ =>
      match goal with
      | |- context [convert_loop tokens ?s ?o] =>
          change (convert_loop tokens s o) with lhs
      end
  end.
  rewrite Fr. monad_step.
  cbn [convert_loop]. unfold convert_token at 1.
  change (is_operator ")") with false. cbv iota.
  change (String.eqb ")" "(") with false.
  change (String.eqb ")" ")") with true. cbv iota.
  rewrite (pop_until_open_operators stack [] output F). monad_step.
  reflexivity.
Qed.

Lemma enclosing_parentheses_witness :
  exists stack output,
    convert_loop ["X_0"; "+"; "X_1"; "*"; "X_2"] [] [] = inr (stack, output)
    /\ ["X_0"; "X_1"; "X_2"; "+"; "*"] = output ++ rev stack
    /\ convert_to_postfix ("(" :: ["X_0"; "+"; "X_1"; "*"; "X_2"] ++ [")"])
       = inr (output ++ stack).
Proof.
  apply (enclosing_parentheses_reverse_the_rest
           ["X_0"; "+"; "X_1"; "*"; "X_2"]).
  reflexivity.
Defined.

(** * Further properties of the assembler *)

Ltac monad_step_in H := cbn [bind ret raise pop] in H.

Lemma assemble_token_operator_short (tok : token) (st : asm_state) :
  is_operator tok = true ->
  (List.length (stack st) < 2)%nat ->
  assemble_token tok st = inl (IndexError "pop from empty list").
Proof.
  intros H L. unfold assemble_token. rewrite H.
  destruct (stack st) as [| x [| y s]]; simpl in L; try lia; reflexivity.
Qed.

Lemma assemble_token_operator_pops (tok : token) (st : asm_state)
      (x y : Z) (s : list Z) :
  is_operator tok = true ->
  stack st = x :: y :: s ->
  exists c,
    getitem operator_map tok = inr c /\ is_binary c = true
    /\ assemble_token tok st
       = inr {| stack := i st :: s;
                command_array := command_array st ++ [Row c y x];
                i := i st + 1 |}.
Proof.
  intros H E. destruct (operator_map_of_operator tok H) as (c & Ec & Hc).
  exists c. split; [exact Ec |]. split; [exact Hc |].
  unfold assemble_token. rewrite H, E. monad_step. rewrite Ec. reflexivity.
Qed.

Lemma operator_within_limit (tok : token) :
  is_operator tok = true -> within_digit_limit tok = true.
Proof.
  intros H; operator_cases H; reflexivity.
Qed.

(** A leaf reference with more digits than [int] converts stops the
    assembler. *)
Lemma assemble_token_beyond_limit (tok : token) (st : asm_state) :
  within_digit_limit tok = false ->
  exists msg, assemble_token tok st = inl (ValueError msg).
Proof.
  intros L.
  destruct (is_operator tok) eqn:Hop;
    [rewrite operator_within_limit in L by exact Hop; discriminate |].
  unfold assemble_token. rewrite Hop. unfold within_digit_limit in L.
  destruct (fullmatch tok) as [[kind digits] |] eqn:E; [| discriminate].
  destruct (fullmatch_kind tok kind digits E) as (c & -> & _). monad_step.
  apply Z.leb_gt in L.
  destruct (int_beyond_limit digits L) as (msg & ->).
  exists msg. reflexivity.
Qed.

(** The loop of the assembler follows [arity] as long as [int] converts
    every leaf reference: it raises [IndexError] at the first operator
    that finds fewer than two indices, and otherwise ends with [arity]
    indices on the stack and the counter advanced by the number of
    tokens. *)
Lemma assemble_loop_arity (tokens : list token) :
  forallb within_digit_limit tokens = true ->
  forall st,
    match arity tokens (List.length (stack st)) with
    | None =>
        assemble_loop tokens st = inl (IndexError "pop from empty list")
    | Some d =>
        exists st1,
          assemble_loop tokens st = inr st1
          /\ List.length (stack st1) = d
          /\ i st1 = i st + Z.of_nat (List.length tokens)
    end.
Proof.
  induction tokens as [| tok more IH]; intros W st;
    cbn [arity assemble_loop].
  - exists st. simpl. repeat split. lia.
  - cbn [forallb] in W. apply andb_true_iff in W as [Wt W].
    specialize (IH W).
    destruct (is_operator tok) eqn:Hop.
    + destruct (stack st) as [| x [| y s]] eqn:Es; cbn [List.length].
      * rewrite assemble_token_operator_short by (auto; rewrite Es; simpl; lia).
        reflexivity.
      * rewrite assemble_token_operator_short by (auto; rewrite Es; simpl; lia).
        reflexivity.
      * destruct (assemble_token_operator_pops tok st x y s Hop Es)
          as (c & _ & _ & ->).
        monad_step.
        match goal with
        | |- context [assemble_loop more ?st'] => specialize (IH st')
        end.
        cbn [stack List.length i] in IH.
        destruct (arity more (S (List.length s))); [| exact IH].
        destruct IH as (st1 & L & D & I).
        exists st1. repeat split; auto. rewrite I.
        cbn [List.length]. lia.
    + rewrite assemble_token_leaf by assumption. monad_step.
      match goal with
      | |- context [assemble_loop more ?st'] => specialize (IH st')
      end.
      cbn [stack List.length i] in IH.
      destruct (arity more (S (List.length (stack st)))); [| exact IH].
      destruct IH as (st1 & L & D & I).
      exists st1. repeat split; auto. rewrite I.
      cbn [List.length]. lia.
Qed.

(** X6. When no leaf reference has more digits than [int] converts, the
    outcome of the assembler can be read off the stack discipline of the
    token sequence. It raises [IndexError] when some operator finds fewer
    than two indices on the index stack, raises
    [MalformedExpressionError] when the tokens leave more than one index,
    and returns a command array in every other case; it raises neither
    [KeyError] nor [ValueError]. *)
Theorem postfix_to_agraph_outcome (tokens : list token) :
  forallb within_digit_limit tokens = true ->
  match arity tokens 0 with
  | None =>
      postfix_to_agraph tokens = inl (IndexError "pop from empty list")
  | Some d =>
      if (1 <? d)%nat
      then postfix_to_agraph tokens = inl MalformedExpressionError
      else exists ca, postfix_to_agraph tokens = inr ca
  end.
Proof.
  intros W. pose proof (assemble_loop_arity tokens W asm_init) as A.
  cbn [asm_init stack List.length] in A. unfold postfix_to_agraph.
  destruct (arity tokens 0) as [d |].
  - destruct A as (st1 & L & D & _). fold asm_init in L.
    rewrite L. monad_step. rewrite D.
    destruct (1 <? d)%nat; eauto.
  - fold asm_init in A. rewrite A. reflexivity.
Qed.

Lemma postfix_to_agraph_outcome_witness :
  postfix_to_agraph ["X_0"; "+"; "X_1"]
  = inl (IndexError "pop from empty list")
  /\ postfix_to_agraph ["X_0"; "X_1"; "X_2"; "+"]
     = inl MalformedExpressionError
  /\ exists ca, postfix_to_agraph ["X_0"; "X_1"; "+"] = inr ca.
Proof.
  split; [| split].
  - apply (postfix_to_agraph_outcome ["X_0"; "+"; "X_1"]). reflexivity.
  - apply (postfix_to_agraph_outcome ["X_0"; "X_1"; "X_2"; "+"]).
    reflexivity.
  - apply (postfix_to_agraph_outcome ["X_0"; "X_1"; "+"]). reflexivity.
Defined.

(** The three ways an iteration of the assembler's loop can end without
    raising. *)
Lemma assemble_token_cases (tok : token) (st st1 : asm_state) :
  assemble_token tok st = inr st1 ->
  (is_operator tok = true
   /\ exists x y s c,
        stack st = x :: y :: s /\ is_binary c = true
        /\ getitem operator_map tok = inr c
        /\ st1 = {| stack := i st :: s;
                    command_array := command_array st ++ [Row c y x];
                    i := i st + 1 |})
  \/ (is_operator tok = false
      /\ within_digit_limit tok = true
      /\ st1 = {| stack := i st :: stack st;
                  command_array := command_array st ++ leaf_rows tok;
                  i := i st + 1 |}).
Proof.
  destruct (is_operator tok) eqn:Hop.
  - destruct (stack st) as [| x [| y s]] eqn:Es.
    + rewrite assemble_token_operator_short
        by (auto; rewrite Es; simpl; lia). discriminate.
    + rewrite assemble_token_operator_short
        by (auto; rewrite Es; simpl; lia). discriminate.
    + destruct (assemble_token_operator_pops tok st x y s Hop Es)
        as (c & Ec & Hc & ->).
      intros [= <-]. left. split; [reflexivity |].
      exists x, y, s, c. auto.
  - destruct (within_digit_limit tok) eqn:W.
    + rewrite assemble_token_leaf by assumption. intros [= <-]. auto.
    + destruct (assemble_token_beyond_limit tok st W) as (msg & ->).
      discriminate.
Qed.

(** The loop returns only when [int] converts every leaf reference. *)
Lemma assemble_loop_within_limit (tokens : list token) :
  forall st st1,
    assemble_loop tokens st = inr st1 ->
    forallb within_digit_limit tokens = true.
Proof.
  induction tokens as [| tok more IH]; intros st st1;
    cbn [assemble_loop forallb]; [reflexivity |].
  destruct (assemble_token tok st) as [e | st'] eqn:T; monad_step;
    [discriminate |].
  intros L. rewrite (IH _ _ L), andb_true_r.
  destruct (assemble_token_cases _ _ _ T) as [(Hop & _) | (_ & W & _)];
    [apply operator_within_limit, Hop | exact W].
Qed.

Lemma leaf_rows_length (tok : token) :
  is_operator tok = false ->
  List.length (leaf_rows tok) = List.length (filter backed [tok]).
Proof.
  intros H. unfold leaf_rows, backed. cbn [filter]. rewrite H. cbn [orb].
  destruct (fullmatch tok) as [[kind digits] |] eqn:E; [| reflexivity].
  destruct (fullmatch_kind tok kind digits E) as (c & -> & _). reflexivity.
Qed.

Lemma assemble_loop_row_count (tokens : list token) :
  forall st st1,
    assemble_loop tokens st = inr st1 ->
    List.length (command_array st1)
    = (List.length (command_array st)
       + List.length (filter backed tokens))%nat.
Proof.
  induction tokens as [| tok more IH]; intros st st1; cbn [assemble_loop].
  - intros [= <-]. simpl. lia.
  - destruct (assemble_token tok st) as [e | st'] eqn:T; monad_step;
      [discriminate |].
    intros L. rewrite (IH _ _ L).
    change (tok :: more) with ([tok] ++ more). rewrite filter_app, length_app.
    destruct (assemble_token_cases _ _ _ T)
      as [(Hop & x & y & s & c & _ & _ & _ & ->) | (Hop & _ & ->)];
      cbn [command_array]; rewrite length_app.
    + unfold backed. simpl. rewrite Hop. simpl. lia.
    + rewrite (leaf_rows_length tok Hop). lia.
Qed.

(** X7. The assembler appends one row for every operator and for every
    leaf reference, and none for any other token: a returned command array
    has as many rows as the postfix sequence has such tokens. *)
Theorem command_array_row_count (tokens : list token) (ca : list row) :
  postfix_to_agraph tokens = inr ca ->
  List.length ca = List.length (filter backed tokens).
Proof.
  intros H. destruct (postfix_to_agraph_returns _ _ H) as (st & L & <-).
  rewrite (assemble_loop_row_count _ _ _ L). reflexivity.
Qed.

Lemma command_array_row_count_witness :
  List.length [Row VARIABLE 0 0; Row MULTIPLICATION 0 1]
  = List.length (filter backed ["X_0"; "sin"; "*"]).
Proof.
  apply (command_array_row_count ["X_0"; "sin"; "*"]). reflexivity.
Defined.

Lemma assemble_loop_top (tokens : list token) :
  forall st st1,
    tokens <> [] ->
    assemble_loop tokens st = inr st1 ->
    exists rest, stack st1 = (i st1 - 1) :: rest.
Proof.
  induction tokens as [| tok more IH]; intros st st1 N; [congruence |].
  cbn [assemble_loop].
  destruct (assemble_token tok st) as [e | st'] eqn:T; monad_step;
    [discriminate |].
  destruct more as [| tok' more'].
  - cbn [assemble_loop]. intros [= <-].
    destruct (assemble_token_cases _ _ _ T)
      as [(_ & x & y & s & c & _ & _ & _ & ->) | (_ & _ & ->)];
      cbn [stack i]; eexists; f_equal; lia.
  - apply IH. discriminate.
Qed.

Lemma filter_backed_all (tokens : list token) :
  forallb backed tokens = true -> filter backed tokens = tokens.
Proof.
  induction tokens as [| t l IH]; simpl; [reflexivity |].
  intros B. apply andb_true_iff in B as [-> B].
  rewrite IH by exact B. reflexivity.
Qed.

Lemma postfix_to_agraph_root (tokens : list token) (ca : list row) :
  tokens <> [] ->
  postfix_to_agraph tokens = inr ca ->
  exists st,
    assemble_loop tokens asm_init = inr st
    /\ command_array st = ca
    /\ stack st = [Z.of_nat (List.length tokens) - 1]
    /\ i st = Z.of_nat (List.length tokens).
Proof.
  intros N H. unfold postfix_to_agraph in H.
  destruct (assemble_loop tokens asm_init) as [e | st] eqn:L;
    [discriminate |].
  monad_step_in H.
  destruct (1 <? List.length (stack st))%nat eqn:C; [discriminate |].
  injection H as <-. apply Nat.ltb_ge in C.
  destruct (assemble_loop_top tokens asm_init st N L) as (rest & E).
  pose proof (assemble_loop_arity tokens
                (assemble_loop_within_limit _ _ _ L) asm_init) as A.
  destruct (arity tokens (List.length (stack asm_init))); [| congruence].
  destruct A as (st1 & L1 & _ & I). rewrite L in L1. injection L1 as <-.
  simpl in I.
  exists st. repeat split; auto.
  rewrite E in C |- *. destruct rest; [| simpl in C; lia].
  rewrite I. reflexivity.
Qed.

(** X8. The root is the last index. When the assembler returns on a
    postfix sequence that is not empty, the one index left on the index
    stack is the number of tokens minus one; when moreover every token is
    an operator or a leaf reference, this is the index of the last row of
    the command array. *)
Theorem root_is_last_index (tokens : list token) (ca : list row) :
  tokens <> [] ->
  postfix_to_agraph tokens = inr ca ->
  exists st,
    assemble_loop tokens asm_init = inr st
    /\ command_array st = ca
    /\ stack st = [Z.of_nat (List.length tokens) - 1]
    /\ (forallb backed tokens = true ->
        stack st = [Z.of_nat (List.length ca) - 1]).
Proof.
  intros N H.
  destruct (postfix_to_agraph_root tokens ca N H) as (st & L & E & S1 & _).
  exists st. repeat split; auto.
  intros B. rewrite S1, <- E.
  rewrite (assemble_loop_row_count _ _ _ L). simpl.
  rewrite (filter_backed_all tokens B). reflexivity.
Qed.

Lemma root_is_last_index_witness :
  exists st,
    assemble_loop ["X_0"; "C_1"; "X_2"; "/"; "-"] asm_init = inr st
    /\ command_array st
       = [Row VARIABLE 0 0; Row CONSTANT 1 1; Row VARIABLE 2 2;
          Row DIVISION 1 2; Row SUBTRACTION 0 3]
    /\ stack st = [Z.of_nat (List.length ["X_0"; "C_1"; "X_2"; "/"; "-"]) - 1]
    /\ (forallb backed ["X_0"; "C_1"; "X_2"; "/"; "-"] = true ->
        stack st
        = [Z.of_nat (List.length
                       [Row VARIABLE 0 0; Row CONSTANT 1 1; Row VARIABLE 2 2;
                        Row DIVISION 1 2; Row SUBTRACTION 0 3]) - 1]).
Proof.
  apply (root_is_last_index ["X_0"; "C_1"; "X_2"; "/"; "-"]).
  - discriminate.
  - reflexivity.
Defined.

Lemma int_acc_nonneg (s : string) :
  forall acc, 0 <= acc -> all_digits s = true -> 0 <= int_acc acc s.
Proof.
  induction s as [| c s IH]; intros acc Hacc; cbn [int_acc all_digits];
    [auto |].
  intros H. apply andb_true_iff in H as [Hc Hs].
  apply IH; [| exact Hs].
  unfold is_digit in Hc. apply andb_true_iff in Hc as [Lo _].
  apply Nat.leb_le in Lo. lia.
Qed.

Lemma fullmatch_digits (tok : token) (kind digits : string) :
  fullmatch tok = Some (kind, digits) ->
  all_digits digits = true /\ digits <> "".
Proof.
  destruct tok as [| k [| u ds]]; simpl; try discriminate.
  destruct (_ || _); simpl; [| discriminate].
  destruct (Ascii.eqb u "_"); simpl; [| discriminate].
  destruct (String.eqb ds "") eqn:E; simpl; [discriminate |].
  destruct (all_digits ds) eqn:D; [| discriminate].
  intros [= _ <-]. split; [exact D |]. apply String.eqb_neq, E.
Qed.

Lemma leaf_rows_shape (tok : token) (r : row) :
  In r (leaf_rows tok) ->
  is_binary (code r) = false /\ operand1 r = operand2 r /\ 0 <= operand1 r.
Proof.
  unfold leaf_rows.
  destruct (fullmatch tok) as [[kind digits] |] eqn:E; [| intros []].
  destruct (fullmatch_kind tok kind digits E) as (c & -> & Hc).
  destruct (fullmatch_digits tok kind digits E) as (D & _).
  intros [<- | []]. simpl. repeat split; auto.
  apply int_acc_nonneg; [lia | exact D].
Qed.

Lemma assemble_loop_leaf_rows (tokens : list token) :
  forall st st1,
    assemble_loop tokens st = inr st1 ->
    forall r,
      In r (command_array st1) ->
      is_binary (code r) = false ->
      In r (command_array st)
      \/ (operand1 r = operand2 r /\ 0 <= operand1 r).
Proof.
  induction tokens as [| tok more IH]; intros st st1; cbn [assemble_loop].
  - intros [= <-]. auto.
  - destruct (assemble_token tok st) as [e | st'] eqn:T; monad_step;
      [discriminate |].
    intros L r I B.
    destruct (IH _ _ L r I B) as [I' | ?]; [| auto].
    destruct (assemble_token_cases _ _ _ T)
      as [(_ & x & y & s & c & _ & Hc & _ & ->) | (_ & _ & ->)];
      cbn [command_array] in I'; apply in_app_or in I' as [? | I']; auto.
    + destruct I' as [<- | []]. simpl in B. congruence.
    + right. apply (leaf_rows_shape tok r I').
Qed.

(** X9. A leaf row carries the slot number of its leaf twice: in a
    returned command array every row whose code is [VARIABLE] or
    [CONSTANT] has equal operands, and they are not negative. *)
Theorem leaf_rows_repeat_their_slot (tokens : list token) (ca : list row)
                                    (r : row) :
  postfix_to_agraph tokens = inr ca ->
  In r ca ->
  is_binary (code r) = false ->
  operand1 r = operand2 r /\ 0 <= operand1 r.
Proof.
  intros H I B. destruct (postfix_to_agraph_returns _ _ H) as (st & L & <-).
  destruct (assemble_loop_leaf_rows _ _ _ L r I B) as [[] | ?]. assumption.
Qed.

Lemma leaf_rows_repeat_their_slot_witness :
  operand1 (Row CONSTANT 12 12) = operand2 (Row CONSTANT 12 12)
  /\ 0 <= operand1 (Row CONSTANT 12 12).
Proof.
  apply (leaf_rows_repeat_their_slot ["X_3"; "C_012"; "^"]
           [Row VARIABLE 3 3; Row CONSTANT 12 12; Row POWER 0 1]).
  - reflexivity.
  - simpl. auto.
  - reflexivity.
Defined.

(** ** Every index is used once *)

Lemma references_app (ca1 ca2 : list row) :
  references (ca1 ++ ca2) = references ca1 ++ references ca2.
Proof.
  apply flat_map_app.
Qed.

Lemma references_leaf_rows (tok : token) : references (leaf_rows tok) = [].
Proof.
  destruct (leaf_rows_cases tok) as [-> | (r & -> & H)]; [reflexivity |].
  unfold references. simpl. rewrite H. reflexivity.
Qed.

Lemma indices_succ (n : nat) : indices (S n) = indices n ++ [Z.of_nat n].
Proof.
  unfold indices. rewrite seq_S, map_app. reflexivity.
Qed.

(** The indices handed out so far are, each once, on the index stack or
    among the operands of the binary rows. *)
Lemma assemble_token_uses_once (tok : token) (st st1 : asm_state) (n : nat) :
  i st = Z.of_nat n ->
  Permutation (stack st ++ references (command_array st)) (indices n) ->
  assemble_token tok st = inr st1 ->
  i st1 = Z.of_nat (S n)
  /\ Permutation (stack st1 ++ references (command_array st1))
       (indices (S n)).
Proof.
  intros I P T. rewrite indices_succ.
  destruct (assemble_token_cases _ _ _ T)
    as [(_ & x & y & s & c & Es & Hc & _ & ->) | (_ & _ & ->)];
    cbn [stack command_array i]; (split; [lia |]);
    rewrite references_app.
  - unfold references at 2. simpl. rewrite Hc. simpl.
    rewrite Es in P. rewrite <- I, <- P.
    set (refs := references (command_array st)).
    transitivity ((s ++ refs ++ [y; x]) ++ [i st]);
      [apply Permutation_cons_append |].
    apply Permutation_app_tail.
    transitivity ([y; x] ++ s ++ refs).
    + rewrite (app_assoc s refs). apply Permutation_app_comm.
    + simpl. apply perm_swap.
  - rewrite references_leaf_rows, app_nil_r.
    rewrite <- I, <- P. apply Permutation_cons_append.
Qed.

Lemma assemble_loop_uses_once (tokens : list token) :
  forall st st1 n,
    i st = Z.of_nat n ->
    Permutation (stack st ++ references (command_array st)) (indices n) ->
    assemble_loop tokens st = inr st1 ->
    i st1 = Z.of_nat (n + List.length tokens)
    /\ Permutation (stack st1 ++ references (command_array st1))
         (indices (n + List.length tokens)).
Proof.
  induction tokens as [| tok more IH]; intros st st1 n I P;
    cbn [assemble_loop].
  - intros [= <-]. simpl. rewrite Nat.add_0_r. auto.
  - destruct (assemble_token tok st) as [e | st'] eqn:T; monad_step;
      [discriminate |].
    intros L.
    destruct (assemble_token_uses_once _ _ _ n I P T) as (I' & P').
    destruct (IH _ _ _ I' P' L) as (I2 & P2).
    simpl. rewrite Nat.add_succ_r. auto.
Qed.

(** X10. The command array of a postfix sequence is a tree, rooted at its
    last row. When the assembler returns on a sequence of tokens that is
    not empty and in which every token is an operator or a leaf
    reference, the array has one row per token, the operands of a binary
    row are positions of rows before it, and these operands are, each
    exactly once, the positions of the rows but the last: every row except
    the last is the operand of one binary row, no row is an operand twice,
    and the last row is the operand of none. *)
Theorem every_row_used_once (tokens : list token) (ca : list row) :
  forallb backed tokens = true ->
  tokens <> [] ->
  postfix_to_agraph tokens = inr ca ->
  List.length ca = List.length tokens
  /\ rows_ok ca
  /\ Permutation (references ca) (indices (List.length ca - 1))
  /\ NoDup (references ca)
  /\ ~ In (Z.of_nat (List.length ca) - 1) (references ca).
Proof.
  intros B N H.
  destruct (postfix_to_agraph_root tokens ca N H) as (st & L & <- & S1 & _).
  assert (Len : List.length (command_array st) = List.length tokens).
  { rewrite (assemble_loop_row_count _ _ _ L). simpl.
    rewrite (filter_backed_all tokens B). reflexivity. }
  pose proof (assemble_loop_backed tokens asm_init st B asm_init_backed L)
    as [_ _ Rows].
  destruct (assemble_loop_uses_once tokens asm_init st 0 eq_refl
              (Permutation_refl _) L) as (_ & P).
  simpl in P. rewrite S1 in P. rewrite Len.
  split; [reflexivity |]. split; [exact Rows |].
  destruct tokens as [| tok more]; [congruence |].
  cbn [List.length] in *. rewrite indices_succ in P.
  replace (Z.of_nat (S (List.length more)) - 1)
    with (Z.of_nat (List.length more)) in * by lia.
  replace (S (List.length more) - 1)%nat with (List.length more) by lia.
  assert (Q : Permutation (references (command_array st))
                (indices (List.length more))).
  { apply Permutation_cons_inv with (a := Z.of_nat (List.length more)).
    etransitivity; [exact P |]. symmetry. apply Permutation_cons_append. }
  assert (D : NoDup (indices (List.length more))).
  { unfold indices. apply Finite.Injective_map_NoDup; [| apply seq_NoDup].
    intros a b E. lia. }
  split; [exact Q |]. split.
  - eapply Permutation_NoDup; [symmetry; exact Q | exact D].
  - intros I. apply (Permutation_in _ Q) in I.
    unfold indices in I. apply in_map_iff in I as (k & E & I).
    apply in_seq in I. lia.
Qed.

Lemma every_row_used_once_witness :
  List.length [Row VARIABLE 0 0; Row CONSTANT 1 1; Row VARIABLE 2 2;
               Row DIVISION 1 2; Row SUBTRACTION 0 3]
  = List.length ["X_0"; "C_1"; "X_2"; "/"; "-"]
  /\ rows_ok [Row VARIABLE 0 0; Row CONSTANT 1 1; Row VARIABLE 2 2;
              Row DIVISION 1 2; Row SUBTRACTION 0 3]
  /\ Permutation
       (references [Row VARIABLE 0 0; Row CONSTANT 1 1; Row VARIABLE 2 2;
                    Row DIVISION 1 2; Row SUBTRACTION 0 3])
       (indices (List.length
                   [Row VARIABLE 0 0; Row CONSTANT 1 1; Row VARIABLE 2 2;
                    Row DIVISION 1 2; Row SUBTRACTION 0 3] - 1))
  /\ NoDup
       (references [Row VARIABLE 0 0; Row CONSTANT 1 1; Row VARIABLE 2 2;
                    Row DIVISION 1 2; Row SUBTRACTION 0 3])
  /\ ~ In (Z.of_nat (List.length
                       [Row VARIABLE 0 0; Row CONSTANT 1 1;
                        Row VARIABLE 2 2; Row DIVISION 1 2;
                        Row SUBTRACTION 0 3]) - 1)
         (references [Row VARIABLE 0 0; Row CONSTANT 1 1; Row VARIABLE 2 2;
                      Row DIVISION 1 2; Row SUBTRACTION 0 3]).
Proof.
  apply (every_row_used_once ["X_0"; "C_1"; "X_2"; "/"; "-"]).
  - reflexivity.
  - discriminate.
  - reflexivity.
Defined.

(** * Infix expressions compile *)

Lemma arity_app (tokens1 tokens2 : list token) :
  forall depth,
    arity (tokens1 ++ tokens2) depth
    = match arity tokens1 depth with
      | Some d => arity tokens2 d
      | None => None
      end.
Proof.
  induction tokens1 as [| tok more IH]; intros depth; simpl; [reflexivity |].
  destruct (is_operator tok); [| apply IH].
  destruct depth as [| [| d]]; auto.
Qed.

Lemma arity_operators (ops : list token) (k : nat) :
  Forall (fun t => is_operator t = true) ops ->
  arity ops (List.length ops + S k) = Some (S k).
Proof.
  induction 1 as [| t l H _ IH]; simpl; [reflexivity |].
  rewrite H. rewrite Nat.add_succ_r in *. exact IH.
Qed.

Lemma count_operators_app (l1 l2 : list token) :
  count_operators (l1 ++ l2) = (count_operators l1 + count_operators l2)%nat.
Proof.
  unfold count_operators. rewrite filter_app, length_app. reflexivity.
Qed.

Lemma count_operators_all (ops : list token) :
  Forall (fun t => is_operator t = true) ops ->
  count_operators ops = List.length ops.
Proof.
  unfold count_operators.
  induction 1 as [| t l H _ IH]; simpl; [reflexivity |].
  rewrite H. simpl. rewrite IH. reflexivity.
Qed.

Lemma count_open_app (l1 l2 : list token) :
  count_open (l1 ++ l2) = (count_open l1 + count_open l2)%nat.
Proof.
  induction l1 as [| t l IH]; simpl; [reflexivity |].
  destruct (String.eqb t "("); simpl; rewrite IH; reflexivity.
Qed.

Lemma count_open_operators (ops : list token) :
  Forall (fun t => is_operator t = true) ops -> count_open ops = O.
Proof.
  induction 1 as [| t l H _ IH]; simpl; [reflexivity |].
  assert (E : String.eqb t "(" = false) by (operator_cases H; reflexivity).
  rewrite E. exact IH.
Qed.

(** Moving [moved] operators from the stack to an output that has one
    operand more than the stack has operators keeps that balance. *)
Lemma arity_after_pops (output moved rest : list token) :
  Forall (fun t => is_operator t = true) moved ->
  arity output 0 = Some (S (count_operators (moved ++ rest))) ->
  arity (output ++ moved) 0 = Some (S (count_operators rest)).
Proof.
  intros F A. rewrite arity_app, A, count_operators_app.
  rewrite (count_operators_all moved F).
  rewrite <- Nat.add_succ_r. apply arity_operators, F.
Qed.

(** Reading an infix expression takes the converter from a state that
    waits for an operand to a state that has read one: the output gains
    one operand over the operators still on the stack, and the stack holds
    the same open parentheses as before. *)
Lemma convert_loop_infix_expr (e : list token) :
  infix_expr e ->
  forall stack output,
    stack_ok stack ->
    arity output 0 = Some (count_operators stack) ->
    exists s1 o1,
      convert_loop e stack output = inr (s1, o1)
      /\ stack_ok s1
      /\ count_open s1 = count_open stack
      /\ arity o1 0 = Some (S (count_operators s1)).
Proof.
  induction 1 as [a La | e1 o e2 E1 IH1 Ho E2 IH2 | e E IH];
    intros stack output OK A.
  - cbn [convert_loop]. rewrite convert_token_leaf by exact La. monad_step.
    exists stack, (output ++ [a]). repeat split; auto.
    rewrite arity_app, A. simpl.
    apply is_leaf_inv in La as (-> & _). reflexivity.
  - destruct (IH1 stack output OK A) as (s1 & o1 & L1 & OK1 & C1 & A1).
    rewrite convert_loop_app, L1. monad_step. cbn [convert_loop].
    destruct (pop_operators_returns o s1 o1 Ho) as (s2 & o2 & P & C2).
    destruct (pop_operators_moves _ _ _ _ _ P) as (moved & -> & -> & F).
    unfold convert_token at 1. rewrite Ho, P. monad_step.
    apply Forall_app in OK1 as [_ OK2].
    destruct (IH2 (o :: s2) (o1 ++ moved)) as (s3 & o3 & L3 & OK3 & C3 & A3).
    + constructor; auto.
    + rewrite (arity_after_pops o1 moved s2 F A1).
      unfold count_operators. simpl. rewrite Ho. reflexivity.
    + exists s3, o3. repeat split; auto.
      rewrite C3, <- C1. simpl.
      assert (Eo : String.eqb o "(" = false)
        by (operator_cases Ho; reflexivity).
      rewrite Eo. exact C2.
  - cbn [convert_loop].
    change (convert_token "(" stack output)
      with (@inr py_error _ ("(" :: stack, output)).
    monad_step. rewrite convert_loop_app.
    destruct (IH ("(" :: stack) output) as (s1 & o1 & L1 & OK1 & C1 & A1).
    + constructor; auto.
    + exact A.
    + rewrite L1. monad_step. cbn [convert_loop].
      simpl in C1.
      destruct (pop_until_open_finds s1 o1 _ C1) as (rest & o2 & P & C2).
      destruct (pop_until_open_moves _ _ _ _ P)
        as (moved & rest' & -> & [= <-] & -> & N).
      apply Forall_app in OK1 as [OKm OKr].
      pose proof (stack_ok_operators moved OKm N) as F.
      inversion OKr as [| ? ? _ OKrest]; subst.
      unfold convert_token at 1.
      change (is_operator ")") with false. cbv iota.
      change (String.eqb ")" "(") with false.
      change (String.eqb ")" ")") with true. cbv iota.
      rewrite P. monad_step.
      exists rest, (o1 ++ moved). repeat split; auto.
      apply (arity_after_pops o1 moved rest F).
      rewrite A1. rewrite !count_operators_app.
      unfold count_operators at 2. simpl. reflexivity.
Qed.

Lemma postfix_to_agraph_arity_one (postfix : list token) :
  forallb within_digit_limit postfix = true ->
  arity postfix 0 = Some 1%nat ->
  exists ca, postfix_to_agraph postfix = inr ca.
Proof.
  intros W Ar. pose proof (assemble_loop_arity postfix W asm_init) as A.
  cbn [asm_init stack List.length] in A. rewrite Ar in A.
  destruct A as (st & L & D & _). fold asm_init in L.
  unfold postfix_to_agraph. rewrite L. monad_step. rewrite D. simpl. eauto.
Qed.

(** The tokens of a returned postfix sequence are tokens of the input. *)
Lemma postfix_tokens_of_input (tokens postfix : list token) :
  convert_to_postfix tokens = inr postfix ->
  incl postfix tokens.
Proof.
  intros H.
  destruct (convert_to_postfix_returns _ _ H) as (stack & output & L & F & ->).
  destruct (convert_loop_shape tokens [] [] stack output (Forall_nil _) L)
    as (_ & P & N & _).
  simpl in P. specialize (N (Forall_nil _)).
  assert (S : strip_parens output = output).
  { clear - N. induction N as [| t l Ht _ IH]; simpl; [reflexivity |].
    rewrite Ht. simpl. rewrite IH. reflexivity. }
  rewrite strip_parens_app, (strip_parens_operators stack F), S in P.
  intros t I. apply in_app_or in I.
  assert (I' : In t (output ++ stack)).
  { apply in_or_app. destruct I as [I | I]; [left; exact I |].
    right. apply in_rev. exact I. }
  apply (Permutation_in _ P) in I'.
  apply filter_In in I' as [I' _]. exact I'.
Qed.

(** X11. Every infix expression compiles. On a token sequence built from
    leaves, operators between two expressions and pairs of parentheses
    around an expression, no leaf reference having more digits than [int]
    converts, the converter returns a postfix sequence and the assembler
    returns a command array for it: no exception is raised, whatever the
    precedences. *)
Theorem infix_expr_compiles (e : list token) :
  infix_expr e ->
  forallb within_digit_limit e = true ->
  exists postfix ca,
    convert_to_postfix e = inr postfix
    /\ arity postfix 0 = Some 1%nat
    /\ postfix_to_agraph postfix = inr ca
    /\ compile e = inr ca.
Proof.
  intros E W.
  destruct (convert_loop_infix_expr e E [] [] (Forall_nil _) eq_refl)
    as (s1 & o1 & L & OK & C & A).
  simpl in C.
  pose proof (stack_ok_operators s1 OK (count_open_zero s1 C)) as F.
  assert (P : convert_to_postfix e = inr (o1 ++ rev s1)).
  { unfold convert_to_postfix. rewrite L. monad_step.
    apply drain_no_open. rewrite <- in_rev. apply count_open_zero, C. }
  assert (Ar : arity (o1 ++ rev s1) 0 = Some 1%nat).
  { rewrite arity_app, A, (count_operators_all s1 F).
    rewrite <- length_rev.
    replace (S (List.length (rev s1))) with (List.length (rev s1) + 1)%nat
      by lia.
    apply arity_operators, Forall_rev, F. }
  assert (Wp : forallb within_digit_limit (o1 ++ rev s1) = true).
  { apply forallb_forall. intros t I.
    apply (postfix_tokens_of_input e _ P) in I.
    rewrite forallb_forall in W. apply W, I. }
  destruct (postfix_to_agraph_arity_one _ Wp Ar) as (ca & O).
  exists (o1 ++ rev s1), ca. repeat split; auto.
  unfold compile. rewrite P. exact O.
Qed.

Lemma infix_expr_compiles_witness :
  exists postfix ca,
    convert_to_postfix ["("; "X_0"; "+"; "X_1"; ")"; "*"; "X_2"]
    = inr postfix
    /\ arity postfix 0 = Some 1%nat
    /\ postfix_to_agraph postfix = inr ca
    /\ compile ["("; "X_0"; "+"; "X_1"; ")"; "*"; "X_2"] = inr ca.
Proof.
  apply (infix_expr_compiles ["("; "X_0"; "+"; "X_1"; ")"; "*"; "X_2"]).
  - apply (ie_binary ["("; "X_0"; "+"; "X_1"; ")"] "*" ["X_2"]).
    + apply (ie_paren ["X_0"; "+"; "X_1"]).
      apply (ie_binary ["X_0"] "+" ["X_1"]).
      * apply ie_leaf. reflexivity.
      * reflexivity.
      * apply ie_leaf. reflexivity.
    + reflexivity.
    + apply ie_leaf. reflexivity.
  - reflexivity.
Defined.

(** * Expression trees *)

(** ** Fully parenthesized expressions *)

Lemma convert_loop_parenthesized (e : expr) :
  well_formed e = true ->
  forall stack output,
    convert_loop (parenthesized e) stack output
    = inr (stack, output ++ postorder e).
Proof.
  induction e as [a | l IHl o r IHr]; intros W stack output.
  - simpl in W. cbn [parenthesized postorder convert_loop].
    rewrite convert_token_leaf by exact W. reflexivity.
  - simpl in W. apply andb_true_iff in W as [W Wr].
    apply andb_true_iff in W as [Wl Wo].
    cbn [parenthesized postorder convert_loop].
    change (convert_token "(" stack output)
      with (@inr py_error _ ("(" :: stack, output)).
    monad_step. rewrite convert_loop_app, (IHl Wl). monad_step.
    cbn [convert_loop].
    rewrite convert_token_operator_on_open by exact Wo. monad_step.
    rewrite convert_loop_app, (IHr Wr). monad_step.
    cbn [convert_loop].
    rewrite convert_token_close_one by exact Wo. monad_step.
    rewrite <- !app_assoc. reflexivity.
Qed.

(** X12. On a fully parenthesized expression the converter returns the
    post-order traversal of the expression tree: left operand, right
    operand, operator. The same holds when the outermost pair of
    parentheses is left out. *)
Theorem parenthesized_gives_postorder (e : expr) :
  well_formed e = true ->
  convert_to_postfix (parenthesized e) = inr (postorder e)
  /\ convert_to_postfix (parenthesized_inside e) = inr (postorder e).
Proof.
  intros W. split.
  - unfold convert_to_postfix.
    rewrite (convert_loop_parenthesized e W). reflexivity.
  - destruct e as [a | l o r].
    + unfold convert_to_postfix. cbn [parenthesized_inside convert_loop].
      simpl in W. rewrite convert_token_leaf by exact W. reflexivity.
    + simpl in W. apply andb_true_iff in W as [W Wr].
      apply andb_true_iff in W as [Wl Wo].
      unfold convert_to_postfix. cbn [parenthesized_inside postorder].
      rewrite convert_loop_app, (convert_loop_parenthesized l Wl).
      monad_step. cbn [convert_loop].
      rewrite convert_token_first_operator by exact Wo. monad_step.
      rewrite (convert_loop_parenthesized r Wr). monad_step.
      cbn [rev app]. rewrite drain_one_operator by exact Wo.
      rewrite <- !app_assoc. reflexivity.
Qed.

Lemma parenthesized_gives_postorder_witness :
  convert_to_postfix
    (parenthesized
       (Binary (Binary (Leaf "X_0") "+" (Leaf "X_1")) "*"
               (Binary (Leaf "C_0") "^" (Leaf "X_2"))))
  = inr ["X_0"; "X_1"; "+"; "C_0"; "X_2"; "^"; "*"]
  /\ convert_to_postfix
       ["("; "X_0"; "+"; "X_1"; ")"; "*"; "("; "C_0"; "^"; "X_2"; ")"]
     = inr ["X_0"; "X_1"; "+"; "C_0"; "X_2"; "^"; "*"].
Proof.
  apply (parenthesized_gives_postorder
           (Binary (Binary (Leaf "X_0") "+" (Leaf "X_1")) "*"
                   (Binary (Leaf "C_0") "^" (Leaf "X_2")))).
  reflexivity.
Defined.

(** ** Reading a command array as a tree *)

Lemma nth_error_app_left {A : Type} (l more : list A) (n : nat) (x : A) :
  nth_error l n = Some x -> nth_error (l ++ more) n = Some x.
Proof.
  intros H. rewrite nth_error_app1; [exact H |].
  apply nth_error_Some. congruence.
Qed.

Lemma denotes_app (ca more : list row) (n : Z) (e : expr) :
  denotes ca n e -> denotes (ca ++ more) n e.
Proof.
  induction 1 as [n a kind digits c Hn Hm Hc Hr
                 | n l o r c x y Hn Ho Hc Hr _ IHl _ IHr].
  - eapply den_leaf; eauto using nth_error_app_left.
  - eapply den_binary; eauto using nth_error_app_left.
Qed.

Lemma nth_error_snoc {A : Type} (l : list A) (x : A) :
  nth_error (l ++ [x]) (List.length l) = Some x.
Proof.
  rewrite nth_error_app2 by lia. rewrite Nat.sub_diag. reflexivity.
Qed.

Lemma leaves_resolve_well_formed (e : expr) :
  leaves_resolve e = true -> well_formed e = true.
Proof.
  induction e as [a | l IHl o r IHr]; simpl.
  - destruct (fullmatch a) as [g |] eqn:E; [| discriminate].
    intros _. apply (fullmatch_is_leaf a g E).
  - intros H. apply andb_true_iff in H as [H Hr].
    apply andb_true_iff in H as [Hl Ho].
    rewrite IHl, Ho, IHr by assumption. reflexivity.
Qed.

Lemma within_limit_postorder (e : expr) :
  leaves_resolve e = true ->
  forallb within_digit_limit (postorder e) = leaves_within_limit e.
Proof.
  induction e as [a | l IHl o r IHr]; simpl; intros R.
  - apply andb_true_r.
  - apply andb_true_iff in R as [R Rr].
    apply andb_true_iff in R as [Rl Ro].
    rewrite !forallb_app, IHl, IHr by assumption. simpl.
    rewrite (operator_within_limit o Ro), !andb_true_r. reflexivity.
Qed.

(** Assembling the post-order traversal of [e] appends one row per node
    of [e], pushes the index of the last of them, and that row denotes
    [e]. *)
Lemma assemble_postorder (e : expr) :
  leaves_resolve e = true ->
  leaves_within_limit e = true ->
  forall st,
    i st = Z.of_nat (List.length (command_array st)) ->
    exists rows,
      assemble_loop (postorder e) st
      = inr {| stack := (i st + Z.of_nat (size e) - 1) :: stack st;
               command_array := command_array st ++ rows;
               i := i st + Z.of_nat (size e) |}
      /\ List.length rows = size e
      /\ denotes (command_array st ++ rows)
           (i st + Z.of_nat (size e) - 1) e.
Proof.
  induction e as [a | l IHl o r IHr]; intros R W st I.
  - simpl in R, W.
    destruct (fullmatch a) as [[kind digits] |] eqn:E; [| discriminate].
    destruct (fullmatch_kind a kind digits E) as (c & Ec & _).
    pose proof (fullmatch_is_leaf a _ E) as La.
    apply is_leaf_inv in La as (Ha & _).
    exists [Row c (int_value digits) (int_value digits)].
    cbn [postorder assemble_loop size].
    rewrite assemble_token_leaf by assumption.
    monad_step. unfold leaf_rows. rewrite E, Ec.
    replace (i st + Z.of_nat 1 - 1) with (i st) by lia.
    split; [reflexivity |]. split; [reflexivity |].
    eapply den_leaf; eauto; [lia |].
    rewrite I, Nat2Z.id. apply nth_error_snoc.
  - simpl in R, W. apply andb_true_iff in R as [R Rr].
    apply andb_true_iff in R as [Rl Ro].
    apply andb_true_iff in W as [Wl Wr].
    destruct (IHl Rl Wl st I) as (rows1 & L1 & N1 & D1).
    set (st1 := {| stack := (i st + Z.of_nat (size l) - 1) :: stack st;
                   command_array := command_array st ++ rows1;
                   i := i st + Z.of_nat (size l) |}) in *.
    assert (I1 : i st1 = Z.of_nat (List.length (command_array st1))).
    { unfold st1; cbn [i command_array]. rewrite length_app. lia. }
    destruct (IHr Rr Wr st1 I1) as (rows2 & L2 & N2 & D2).
    set (st2 := {| stack := (i st1 + Z.of_nat (size r) - 1) :: stack st1;
                   command_array := command_array st1 ++ rows2;
                   i := i st1 + Z.of_nat (size r) |}) in *.
    destruct (assemble_token_operator_pops o st2
                (i st1 + Z.of_nat (size r) - 1)
                (i st + Z.of_nat (size l) - 1) (stack st) Ro eq_refl)
      as (c & Ec & _ & T).
    exists (rows1 ++ rows2 ++ [Row c (i st + Z.of_nat (size l) - 1)
                                   (i st1 + Z.of_nat (size r) - 1)]).
    cbn [postorder size]. rewrite assemble_loop_app, L1. monad_step.
    rewrite assemble_loop_app, L2. monad_step.
    cbn [assemble_loop]. rewrite T. monad_step.
    assert (E2 : i st2 = i st + Z.of_nat (size l + size r + 1) - 1).
    { unfold st2, st1; cbn [i]. lia. }
    split; [| split].
    + unfold ret, st2, st1; cbn [i command_array stack].
      apply f_equal.
      f_equal; [f_equal; lia | rewrite <- !app_assoc; reflexivity | lia].
    + rewrite !length_app. simpl. lia.
    + rewrite <- E2.
      assert (A2 : command_array st ++ rows1 ++ rows2
                     ++ [Row c (i st + Z.of_nat (size l) - 1)
                             (i st1 + Z.of_nat (size r) - 1)]
                   = command_array st2
                       ++ [Row c (i st + Z.of_nat (size l) - 1)
                               (i st1 + Z.of_nat (size r) - 1)]).
      { unfold st2, st1; cbn [command_array]. rewrite <- !app_assoc.
        reflexivity. }
      rewrite A2.
      eapply den_binary with (c := c).
      * unfold st2, st1; cbn [i]. lia.
      * exact Ro.
      * exact Ec.
      * assert (I2 : i st2 = Z.of_nat (List.length (command_array st2))).
        { unfold st2; cbn [i command_array]. rewrite length_app. lia. }
        rewrite I2, Nat2Z.id. apply nth_error_snoc.
      * apply denotes_app. unfold st2; cbn [command_array].
        apply denotes_app. exact D1.
      * apply denotes_app. exact D2.
Qed.

Lemma postfix_to_agraph_postorder (e : expr) :
  leaves_resolve e = true ->
  leaves_within_limit e = true ->
  exists ca,
    postfix_to_agraph (postorder e) = inr ca
    /\ List.length ca = size e
    /\ denotes ca (Z.of_nat (List.length ca) - 1) e.
Proof.
  intros R W.
  destruct (assemble_postorder e R W asm_init eq_refl)
    as (rows & L & N & D).
  exists rows. unfold postfix_to_agraph. rewrite L. monad_step.
  cbn [stack command_array List.length Nat.ltb Nat.leb app] in *.
  rewrite N. auto.
Qed.

Lemma operator_map_injective (o1 o2 : token) (c : OperatorCode) :
  is_operator o1 = true ->
  is_operator o2 = true ->
  getitem operator_map o1 = inr c ->
  getitem operator_map o2 = inr c ->
  o1 = o2.
Proof.
  intros H1 H2. operator_cases H1; operator_cases H2;
    intros [= <-] E; try reflexivity; discriminate E.
Qed.

(** A row denotes one tree only, up to the spelling of the leaves: two
    expressions read from the same row have the same operators in the
    same places, and leaves with the same row. *)
Lemma denotes_unique (ca : list row) (n : Z) (e1 : expr) :
  denotes ca n e1 ->
  forall e2, denotes ca n e2 ->
  same_tree e1 e2.
Proof.
  induction 1 as [n a kind digits c Hn Hm Hc Hr
                 | n l o r c x y Hn Ho Hc Hr _ IHl _ IHr];
    intros e2 D2;
    inversion D2 as [n' a' kind' digits' c' Hn' Hm' Hc' Hr'
                    | n' l' o' r' c' x' y' Hn' Ho' Hc' Hr' Dl' Dr']; subst.
  - rewrite Hr in Hr'. injection Hr' as <- E.
    simpl. unfold leaf_rows. rewrite Hm, Hm', Hc, Hc', E. reflexivity.
  - rewrite Hr in Hr'. injection Hr' as <- _ _.
    destruct (fullmatch_kind a kind digits Hm) as (k & Ek & Hk).
    destruct (operator_map_of_operator o' Ho') as (k' & Ek' & Hk').
    congruence.
  - rewrite Hr in Hr'. injection Hr' as <- _ _.
    destruct (fullmatch_kind a' kind' digits' Hm') as (k & Ek & Hk).
    destruct (operator_map_of_operator o Ho) as (k' & Ek' & Hk').
    congruence.
  - rewrite Hr in Hr'. injection Hr' as <- <- <-.
    simpl. split; [eapply operator_map_injective; eauto |].
    split; [apply IHl | apply IHr]; assumption.
Qed.

(** X13. Compiling a fully parenthesized expression is correct. When the
    leaves are leaf references with no more digits than [int] converts,
    the pipeline returns a command array with one row per node of the
    expression tree, and, read from its last row along the operands of the
    binary rows, the array is that tree: the first operand of a binary row
    leads to the left operand of the operator, the second to the right
    one. *)
Theorem parenthesized_compiles_to_its_tree (e : expr) :
  leaves_resolve e = true ->
  leaves_within_limit e = true ->
  exists ca,
    compile (parenthesized e) = inr ca
    /\ compile (parenthesized_inside e) = inr ca
    /\ List.length ca = size e
    /\ denotes ca (Z.of_nat (List.length ca) - 1) e.
Proof.
  intros R Lim. pose proof (leaves_resolve_well_formed e R) as W.
  destruct (postfix_to_agraph_postorder e R Lim) as (ca & A & N & D).
  exists ca. unfold compile.
  assert (P1 : convert_to_postfix (parenthesized e) = inr (postorder e)).
  { unfold convert_to_postfix.
    rewrite (convert_loop_parenthesized e W). reflexivity. }
  rewrite P1. monad_step. repeat split; auto.
  destruct e as [a | l o r].
  { change (parenthesized_inside (Leaf a)) with (parenthesized (Leaf a)).
    rewrite P1. exact A. }
  simpl in W. apply andb_true_iff in W as [W Wr].
  apply andb_true_iff in W as [Wl Wo].
  unfold convert_to_postfix. cbn [parenthesized_inside].
  rewrite convert_loop_app, (convert_loop_parenthesized l Wl).
  monad_step. cbn [convert_loop].
  rewrite convert_token_first_operator by exact Wo. monad_step.
  rewrite (convert_loop_parenthesized r Wr). monad_step.
  cbn [rev app]. rewrite drain_one_operator by exact Wo. monad_step.
  cbn [postorder] in A. rewrite <- !app_assoc. exact A.
Qed.

Lemma parenthesized_compiles_witness :
  exists ca,
    compile ["("; "("; "X_0"; "+"; "X_1"; ")"; "*";
             "("; "C_0"; "^"; "X_2"; ")"; ")"] = inr ca
    /\ compile ["("; "X_0"; "+"; "X_1"; ")"; "*";
                "("; "C_0"; "^"; "X_2"; ")"] = inr ca
    /\ List.length ca = 7%nat
    /\ denotes ca (Z.of_nat (List.length ca) - 1)
         (Binary (Binary (Leaf "X_0") "+" (Leaf "X_1")) "*"
                 (Binary (Leaf "C_0") "^" (Leaf "X_2"))).
Proof.
  apply (parenthesized_compiles_to_its_tree
           (Binary (Binary (Leaf "X_0") "+" (Leaf "X_1")) "*"
                   (Binary (Leaf "C_0") "^" (Leaf "X_2"))));
    reflexivity.
Defined.

(** ** Chains of operators of one precedence *)

Lemma postorder_fold_left (pairs : list (token * token)) :
  forall e,
    postorder (fold_left (fun e p => Binary e (fst p) (Leaf (snd p)))
                 pairs e)
    = postorder e ++ flat_map (fun p => [snd p; fst p]) pairs.
Proof.
  induction pairs as [| [o a] more IH]; intros e; simpl.
  - rewrite app_nil_r. reflexivity.
  - rewrite IH. simpl. rewrite <- app_assoc. reflexivity.
Qed.

Lemma leaves_resolve_fold_left (prec : Z) (pairs : list (token * token)) :
  Forall (chain_link prec) pairs ->
  forall e,
    leaves_resolve e = true ->
    leaves_resolve (fold_left (fun e p => Binary e (fst p) (Leaf (snd p)))
                      pairs e) = true.
Proof.
  induction 1 as [| [o a] more (Ho & _ & Ha & _) _ IH]; intros e R; simpl;
    [exact R |].
  apply IH. simpl in *. rewrite R, Ho, Ha. reflexivity.
Qed.

Lemma leaves_within_limit_fold_left (prec : Z)
                                    (pairs : list (token * token)) :
  Forall (chain_link prec) pairs ->
  forall e,
    leaves_within_limit e = true ->
    leaves_within_limit
      (fold_left (fun e p => Binary e (fst p) (Leaf (snd p))) pairs e)
    = true.
Proof.
  induction 1 as [| [o a] more (_ & _ & _ & Wa) _ IH]; intros e W; simpl;
    [exact W |].
  apply IH. simpl in *. rewrite W, Wa. reflexivity.
Qed.

(** With the operator [o] waiting on the stack, the rest of a chain is
    converted link by link: each operator sends its predecessor to the
    output before its own right operand. *)
Lemma convert_chain_rest (prec : Z) (pairs : list (token * token)) :
  Forall (chain_link prec) pairs ->
  forall o output,
    is_operator o = true ->
    getitem precedence o = inr prec ->
    ('(s, out) <- convert_loop (flat_map (fun p => [fst p; snd p]) pairs)
                    [o] output ;;
     drain (rev s) out)
    = inr (output ++ o :: flat_map (fun p => [snd p; fst p]) pairs).
Proof.
  induction 1 as [| [o1 a1] more (Ho1 & Hp1 & Ha1 & _) _ IH];
    intros o output Ho Hp.
  - cbn [flat_map convert_loop]. monad_step. cbn [rev app].
    apply drain_one_operator, Ho.
  - cbn [flat_map fst snd app convert_loop] in *.
    rewrite convert_token_equal_precedence by (auto; congruence).
    monad_step.
    rewrite convert_token_leaf
      by (apply leaves_resolve_well_formed in Ha1; exact Ha1).
    monad_step. rewrite (IH o1 _ Ho1 Hp1).
    rewrite <- !app_assoc. reflexivity.
Qed.

Lemma convert_chain (prec : Z) (a0 : token) (pairs : list (token * token)) :
  leaves_resolve (Leaf a0) = true ->
  Forall (chain_link prec) pairs ->
  convert_to_postfix (chain a0 pairs)
  = inr (postorder (left_nested a0 pairs)).
Proof.
  intros R0 F. unfold left_nested. rewrite postorder_fold_left.
  unfold convert_to_postfix, chain. cbn [convert_loop postorder app].
  rewrite convert_token_leaf
    by (apply leaves_resolve_well_formed in R0; exact R0).
  monad_step.
  destruct F as [| [o1 a1] more (Ho1 & Hp1 & Ha1 & _) F].
  - reflexivity.
  - cbn [flat_map fst snd app convert_loop] in *.
    rewrite convert_token_first_operator by exact Ho1. monad_step.
    rewrite convert_token_leaf
      by (apply leaves_resolve_well_formed in Ha1; exact Ha1).
    monad_step.
    rewrite (convert_chain_rest prec more F o1 _ Ho1 Hp1).
    rewrite <- !app_assoc. reflexivity.
Qed.

(** X14. Operators of one precedence associate to the left, however long
    the chain. The tokens [a0 o1 a1 o2 a2 ... on an], all operators of the
    same precedence and all operands leaf references with no more digits
    than [int] converts, compile to a command array with one row per token
    that, read from its last row, is the tree
    [(...((a0 o1 a1) o2 a2) ...) on an]. *)
Theorem chain_compiles_left_nested (prec : Z) (a0 : token)
                                   (pairs : list (token * token)) :
  leaves_resolve (Leaf a0) = true ->
  within_digit_limit a0 = true ->
  Forall (chain_link prec) pairs ->
  exists ca,
    convert_to_postfix (chain a0 pairs)
    = inr (a0 :: flat_map (fun p => [snd p; fst p]) pairs)
    /\ compile (chain a0 pairs) = inr ca
    /\ List.length ca = List.length (chain a0 pairs)
    /\ denotes ca (Z.of_nat (List.length ca) - 1) (left_nested a0 pairs).
Proof.
  intros R0 W0 F.
  pose proof (convert_chain prec a0 pairs R0 F) as P.
  assert (R : leaves_resolve (left_nested a0 pairs) = true)
    by (apply (leaves_resolve_fold_left prec); assumption).
  assert (W : leaves_within_limit (left_nested a0 pairs) = true)
    by (apply (leaves_within_limit_fold_left prec); assumption).
  destruct (postfix_to_agraph_postorder _ R W) as (ca & A & N & D).
  exists ca. split; [| split; [| split]].
  - rewrite P. unfold left_nested. rewrite postorder_fold_left. reflexivity.
  - unfold compile. rewrite P. exact A.
  - rewrite N. clear. unfold left_nested, chain.
    assert (G : forall e,
               size (fold_left (fun e p => Binary e (fst p) (Leaf (snd p)))
                       pairs e)
               = (size e
                  + List.length (flat_map (fun p => [fst p; snd p]) pairs))%nat).
    { induction pairs as [| [o a] more IH]; intros e; simpl; [lia |].
      rewrite IH. simpl. lia. }
    rewrite G. reflexivity.
  - exact D.
Qed.

Lemma chain_compiles_left_nested_witness :
  exists ca,
    convert_to_postfix ["X_0"; "/"; "C_0"; "*"; "X_1"; "/"; "X_2"]
    = inr ["X_0"; "C_0"; "/"; "X_1"; "*"; "X_2"; "/"]
    /\ compile ["X_0"; "/"; "C_0"; "*"; "X_1"; "/"; "X_2"] = inr ca
    /\ List.length ca = 7%nat
    /\ denotes ca (Z.of_nat (List.length ca) - 1)
         (Binary (Binary (Binary (Leaf "X_0") "/" (Leaf "C_0"))
                         "*" (Leaf "X_1"))
                 "/" (Leaf "X_2")).
Proof.
  apply (chain_compiles_left_nested 1 "X_0"
           [("/", "C_0"); ("*", "X_1"); ("/", "X_2")]).
  - reflexivity.
  - reflexivity.
  - repeat constructor.
Defined.

(** A fully parenthesized expression whose compilation returns an array
    is read back from the last row of that array. *)
Lemma compile_parenthesized_returns (e : expr) (ca : list row) :
  leaves_resolve e = true ->
  compile (parenthesized e) = inr ca ->
  denotes ca (Z.of_nat (List.length ca) - 1) e.
Proof.
  intros R H. pose proof (leaves_resolve_well_formed e R) as W.
  unfold compile, convert_to_postfix in H.
  rewrite (convert_loop_parenthesized e W) in H.
  monad_step_in H. cbn [rev drain app] in H. monad_step_in H.
  destruct (postfix_to_agraph_returns _ _ H) as (st & L & _).
  pose proof (assemble_loop_within_limit _ _ _ L) as Lim.
  rewrite (within_limit_postorder e R) in Lim.
  destruct (postfix_to_agraph_postorder e R Lim) as (ca' & A & _ & D).
  congruence.
Qed.

(** X15. The compilation of fully parenthesized expressions loses
    nothing: two such expressions that compile to the same command array
    are the same tree, up to the spelling of their leaf references (as
    [X_1] and [X_01], which have the same row). *)
Theorem parenthesized_compile_injective (e1 e2 : expr) (ca : list row) :
  leaves_resolve e1 = true ->
  leaves_resolve e2 = true ->
  compile (parenthesized e1) = inr ca ->
  compile (parenthesized e2) = inr ca ->
  same_tree e1 e2.
Proof.
  intros R1 R2 H1 H2.
  apply (denotes_unique ca (Z.of_nat (List.length ca) - 1));
    apply compile_parenthesized_returns; assumption.
Qed.

Lemma parenthesized_compile_injective_witness :
  same_tree (Binary (Leaf "X_1") "-" (Leaf "C_0"))
            (Binary (Leaf "X_01") "-" (Leaf "C_000")).
Proof.
  apply (parenthesized_compile_injective
           (Binary (Leaf "X_1") "-" (Leaf "C_0"))
           (Binary (Leaf "X_01") "-" (Leaf "C_000"))
           [Row VARIABLE 1 1; Row CONSTANT 0 0; Row SUBTRACTION 0 1]);
    reflexivity.
Defined.

(** * Leaf references with decimal numerals *)

Lemma string_of_uint_digits (d : Decimal.uint) :
  all_digits (DecimalString.NilEmpty.string_of_uint d) = true.
Proof.
  induction d; simpl; auto.
Qed.

Lemma int_acc_of_uint_acc (d : Decimal.uint) :
  forall acc : positive,
    int_acc (Z.pos acc) (DecimalString.NilEmpty.string_of_uint d)
    = Z.pos (Pos.of_uint_acc d acc).
Proof.
  induction d; intros acc;
    cbn [DecimalString.NilEmpty.string_of_uint int_acc Pos.of_uint_acc];
    try reflexivity;
    rewrite <- IHd; f_equal;
    change (Z.of_nat (nat_of_ascii "0")) with 48;
    change (Z.of_nat (nat_of_ascii "1")) with 49;
    change (Z.of_nat (nat_of_ascii "2")) with 50;
    change (Z.of_nat (nat_of_ascii "3")) with 51;
    change (Z.of_nat (nat_of_ascii "4")) with 52;
    change (Z.of_nat (nat_of_ascii "5")) with 53;
    change (Z.of_nat (nat_of_ascii "6")) with 54;
    change (Z.of_nat (nat_of_ascii "7")) with 55;
    change (Z.of_nat (nat_of_ascii "8")) with 56;
    change (Z.of_nat (nat_of_ascii "9")) with 57;
    lia.
Qed.

Lemma int_acc_of_uint (d : Decimal.uint) :
  int_acc 0 (DecimalString.NilEmpty.string_of_uint d) = Z.of_N (Pos.of_uint d).
Proof.
  induction d;
    cbn [DecimalString.NilEmpty.string_of_uint int_acc Pos.of_uint Z.of_N];
    try reflexivity;
    try (rewrite <- int_acc_of_uint_acc; reflexivity).
  exact IHd.
Qed.

Lemma int_value_decimal (n : N) : int_value (decimal n) = Z.of_N n.
Proof.
  unfold int_value, decimal. rewrite int_acc_of_uint.
  change (Pos.of_uint (N.to_uint n)) with (N.of_uint (N.to_uint n)).
  rewrite DecimalN.Unsigned.of_to. reflexivity.
Qed.

Lemma decimal_not_empty (n : N) : String.eqb (decimal n) "" = false.
Proof.
  unfold decimal. destruct n as [| p]; [reflexivity |].
  pose proof (DecimalPos.Unsigned.to_uint_nonnil p) as H.
  simpl. destruct (Pos.to_uint p); try reflexivity. congruence.
Qed.

Lemma fullmatch_leaf_reference (kind : ascii) (n : N) :
  kind = "X"%char \/ kind = "C"%char ->
  fullmatch (leaf_reference kind n)
  = Some (String kind EmptyString, decimal n).
Proof.
  intros K. unfold leaf_reference, fullmatch.
  rewrite decimal_not_empty. unfold decimal at 1.
  rewrite string_of_uint_digits.
  destruct K as [-> | ->]; reflexivity.
Qed.

Lemma within_limit_leaf_reference (kind : ascii) (n : N) :
  kind = "X"%char \/ kind = "C"%char ->
  within_digit_limit (leaf_reference kind n)
  = (Z.of_nat (String.length (decimal n)) <=? int_max_str_digits).
Proof.
  intros K. unfold within_digit_limit.
  rewrite (fullmatch_leaf_reference kind n K). reflexivity.
Qed.

Lemma convert_leaf_reference (kind : ascii) (n : N) :
  kind = "X"%char \/ kind = "C"%char ->
  convert_to_postfix [leaf_reference kind n] = inr [leaf_reference kind n].
Proof.
  intros K. unfold convert_to_postfix. cbn [convert_loop].
  rewrite convert_token_leaf; [reflexivity |].
  apply (fullmatch_is_leaf _ _ (fullmatch_leaf_reference kind n K)).
Qed.

(** X16. Leaf references are read back exactly, up to the digit limit of
    [int]. For every natural number [n] whose decimal numeral has at most
    4300 digits, the token [X_<n>] is assembled into the row
    [[VARIABLE, n, n]] and the token [C_<n>] into the row
    [[CONSTANT, n, n]]; compiled alone, such a token gives the command
    array with that single row. For a longer numeral the assembler, and
    with it the pipeline, raises [ValueError]. *)
Theorem leaf_reference_round_trip (n : N) (st : asm_state) :
  if Z.of_nat (String.length (decimal n)) <=? int_max_str_digits
  then
    assemble_token (leaf_reference "X" n) st
    = inr {| stack := i st :: stack st;
             command_array :=
               command_array st ++ [Row VARIABLE (Z.of_N n) (Z.of_N n)];
             i := i st + 1 |}
    /\ assemble_token (leaf_reference "C" n) st
       = inr {| stack := i st :: stack st;
                command_array :=
                  command_array st ++ [Row CONSTANT (Z.of_N n) (Z.of_N n)];
                i := i st + 1 |}
    /\ compile [leaf_reference "X" n]
       = inr [Row VARIABLE (Z.of_N n) (Z.of_N n)]
    /\ compile [leaf_reference "C" n]
       = inr [Row CONSTANT (Z.of_N n) (Z.of_N n)]
  else
    (exists msg,
       assemble_token (leaf_reference "X" n) st = inl (ValueError msg))
    /\ (exists msg,
          assemble_token (leaf_reference "C" n) st = inl (ValueError msg))
    /\ (exists msg, compile [leaf_reference "X" n] = inl (ValueError msg))
    /\ (exists msg, compile [leaf_reference "C" n] = inl (ValueError msg)).
Proof.
  destruct (Z.of_nat (String.length (decimal n)) <=? int_max_str_digits)
    eqn:Lim.
  - assert (A : forall kind c s,
               kind = "X"%char \/ kind = "C"%char ->
               getitem operator_map (String kind EmptyString) = inr c ->
               assemble_token (leaf_reference kind n) s
               = inr {| stack := i s :: stack s;
                        command_array :=
                          command_array s ++ [Row c (Z.of_N n) (Z.of_N n)];
                        i := i s + 1 |}).
    { intros kind c s K Ec.
      rewrite assemble_token_leaf;
        [| apply long_token_not_operator
         | rewrite within_limit_leaf_reference by exact K; exact Lim].
      unfold leaf_rows. rewrite (fullmatch_leaf_reference kind n K), Ec.
      rewrite int_value_decimal. reflexivity. }
    split; [apply A; auto |]. split; [apply A; auto |].
    split; unfold compile; rewrite convert_leaf_reference by auto;
      monad_step; unfold postfix_to_agraph; cbn [assemble_loop];
      rewrite (A _ _ asm_init (or_introl eq_refl) eq_refl)
      || rewrite (A _ _ asm_init (or_intror eq_refl) eq_refl);
      reflexivity.
  - assert (A : forall kind s,
               kind = "X"%char \/ kind = "C"%char ->
               exists msg,
                 assemble_token (leaf_reference kind n) s
                 = inl (ValueError msg)).
    { intros kind s K. apply assemble_token_beyond_limit.
      rewrite within_limit_leaf_reference by exact K. exact Lim. }
    split; [apply A; auto |]. split; [apply A; auto |].
    split; unfold compile; rewrite convert_leaf_reference by auto;
      monad_step; unfold postfix_to_agraph; cbn [assemble_loop].
    + destruct (A "X"%char asm_init (or_introl eq_refl)) as (msg & ->).
      exists msg. reflexivity.
    + destruct (A "C"%char asm_init (or_intror eq_refl)) as (msg & ->).
      exists msg. reflexivity.
Qed.

Lemma leaf_reference_round_trip_witness :
  compile ["X_12"] = inr [Row VARIABLE 12 12]
  /\ compile ["C_12"] = inr [Row CONSTANT 12 12].
Proof.
  exact (proj2 (proj2 (leaf_reference_round_trip 12 asm_init))).
Defined.

(** * Properties of the logging set-up *)

(** X17. An unknown verbosity name is an error, not a fallback.
    [_get_log_level_from_verbosity] raises exactly on a string that is none
    of the four names, and then [KeyError] with that string; it warns (and
    falls back to [INFO]) exactly on a value that is neither a string nor
    an integer; an integer is returned as it is. *)
Theorem get_log_level_outcomes (v : Log.verbosity) :
  ((exists e, Log._get_log_level_from_verbosity v = inl e)
   <-> exists s, v = Log.VStr s
                 /\ ~ In s ["quiet"; "standard"; "detailed"; "debug"])
  /\ (forall s e,
        v = Log.VStr s ->
        Log._get_log_level_from_verbosity v = inl e -> e = KeyError s)
  /\ (forall level warned,
        Log._get_log_level_from_verbosity v = inr (level, warned) ->
        (warned <> [] <-> v = Log.VOther)
        /\ (v = Log.VOther -> level = Log.INFO)
        /\ (forall n, v = Log.VInt n -> level = n)
        /\ (forall s, v = Log.VStr s ->
                      Log.DEBUG <= level <= Log.WARNING)).
Proof.
  assert (K : forall s,
             (~ In s ["quiet"; "standard"; "detailed"; "debug"]
              /\ getitem Log.verbosity_map s = inl (KeyError s))
             \/ (In s ["quiet"; "standard"; "detailed"; "debug"]
                 /\ exists level,
                      getitem Log.verbosity_map s = inr level
                      /\ Log.DEBUG <= level <= Log.WARNING)).
  { intros s. unfold Log.verbosity_map. cbn [getitem].
    destruct (String.eqb s "quiet") eqn:E1;
      [apply String.eqb_eq in E1; subst; right; split;
       [simpl; auto | eexists; split; [reflexivity | cbv; split; congruence]]
      |].
    destruct (String.eqb s "standard") eqn:E2;
      [apply String.eqb_eq in E2; subst; right; split;
       [simpl; auto | eexists; split; [reflexivity | cbv; split; congruence]]
      |].
    destruct (String.eqb s "detailed") eqn:E3;
      [apply String.eqb_eq in E3; subst; right; split;
       [simpl; auto | eexists; split; [reflexivity | cbv; split; congruence]]
      |].
    destruct (String.eqb s "debug") eqn:E4;
      [apply String.eqb_eq in E4; subst; right; split;
       [simpl; auto 6 | eexists; split; [reflexivity | cbv; split; congruence]]
      |].
    left. apply String.eqb_neq in E1, E2, E3, E4.
    split; [| reflexivity]. simpl. intuition congruence. }
  split; [| split].
  - split.
    + intros [e H]. destruct v as [s | n |]; try discriminate H.
      exists s. split; [reflexivity |].
      destruct (K s) as [[N _] | [_ (level & E & _)]]; [exact N |].
      unfold Log._get_log_level_from_verbosity in H. rewrite E in H.
      discriminate H.
    + intros (s & -> & N).
      destruct (K s) as [[_ E] | [I _]]; [| contradiction].
      exists (KeyError s). unfold Log._get_log_level_from_verbosity.
      rewrite E. reflexivity.
  - intros s e -> H. unfold Log._get_log_level_from_verbosity in H.
    destruct (K s) as [[_ E] | [_ (level & E & _)]]; rewrite E in H.
    + injection H as <-. reflexivity.
    + discriminate H.
  - intros level warned H. destruct v as [s | n |].
    + unfold Log._get_log_level_from_verbosity in H.
      destruct (K s) as [[_ E] | [_ (l & E & B)]]; rewrite E in H;
        [discriminate H |].
      injection H as <- <-.
      split; [split; [congruence | discriminate] |].
      split; [discriminate |]. split; [discriminate |].
      intros _ _. exact B.
    + injection H as <- <-.
      split; [split; [congruence | discriminate] |].
      split; [discriminate |]. split; [congruence | discriminate].
    + injection H as <- <-.
      split; [split; [reflexivity | discriminate] |].
      split; [reflexivity |]. split; discriminate.
Qed.

(** X18. The two [StatsFilter]s split the log records between the console
    handler ([filter_out=True]) and the stats-file handler
    ([filter_out=False]). No record is rejected by both. A record without
    the attribute [stats], or with [stats] equal to [False], passes the
    console filter only; a record with [stats] equal to [True] passes the
    file filter only; a record whose [stats] equals neither passes
    both. *)
Theorem stats_filters_split (record : Log.log_record) :
  let console := Log.StatsFilter_filter true record in
  let file := Log.StatsFilter_filter false record in
  (console || file = true)
  /\ (Log.stats record = None -> console = true /\ file = false)
  /\ (forall v,
        Log.stats record = Some v ->
        (Log.bool_eq true v = true -> console = false /\ file = true)
        /\ (Log.bool_eq false v = true -> console = true /\ file = false)
        /\ (Log.bool_eq true v = false -> Log.bool_eq false v = false ->
            console = true /\ file = true)).
Proof.
  unfold Log.StatsFilter_filter.
  destruct (Log.stats record) as [v |]; cbn zeta.
  - assert (X : Log.bool_eq true v = true -> Log.bool_eq false v = false).
    { destruct v as [[|] | n | s |]; simpl; try discriminate; auto.
      intros H. apply Z.eqb_eq in H. subst n. reflexivity. }
    assert (Y : Log.bool_eq false v = true -> Log.bool_eq true v = false).
    { destruct (Log.bool_eq true v); [| reflexivity].
      intros H. rewrite X in H by reflexivity. discriminate H. }
    split; [| split; [discriminate |]].
    + destruct (Log.bool_eq true v) eqn:E; [| reflexivity].
      rewrite X by reflexivity. reflexivity.
    + intros v' [= <-]. split; [| split].
      * intros E. rewrite E, (X E). auto.
      * intros E. rewrite E, (Y E). auto.
      * intros E1 E2. rewrite E1, E2. auto.
  - split; [reflexivity |]. split; [auto | discriminate].
Qed.


(** X20. [configure_logging] is not idempotent, and the name of the stats
    file is not used. Each successful call appends a console handler to
    the handlers of the root logger and removes none, so a second call
    with the same arguments leaves two equal console handlers; and for any
    two file names the calls with [stats_file] set to one or the other
    have the same result, whose last handler writes to ['spam.log']. *)
Theorem configure_logging_appends (v : Log.verbosity)
        (module timestamp : bool) (root_handlers : list Log.handler) :
  (forall handlers1 warned1,
     Log.configure_logging v module timestamp None root_handlers
     = inr (handlers1, warned1) ->
     exists console,
       Log.h_kind console = Log.StreamHandler
       /\ handlers1 = root_handlers ++ [console]
       /\ Log.configure_logging v module timestamp None handlers1
          = inr (root_handlers ++ [console; console], warned1))
  /\ (forall name1 name2,
        Log.configure_logging v module timestamp (Some name1) root_handlers
        = Log.configure_logging v module timestamp (Some name2)
            root_handlers)
  /\ (forall name handlers1 warned1,
        Log.configure_logging v module timestamp (Some name) root_handlers
        = inr (handlers1, warned1) ->
        exists console file,
          handlers1 = root_handlers ++ [console; file]
          /\ Log.h_kind console = Log.StreamHandler
          /\ Log.h_kind file = Log.FileHandler "spam.log").
Proof.
  unfold Log.configure_logging.
  destruct (Log._get_log_level_from_verbosity v) as [e | [level warned]];
    monad_step.
  - repeat split; try discriminate; reflexivity.
  - split; [| split].
    + intros handlers1 warned1 [= <- <-].
      exists (Log._make_console_handler level module timestamp).
      rewrite <- app_assoc. repeat split.
    + reflexivity.
    + intros name handlers1 warned1 [= <- <-].
      exists (Log._make_console_handler level module timestamp),
             Log._make_stats_file_handler.
      rewrite <- app_assoc. repeat split.
Qed.

(** * Properties of the option handling of [ScipyOptimizer] *)

Module ScipyOptimizerFacts.

Import ScipyOptimizer.

Lemma lookup_setitem_same (d : dict) (k : string) (v : value) :
  lookup (setitem d k v) k = Some v.
Proof.
  induction d as [| [k' v'] d IH]; simpl.
  - rewrite String.eqb_refl. reflexivity.
  - destruct (String.eqb k k') eqn:E; simpl; rewrite E; auto.
Qed.

Lemma lookup_setitem_other (d : dict) (k k' : string) (v : value) :
  k' <> k -> lookup (setitem d k v) k' = lookup d k'.
Proof.
  intros N. induction d as [| [k0 v0] d IH]; simpl.
  - apply String.eqb_neq in N. rewrite N. reflexivity.
  - destruct (String.eqb k k0) eqn:E; simpl.
    + apply String.eqb_eq in E; subst k0.
      apply String.eqb_neq in N. rewrite N. reflexivity.
    + rewrite IH. reflexivity.
Qed.

Lemma contains_lookup (d : dict) (k : string) :
  contains d k = match lookup d k with Some _ => true | None => false end.
Proof.
  unfold contains. induction d as [| [k' v'] d IH]; simpl; [reflexivity |].
  destruct (String.eqb k k'); simpl; auto.
Qed.


Lemma lookup_without (d : dict) (p k : string) :
  lookup (filter (fun kv => negb (String.eqb (fst kv) p)) d) k
  = if String.eqb k p then None else lookup d k.
Proof.
  induction d as [| [k' v'] d IH]; simpl.
  - destruct (String.eqb k p); reflexivity.
  - destruct (String.eqb k' p) eqn:E1; simpl.
    + rewrite IH. apply String.eqb_eq in E1; subst k'.
      destruct (String.eqb k p); reflexivity.
    + rewrite IH. destruct (String.eqb k k') eqn:E2; [| reflexivity].
      apply String.eqb_eq in E2; subst k'. rewrite E1. reflexivity.
Qed.

Lemma lookup_default (d : dict) (k k' : string) (v : value) :
  lookup (if contains d k then d else setitem d k v) k'
  = match lookup d k' with
    | Some x => Some x
    | None => if String.eqb k' k then Some v else None
    end.
Proof.
  rewrite contains_lookup.
  destruct (String.eqb k' k) eqn:E.
  - apply String.eqb_eq in E; subst k'.
    destruct (lookup d k) eqn:L; [exact L | apply lookup_setitem_same].
  - apply String.eqb_neq in E.
    destruct (lookup d k) eqn:L.
    + destruct (lookup d k'); reflexivity.
    + rewrite lookup_setitem_other by exact E.
      destruct (lookup d k'); reflexivity.
Qed.

Lemma verify_method_ok (method : value) :
  _verify_method method = inr tt
  <-> exists m, method = VStr m /\ In m (ROOT_SET ++ MINIMIZE_SET).
Proof.
  unfold _verify_method, member.
  destruct method as [m | l | f | t].
  - destruct (existsb (String.eqb m) ROOT_SET) eqn:R.
    + split; [| reflexivity]. intros _. exists m. split; [reflexivity |].
      apply existsb_exists in R as (x & I & E).
      apply String.eqb_eq in E; subst x. apply in_or_app. auto.
    + destruct (existsb (String.eqb m) MINIMIZE_SET) eqn:M.
      * split; [| reflexivity]. intros _. exists m. split; [reflexivity |].
        apply existsb_exists in M as (x & I & E).
        apply String.eqb_eq in E; subst x. apply in_or_app. auto.
      * split; [discriminate |]. intros (m' & [= <-] & I).
        apply in_app_or in I as [I | I].
        -- assert (existsb (String.eqb m) ROOT_SET = true)
             by (apply existsb_exists; exists m; split;
                 [exact I | apply String.eqb_refl]).
           congruence.
        -- assert (existsb (String.eqb m) MINIMIZE_SET = true)
             by (apply existsb_exists; exists m; split;
                 [exact I | apply String.eqb_refl]).
           congruence.
  - split; [discriminate | intros (m & [=] & _)].
  - split; [discriminate | intros (m & [=] & _)].
  - split; [discriminate | intros (m & [=] & _)].
Qed.

Lemma set_options_unfold (self : optimizer) (kwargs : dict) :
  set_options self kwargs
  = match lookup (with_first_defaults kwargs) "method" with
    | None => (with_options self (with_first_defaults kwargs),
               Some (MissingKey "method"))
    | Some method =>
        match _verify_method method with
        | inl e => (with_options self (with_first_defaults kwargs), Some e)
        | inr _ =>
            (with_scipy_options
               (with_options self (with_defaults kwargs))
               (filter (fun kv =>
                          negb (String.eqb (fst kv) "param_init_bounds"))
                       (with_defaults kwargs)),
             None)
        end
    end.
Proof.
  reflexivity.
Qed.

Lemma method_after_defaults (kwargs : dict) :
  lookup (with_first_defaults kwargs) "method"
  = Some match lookup kwargs "method" with
         | Some m => m
         | None => VStr "BFGS"
         end.
Proof.
  unfold with_first_defaults. rewrite !lookup_default. simpl.
  destruct (lookup kwargs "method"); reflexivity.
Qed.

(** X21. What the setter of [options] leaves behind when it returns:
    [options] holds [param_init_bounds], [method] and [tol]; the method is
    a string of [ROOT_SET] or [MINIMIZE_SET]; every option the caller gave
    is kept with its value and nothing but the three defaults is added;
    and [_scipy_options] is [options] without [param_init_bounds]. *)
Theorem set_options_postcondition (self self1 : optimizer) (kwargs : dict) :
  set_options self kwargs = (self1, None) ->
  exists d sd,
    _options self1 = Some d
    /\ _scipy_options self1 = Some sd
    /\ (exists m, lookup d "method" = Some (VStr m)
                  /\ In m (ROOT_SET ++ MINIMIZE_SET))
    /\ lookup d "param_init_bounds" <> None
    /\ lookup d "tol" <> None
    /\ (forall k v, lookup kwargs k = Some v -> lookup d k = Some v)
    /\ (forall k, lookup kwargs k = None ->
                  k <> "param_init_bounds" -> k <> "method" -> k <> "tol" ->
                  lookup d k = None)
    /\ (forall k, lookup sd k
                  = if String.eqb k "param_init_bounds" then None
                    else lookup d k).
Proof.
  rewrite set_options_unfold, method_after_defaults.
  destruct (_verify_method _) as [e | []] eqn:V; [discriminate |].
  intros [= <-].
  exists (with_defaults kwargs),
         (filter (fun kv => negb (String.eqb (fst kv) "param_init_bounds"))
                 (with_defaults kwargs)).
  assert (L : forall k,
             lookup (with_defaults kwargs) k
             = match lookup kwargs k with
               | Some x => Some x
               | None =>
                   if String.eqb k "param_init_bounds"
                   then Some (VList [-10000; 10000])
                   else if String.eqb k "method" then Some (VStr "BFGS")
                   else if String.eqb k "tol" then Some (VFloat "1e-6")
                   else None
               end).
  { intros k. unfold with_defaults, with_first_defaults.
    rewrite !lookup_default.
    destruct (lookup kwargs k); [reflexivity |].
    destruct (String.eqb k "param_init_bounds"); [reflexivity |].
    destruct (String.eqb k "method"); reflexivity. }
  split; [reflexivity |]. split; [reflexivity |].
  split; [| split; [| split; [| split; [| split]]]].
  - apply verify_method_ok in V as (m & E & I).
    exists m. split; [| exact I]. rewrite L.
    destruct (lookup kwargs "method"); simpl in *; congruence.
  - rewrite L. destruct (lookup kwargs "param_init_bounds"); simpl;
      discriminate.
  - rewrite L. destruct (lookup kwargs "tol"); simpl; discriminate.
  - intros k v H. rewrite L, H. reflexivity.
  - intros k H N1 N2 N3. rewrite L, H.
    apply String.eqb_neq in N1, N2, N3. rewrite N1, N2, N3. reflexivity.
  - intros k. apply lookup_without.
Qed.

Lemma set_options_postcondition_witness :
  exists d sd,
    _options (fst (set_options unset [("method", VStr "lm")])) = Some d
    /\ _scipy_options (fst (set_options unset [("method", VStr "lm")]))
       = Some sd
    /\ (exists m, lookup d "method" = Some (VStr m)
                  /\ In m (ROOT_SET ++ MINIMIZE_SET))
    /\ lookup d "param_init_bounds" <> None
    /\ lookup d "tol" <> None
    /\ (forall k v, lookup [("method", VStr "lm")] k = Some v ->
                    lookup d k = Some v)
    /\ (forall k, lookup [("method", VStr "lm")] k = None ->
                  k <> "param_init_bounds" -> k <> "method" -> k <> "tol" ->
                  lookup d k = None)
    /\ (forall k, lookup sd k
                  = if String.eqb k "param_init_bounds" then None
                    else lookup d k).
Proof.
  apply (set_options_postcondition unset _ [("method", VStr "lm")]).
  reflexivity.
Defined.

(** X22. When the setter of [options] raises. It raises exactly when the
    caller gave a [method] that is not a string of [ROOT_SET] or
    [MINIMIZE_SET]; without a [method] it cannot raise. When it raises, the
    new dict, with the defaults of [param_init_bounds] and [method] but
    not of [tol], is already the [options] of the object, while
    [_scipy_options] is still the old one. *)
Theorem set_options_raises (self : optimizer) (kwargs : dict) :
  ((exists e, snd (set_options self kwargs) = Some e)
   <-> exists method,
         lookup kwargs "method" = Some method
         /\ ~ (exists m, method = VStr m /\ In m (ROOT_SET ++ MINIMIZE_SET)))
  /\ (forall e,
        snd (set_options self kwargs) = Some e ->
        _options (fst (set_options self kwargs))
        = Some (with_first_defaults kwargs)
        /\ _scipy_options (fst (set_options self kwargs))
           = _scipy_options self
        /\ lookup (with_first_defaults kwargs) "tol" = lookup kwargs "tol").
Proof.
  rewrite set_options_unfold, method_after_defaults.
  destruct (lookup kwargs "method") as [method |] eqn:M.
  - destruct (_verify_method method) as [e | []] eqn:V; simpl.
    + split.
      * split; [| eauto]. intros _. exists method. split; [reflexivity |].
        intros H. apply verify_method_ok in H. congruence.
      * intros e' _. repeat split.
        unfold with_first_defaults. rewrite !lookup_default.
        destruct (lookup kwargs "tol"); reflexivity.
    + split; [| discriminate].
      split; [intros [e H]; discriminate H |].
      intros (method' & [= <-] & N). exfalso. apply N.
      apply verify_method_ok, V.
  - change (_verify_method (VStr "BFGS")) with (@inr error unit tt). simpl.
    split; [| discriminate].
    split; [intros [e H]; discriminate H | intros (m & [=] & _)].
Qed.

(** X23. The setter of [options] is idempotent: handing the [options] of
    an optimizer back to the setter changes nothing. *)
Theorem set_options_idempotent (self self1 : optimizer) (kwargs d : dict) :
  set_options self kwargs = (self1, None) ->
  _options self1 = Some d ->
  set_options self1 d = (self1, None).
Proof.
  rewrite set_options_unfold, method_after_defaults.
  destruct (_verify_method _) as [e | []] eqn:V; [discriminate |].
  intros [= <-] [= <-].
  assert (C : forall k,
             lookup (with_defaults kwargs) k <> None ->
             contains (with_defaults kwargs) k = true).
  { intros k H. rewrite contains_lookup.
    destruct (lookup (with_defaults kwargs) k); congruence. }
  assert (L : forall k,
             lookup (with_defaults kwargs) k
             = match lookup (with_first_defaults kwargs) k with
               | Some x => Some x
               | None => if String.eqb k "tol" then Some (VFloat "1e-6")
                         else None
               end).
  { intros k. unfold with_defaults. cbv zeta. apply lookup_default. }
  assert (F : with_first_defaults (with_defaults kwargs)
              = with_defaults kwargs).
  { unfold with_first_defaults at 1.
    rewrite (C "param_init_bounds").
    - rewrite (C "method"); [reflexivity |].
      rewrite L, method_after_defaults. discriminate.
    - rewrite L. unfold with_first_defaults. rewrite !lookup_default.
      destruct (lookup kwargs "param_init_bounds"); discriminate. }
  assert (G : with_defaults (with_defaults kwargs) = with_defaults kwargs).
  { unfold with_defaults at 1. cbv zeta. rewrite F.
    rewrite (C "tol"); [reflexivity |].
    rewrite L. destruct (lookup (with_first_defaults kwargs) "tol");
      discriminate. }
  rewrite set_options_unfold, F, G.
  rewrite L, method_after_defaults, V. reflexivity.
Qed.

Lemma set_options_idempotent_witness :
  set_options (fst (set_options unset [("tol", VFloat "1e-8")]))
    [("tol", VFloat "1e-8");
     ("param_init_bounds", VList [-10000; 10000]);
     ("method", VStr "BFGS")]
  = (fst (set_options unset [("tol", VFloat "1e-8")]), None).
Proof.
  apply (set_options_idempotent unset _ [("tol", VFloat "1e-8")]);
    reflexivity.
Defined.


Lemma init_returns (obj : objective) (options : dict) (self : optimizer) :
  __init__ obj options = (self, None) ->
  exists m,
    In m (ROOT_SET ++ MINIMIZE_SET)
    /\ lookup (with_defaults options) "method" = Some (VStr m)
    /\ (m = "lm" -> has_evaluate_fitness_vector obj = true)
    /\ self = {| _options := Some (with_defaults options);
                 _scipy_options :=
                   Some (filter
                           (fun kv =>
                              negb (String.eqb (fst kv) "param_init_bounds"))
                           (with_defaults options));
                 _objective_fn := Some obj;
                 _jacobian_capable := Some (is_vector_gradient_mixin obj);
                 _gradient_capable := Some (is_gradient_mixin obj) |}.
Proof.
  unfold __init__.
  destruct (set_options unset options) as [self1 [e |]] eqn:S;
    [discriminate |].
  rewrite set_options_unfold, method_after_defaults in S.
  destruct (_verify_method _) as [e | []] eqn:V; [discriminate |].
  apply verify_method_ok in V as (m & Em & Im).
  assert (Lm : lookup (with_defaults options) "method" = Some (VStr m)).
  { unfold with_defaults. cbv zeta. rewrite lookup_default.
    rewrite method_after_defaults, Em. reflexivity. }
  injection S as <-.
  unfold set_objective_fn.
  cbn [_options _scipy_options with_scipy_options with_options unset].
  rewrite Lm. unfold _verify_objective_fn, member.
  destruct (existsb (String.eqb m) ROOT_SET) eqn:R.
  - destruct (has_evaluate_fitness_vector obj) eqn:H; [| discriminate].
    intros [= <-]. exists m. repeat split; auto.
  - intros [= <-]. exists m. repeat split; auto.
    intros ->. discriminate R.
Qed.

(** X24. After a successful construction the choice of the backend cannot
    fail, and it follows the method alone: [scipy.optimize.root] for
    ["lm"], whose objective then has [evaluate_fitness_vector], and
    [scipy.optimize.minimize] for every other method; a jacobian is passed
    only for ["lm"] with a [VectorGradientMixin] objective, a gradient only
    for one of [CG], [BFGS], [L-BFGS-B], [TNC], [SLSQP] with a
    [GradientMixin] objective, and never for [Nelder-Mead] or [Powell]. *)
Theorem backend_after_init (obj : objective) (options : dict)
                           (self : optimizer) :
  __init__ obj options = (self, None) ->
  exists m b j,
    (exists d, _options self = Some d /\ lookup d "method" = Some (VStr m))
    /\ _get_backend_and_jacobian self = inr (b, j)
    /\ (b = root <-> m = "lm")
    /\ (m = "lm" -> has_evaluate_fitness_vector obj = true)
    /\ (j = VectorJacobian
        <-> m = "lm" /\ is_vector_gradient_mixin obj = true)
    /\ (j = Gradient
        <-> In m ["CG"; "BFGS"; "L-BFGS-B"; "TNC"; "SLSQP"]
            /\ is_gradient_mixin obj = true).
Proof.
  intros H. destruct (init_returns obj options self H) as (m & I & L & V & ->).
  unfold _get_backend_and_jacobian.
  cbn [_options _jacobian_capable _gradient_capable]. rewrite L.
  simpl in I.
  destruct I as [<- | [<- | [<- | [<- | [<- | [<- | [<- | [<- | []]]]]]]]];
    cbn [member existsb String.eqb Ascii.eqb Bool.eqb orb andb
         JACOBIAN_SET ROOT_SET use_jacobian];
    destruct (is_vector_gradient_mixin obj) eqn:Ev;
    destruct (is_gradient_mixin obj) eqn:Eg;
    eexists _, _, _;
    (split; [eexists; split; [reflexivity | exact L] |]);
    (split; [reflexivity |]);
    repeat split; intros; simpl in *;
      try reflexivity; try discriminate; try assumption; auto 10;
      try solve [intuition (try discriminate; try congruence)].
Qed.


Lemma backend_after_init_witness :
  exists m b j,
    (exists d,
       _options (fst (__init__ (Objective true true true)
                        [("method", VStr "lm")])) = Some d
       /\ lookup d "method" = Some (VStr m))
    /\ _get_backend_and_jacobian
         (fst (__init__ (Objective true true true) [("method", VStr "lm")]))
       = inr (b, j)
    /\ (b = root <-> m = "lm")
    /\ (m = "lm"
        -> has_evaluate_fitness_vector (Objective true true true) = true)
    /\ (j = VectorJacobian
        <-> m = "lm"
            /\ is_vector_gradient_mixin (Objective true true true) = true)
    /\ (j = Gradient
        <-> In m ["CG"; "BFGS"; "L-BFGS-B"; "TNC"; "SLSQP"]
            /\ is_gradient_mixin (Objective true true true) = true).
Proof.
  apply (backend_after_init (Objective true true true)
           [("method", VStr "lm")]).
  reflexivity.
Defined.

(** X25. The setter of [options] does not repeat the check of the
    constructor. The constructor refuses the method ["lm"] for an
    objective without [evaluate_fitness_vector]; but on an optimizer
    constructed with such an objective, assigning options with the method
    ["lm"] returns, keeps the objective, and leaves an optimizer whose
    backend is [scipy.optimize.root]. *)
Theorem options_setter_skips_objective_check
        (obj : objective) (options kwargs : dict) (self : optimizer) :
  __init__ obj options = (self, None) ->
  has_evaluate_fitness_vector obj = false ->
  lookup kwargs "method" = Some (VStr "lm") ->
  snd (__init__ obj kwargs) = Some (NeedsVector (VStr "lm"))
  /\ exists self1 j,
       set_options self kwargs = (self1, None)
       /\ _objective_fn self1 = Some obj
       /\ _get_backend_and_jacobian self1 = inr (root, j).
Proof.
  intros H Hv M.
  destruct (init_returns obj options self H) as (m & _ & _ & _ & ->).
  assert (Lm : lookup (with_defaults kwargs) "method" = Some (VStr "lm")).
  { unfold with_defaults, with_first_defaults. rewrite !lookup_default.
    rewrite M. reflexivity. }
  split.
  - unfold __init__. rewrite set_options_unfold, method_after_defaults, M.
    change (_verify_method (VStr "lm")) with (@inr error unit tt).
    cbv iota. unfold set_objective_fn.
    cbn [_options with_scipy_options with_options]. rewrite Lm.
    unfold _verify_objective_fn. cbn [member ROOT_SET existsb].
    change (String.eqb "lm" "lm") with true. cbn [orb].
    rewrite Hv. reflexivity.
  - rewrite set_options_unfold, method_after_defaults, M.
    change (_verify_method (VStr "lm")) with (@inr error unit tt).
    cbv iota.
    destruct (is_vector_gradient_mixin obj) eqn:Ev.
    + eexists _, VectorJacobian. split; [reflexivity |].
      split; [reflexivity |]. unfold _get_backend_and_jacobian.
      cbn [_options with_scipy_options with_options].
      rewrite Lm. reflexivity.
    + eexists _, NoJacobian. split; [reflexivity |].
      split; [reflexivity |]. unfold _get_backend_and_jacobian.
      cbn [_options with_scipy_options with_options].
      rewrite Lm. reflexivity.
Qed.

Lemma options_setter_skips_witness :
  snd (__init__ (Objective false false true) [("method", VStr "lm")])
  = Some (NeedsVector (VStr "lm"))
  /\ exists self1 j,
       set_options (fst (__init__ (Objective false false true) []))
         [("method", VStr "lm")] = (self1, None)
       /\ _objective_fn self1 = Some (Objective false false true)
       /\ _get_backend_and_jacobian self1 = inr (root, j).
Proof.
  apply (options_setter_skips_objective_check
           (Objective false false true) [] [("method", VStr "lm")]);
    reflexivity.
Defined.

Section RetryFacts.

Variable X : Type.
Variable scipy_call : optimizer -> backend -> jacobian -> error + X.


End RetryFacts.



End ScipyOptimizerFacts.

(** * Properties of the diagnostics *)

Module EaDiagnosticsFacts.

Import EaDiagnostics.

Lemma stats_eq (a b : stats) :
  total a = total b -> beneficial a = beneficial b ->
  detrimental a = detrimental b -> a = b.
Proof.
  destruct a, b; simpl; intros; subst; reflexivity.
Qed.

Ltac stats_arith :=
  apply stats_eq;
  cbn [total beneficial detrimental stats_add stats_scale zeros
       List.length count_occ];
  rewrite ?Nat2Z.inj_succ; lia.

(** ** [d[k] += v] on string keys *)

Lemma get_iadd (d d1 : list (string * stats)) (k : string) (v : stats) :
  iadd string String.eqb show_type d k v = inr d1 ->
  forall k',
    get string String.eqb d1 k'
    = if String.eqb k' k then stats_add (get string String.eqb d k') v
      else get string String.eqb d k'.
Proof.
  revert d1. induction d as [| [k0 v0] d IH]; intros d1; cbn [iadd].
  - discriminate.
  - destruct (String.eqb k k0) eqn:E.
    + apply String.eqb_eq in E; subst k0. intros [= <-] k'.
      unfold get; cbn [lookup].
      destruct (String.eqb k' k); reflexivity.
    + destruct (iadd string String.eqb show_type d k v) as [e | d2] eqn:I;
        monad_step; [discriminate |].
      intros [= <-] k'. specialize (IH d2 eq_refl k').
      unfold get in *; cbn [lookup].
      destruct (String.eqb k' k0) eqn:E0; [| exact IH].
      apply String.eqb_eq in E0; subst k0.
      rewrite String.eqb_sym in E. rewrite E. reflexivity.
Qed.

Lemma count_occ_cons_eqb (l : list string) (k m : string) :
  Z.of_nat (count_occ string_dec (k :: l) m)
  = (if String.eqb m k then 1 else 0) + Z.of_nat (count_occ string_dec l m).
Proof.
  simpl. destruct (string_dec k m) as [-> | N].
  - rewrite String.eqb_refl. lia.
  - assert (E : String.eqb m k = false)
      by (apply String.eqb_neq; congruence).
    rewrite E. lia.
Qed.

Section UpdateFacts.

Variable fitness : Type.
Variables lt gt : fitness -> fitness -> bool.
Variable astype_bool : option string -> bool.

Section LoopFacts.

Variables offspring_crossover_type offspring_mutation_type
  : list (option string).
Variables just_cross just_mut cross_mut beneficial_var detrimental_var
  : list bool.

Let per_mutation (m : string) : stats :=
  let mut_idx := eq_type offspring_mutation_type m in
  _get_stats (mask just_mut mut_idx) (mask beneficial_var mut_idx)
    (mask detrimental_var mut_idx).

Let per_crossover (c : string) : stats :=
  let cross_idx := eq_type offspring_crossover_type c in
  _get_stats (mask just_cross cross_idx) (mask beneficial_var cross_idx)
    (mask detrimental_var cross_idx).

(** One run of the inner loop adds, for every mutation type, its
    statistics once per occurrence of the type in [mutation_types]. *)
Lemma mutation_loop_adds (c : string) (cross_idx : list bool)
      (mutation_types : list string) :
  forall mt cmt mt1 cmt1,
    mutation_loop offspring_mutation_type just_mut cross_mut
      beneficial_var detrimental_var c cross_idx mutation_types mt cmt
    = inr (mt1, cmt1) ->
    forall m,
      get string String.eqb mt1 m
      = stats_add (get string String.eqb mt m)
          (stats_scale (Z.of_nat (count_occ string_dec mutation_types m))
             (per_mutation m)).
Proof.
  induction mutation_types as [| m0 more IH]; intros mt cmt mt1 cmt1;
    cbn [mutation_loop].
  - intros [= <- <-] m. stats_arith.
  - destruct (iadd string String.eqb show_type mt m0 _) as [e | mt2] eqn:I;
      monad_step; [discriminate |].
    destruct (iadd (string * string) pair_eqb show_pair cmt _ _)
      as [e | cmt2]; monad_step; [discriminate |].
    intros L m. rewrite (IH _ _ _ _ L m), (get_iadd _ _ _ _ I m).
    rewrite count_occ_cons_eqb.
    destruct (String.eqb m m0) eqn:E.
    + apply String.eqb_eq in E; subst m0. fold (per_mutation m).
      stats_arith.
    + stats_arith.
Qed.

(** The outer loop runs the inner loop once per crossover type. *)
Lemma crossover_loop_adds (crossover_types mutation_types : list string) :
  forall ct mt cmt ct1 mt1 cmt1,
    crossover_loop offspring_crossover_type offspring_mutation_type
      just_cross just_mut cross_mut beneficial_var detrimental_var
      crossover_types mutation_types ct mt cmt
    = inr (ct1, mt1, cmt1) ->
    (forall m,
       get string String.eqb mt1 m
       = stats_add (get string String.eqb mt m)
           (stats_scale
              (Z.of_nat (List.length crossover_types)
               * Z.of_nat (count_occ string_dec mutation_types m))
              (per_mutation m)))
    /\ (forall c,
          get string String.eqb ct1 c
          = stats_add (get string String.eqb ct c)
              (stats_scale
                 (Z.of_nat (count_occ string_dec crossover_types c))
                 (per_crossover c))).
Proof.
  induction crossover_types as [| c0 more IH];
    intros ct mt cmt ct1 mt1 cmt1; cbn [crossover_loop].
  - intros [= <- <- <-]. split; intros; stats_arith.
  - destruct (iadd string String.eqb show_type ct c0 _) as [e | ct2] eqn:I;
      monad_step; [discriminate |].
    destruct (mutation_loop _ _ _ _ _ _ _ _ _ _) as [e | [mt2 cmt2]] eqn:M;
      monad_step; [discriminate |].
    intros L. destruct (IH _ _ _ _ _ _ L) as (Hm & Hc).
    split.
    + intros m. rewrite (Hm m), (mutation_loop_adds _ _ _ _ _ _ _ M m).
      cbn [List.length]. stats_arith.
    + intros c. rewrite (Hc c), (get_iadd _ _ _ _ I c).
      rewrite count_occ_cons_eqb.
      destruct (String.eqb c c0) eqn:E.
      * apply String.eqb_eq in E; subst c0. fold (per_crossover c).
        stats_arith.
      * stats_arith.
Qed.

End LoopFacts.

(** X27. The statistics per mutation type are counted once per crossover
    type. The loop over the mutation types is nested in the loop over the
    crossover types, so an [update] that returns adds to the statistics of
    every mutation type [m] those of the offspring that underwent only a
    mutation of type [m], multiplied by the number of crossover types (and
    by the number of times [m] is listed); with no crossover type the
    statistics per mutation type do not change at all. The statistics of
    a crossover type are added once per listing of the type. *)
Theorem mutation_type_stats_once_per_crossover_type
        (self self1 : diagnostics) (population : list fitness)
        (rows : list (offspring_row fitness)) :
  update fitness lt gt astype_bool self population rows = inr self1 ->
  exists bds,
    variations fitness lt gt population rows = inr bds
    /\ (forall m,
          get string String.eqb (_mutation_type_stats self1) m
          = stats_add (get string String.eqb (_mutation_type_stats self) m)
              (stats_scale
                 (Z.of_nat (List.length (_crossover_types self))
                  * Z.of_nat (count_occ string_dec (_mutation_types self) m))
                 (mutation_only_stats fitness astype_bool rows bds m)))
    /\ (forall c,
          get string String.eqb (_crossover_type_stats self1) c
          = stats_add (get string String.eqb (_crossover_type_stats self) c)
              (stats_scale
                 (Z.of_nat (count_occ string_dec (_crossover_types self) c))
                 (crossover_only_stats fitness astype_bool rows bds c)))
    /\ (_crossover_types self = [] ->
        _mutation_type_stats self1 = _mutation_type_stats self).
Proof.
  unfold update.
  destruct (variations fitness lt gt population rows) as [e | bds] eqn:V;
    monad_step; [discriminate |].
  destruct (crossover_loop _ _ _ _ _ _ _ _ _ _ _ _)
    as [e | [[ct mt] cmt]] eqn:L; monad_step; [discriminate |].
  intros [= <-]. exists bds. split; [reflexivity |].
  cbn [_mutation_type_stats _crossover_type_stats].
  destruct (crossover_loop_adds _ _ _ _ _ _ _ _ _ _ _ _ _ _ _ L) as (Hm & Hc).
  split; [exact Hm |]. split; [exact Hc |].
  intros E. rewrite E in L. cbn [crossover_loop] in L.
  injection L as _ <- _. reflexivity.
Qed.

End UpdateFacts.

Lemma mutation_type_stats_witness :
  exists self1,
    update Z Z.ltb Z.gtb
      (fun t => match t with
                | Some s => negb (String.eqb s "")
                | None => false
                end)
      (__init__ (Some ["one_point"; "two_point"]) (Some ["shift"]))
      [5; 3]
      [Row_ Z 1 [0] None (Some "shift")]
    = inr self1
    /\ get string String.eqb (_mutation_type_stats self1) "shift"
       = Stats 2 2 0
    /\ _mutation_stats self1 = Stats 1 1 0.
Proof.
  eexists. split; [reflexivity |].
  destruct (mutation_type_stats_once_per_crossover_type Z Z.ltb Z.gtb
              (fun t => match t with
                        | Some s => negb (String.eqb s "")
                        | None => false
                        end)
              (__init__ (Some ["one_point"; "two_point"]) (Some ["shift"]))
              _ [5; 3] [Row_ Z 1 [0] None (Some "shift")] eq_refl)
    as (bds & V & Hm & _).
  injection V as <-. split; [| reflexivity].
  rewrite (Hm "shift"). reflexivity.
Defined.

(** ** The counts stay consistent *)

Lemma stats_ok_add (a b : stats) :
  stats_ok a -> stats_ok b -> stats_ok (stats_add a b).
Proof.
  unfold stats_ok, stats_add. simpl. lia.
Qed.

Lemma stats_ok_zeros : stats_ok zeros.
Proof.
  unfold stats_ok, zeros. simpl. lia.
Qed.

Section DictFacts.

Variable K : Type.
Variable eqb : K -> K -> bool.
Variable show : K -> string.

Lemma iadd_ok (d : list (K * stats)) (k : K) (v : stats) :
  forall d1,
    Forall (fun kv => stats_ok (snd kv)) d ->
    stats_ok v ->
    iadd K eqb show d k v = inr d1 ->
    Forall (fun kv => stats_ok (snd kv)) d1.
Proof.
  induction d as [| [k0 v0] d IH]; intros d1 F Hv; cbn [iadd].
  - discriminate.
  - inversion F as [| ? ? H0 F']; subst. simpl in H0.
    destruct (eqb k k0).
    + intros [= <-]. constructor; [apply stats_ok_add; assumption | exact F'].
    + destruct (iadd K eqb show d k v) as [e | d2]; monad_step;
        [discriminate |].
      intros [= <-]. constructor; [exact H0 | apply IH; auto].
Qed.

Lemma setitem_ok (d : list (K * stats)) (k : K) (v : stats) :
  Forall (fun kv => stats_ok (snd kv)) d ->
  stats_ok v ->
  Forall (fun kv => stats_ok (snd kv)) (setitem K eqb d k v).
Proof.
  induction d as [| [k0 v0] d IH]; intros F Hv; cbn [setitem].
  - constructor; [exact Hv | constructor].
  - inversion F as [| ? ? H0 F']; subst.
    destruct (eqb k k0); constructor; auto.
Qed.

Lemma zeros_for_ok (keys : list K) :
  Forall (fun kv => stats_ok (snd kv)) (zeros_for K eqb keys).
Proof.
  unfold zeros_for.
  assert (G : forall d,
             Forall (fun kv => stats_ok (snd kv)) d ->
             Forall (fun kv => stats_ok (snd kv))
               (fold_left (fun d k => setitem K eqb d k zeros) keys d)).
  { induction keys as [| k more IH]; intros d F; simpl; [exact F |].
    apply IH, setitem_ok; [exact F | apply stats_ok_zeros]. }
  apply G. constructor.
Qed.

End DictFacts.

Lemma init_ok (crossover_types mutation_types : option (list string)) :
  diagnostics_ok (__init__ crossover_types mutation_types).
Proof.
  unfold diagnostics_ok, __init__. simpl.
  repeat split; try apply zeros_for_ok; simpl; lia.
Qed.

Lemma count_nonneg (a : list bool) : 0 <= count a.
Proof.
  unfold count. lia.
Qed.

Lemma count_cons (b : bool) (a : list bool) :
  count (b :: a) = (if b then 1 else 0) + count a.
Proof.
  unfold count. destruct b; cbn [filter List.length];
    rewrite ?Nat2Z.inj_succ; lia.
Qed.

Lemma count_mul_exclusive (bds : list (bool * bool)) :
  exclusive bds ->
  forall idx,
    count (mul (map fst bds) idx) + count (mul (map snd bds) idx)
    <= count idx.
Proof.
  induction 1 as [| [b d] bds H _ IH]; intros idx.
  - cbn [map mul]. change (count []) with 0.
    pose proof (count_nonneg idx). lia.
  - destruct idx as [| x idx]; cbn [map mul fst snd].
    + change (count []) with 0. lia.
    + rewrite !count_cons. specialize (IH idx). cbn [fst snd] in H.
      destruct b, d, x; cbn [andb] in *; try discriminate; lia.
Qed.

Lemma get_stats_ok (bds : list (bool * bool)) :
  exclusive bds ->
  forall idx, stats_ok (_get_stats idx (map fst bds) (map snd bds)).
Proof.
  intros H idx. unfold stats_ok, _get_stats.
  cbn [total beneficial detrimental].
  split; [apply count_nonneg |]. split; [apply count_nonneg |].
  apply count_mul_exclusive, H.
Qed.

Lemma mask_map {A B : Type} (f : A -> B) (l : list A) :
  forall idx, mask (map f l) idx = map f (mask l idx).
Proof.
  induction l as [| x l IH]; intros [| b idx]; simpl; auto.
  destruct b; simpl; rewrite IH; reflexivity.
Qed.

Lemma exclusive_mask (bds : list (bool * bool)) :
  exclusive bds -> forall idx, exclusive (mask bds idx).
Proof.
  induction 1 as [| bd bds H _ IH]; intros [| b idx]; simpl.
  - constructor.
  - constructor.
  - constructor.
  - destruct b; [constructor; [exact H | apply IH] | apply IH].
Qed.

Lemma get_stats_mask_ok (bds : list (bool * bool)) (arr idx : list bool) :
  exclusive bds ->
  stats_ok (_get_stats (mask arr idx) (mask (map fst bds) idx)
              (mask (map snd bds) idx)).
Proof.
  intros H. rewrite !mask_map. apply get_stats_ok, exclusive_mask, H.
Qed.

Section Consistency.

Variable fitness : Type.
Variables lt gt : fitness -> fitness -> bool.
Variable astype_bool : option string -> bool.

(** No fitness is both less and greater than another. *)
Hypothesis lt_excludes_gt : forall a b, lt a b = true -> gt a b = false.

Lemma all_parents_first (cmp : fitness -> bool) (population : list fitness)
      (p : Z) (more : list Z) :
  all_parents fitness cmp population (p :: more) = inr true ->
  exists f, py_index fitness population p = inr f /\ cmp f = true.
Proof.
  cbn [all_parents].
  destruct (py_index fitness population p) as [e | f]; monad_step;
    [discriminate |].
  destruct (cmp f) eqn:C; [eauto | discriminate].
Qed.

Lemma variation_exclusive (population : list fitness)
      (row : offspring_row fitness) (b d : bool) :
  variation fitness lt gt population row = inr (b, d) ->
  b && d = false.
Proof.
  unfold variation.
  destruct (parent_indices fitness row) as [| p more];
    [intros [= <- <-]; reflexivity |].
  destruct (all_parents fitness _ population (p :: more)) as [e | b'] eqn:B;
    monad_step; [discriminate |].
  destruct (all_parents fitness (fun f => gt _ f) population (p :: more))
    as [e | d'] eqn:D; monad_step; [discriminate |].
  intros [= <- <-].
  destruct b'; [| reflexivity]. destruct d'; [| reflexivity].
  destruct (all_parents_first _ _ _ _ B) as (f & I & C).
  destruct (all_parents_first _ _ _ _ D) as (f' & I' & C').
  rewrite I in I'. injection I' as <-.
  rewrite (lt_excludes_gt _ _ C) in C'. discriminate C'.
Qed.

Lemma variations_exclusive (population : list fitness)
      (rows : list (offspring_row fitness)) :
  forall bds,
    variations fitness lt gt population rows = inr bds -> exclusive bds.
Proof.
  induction rows as [| row more IH]; intros bds; cbn [variations].
  - intros [= <-]. constructor.
  - destruct (variation fitness lt gt population row) as [e | [b d]] eqn:V;
      monad_step; [discriminate |].
    destruct (variations fitness lt gt population more) as [e | bds'];
      monad_step; [discriminate |].
    intros [= <-]. constructor; [| apply IH; reflexivity].
    apply (variation_exclusive _ _ _ _ V).
Qed.

Section LoopsKeep.

Variables oct omt : list (option string).
Variables just_cross just_mut cross_mut : list bool.
Variable bds : list (bool * bool).
Hypothesis bds_exclusive : exclusive bds.

Lemma mutation_loop_ok (c : string) (cross_idx : list bool)
      (mutation_types : list string) :
  forall mt cmt mt1 cmt1,
    Forall (fun kv => stats_ok (snd kv)) mt ->
    Forall (fun kv => stats_ok (snd kv)) cmt ->
    mutation_loop omt just_mut cross_mut (map fst bds) (map snd bds)
      c cross_idx mutation_types mt cmt = inr (mt1, cmt1) ->
    Forall (fun kv => stats_ok (snd kv)) mt1
    /\ Forall (fun kv => stats_ok (snd kv)) cmt1.
Proof.
  induction mutation_types as [| m0 more IH]; intros mt cmt mt1 cmt1 Fm Fc;
    cbn [mutation_loop].
  - intros [= <- <-]. auto.
  - destruct (iadd string String.eqb show_type mt m0 _) as [e | mt2] eqn:I;
      monad_step; [discriminate |].
    destruct (iadd (string * string) pair_eqb show_pair cmt _ _)
      as [e | cmt2] eqn:J; monad_step; [discriminate |].
    apply IH.
    + eapply iadd_ok; [exact Fm | | exact I].
      apply get_stats_mask_ok, bds_exclusive.
    + eapply iadd_ok; [exact Fc | | exact J].
      apply get_stats_mask_ok, bds_exclusive.
Qed.

Lemma crossover_loop_ok (crossover_types mutation_types : list string) :
  forall ct mt cmt ct1 mt1 cmt1,
    Forall (fun kv => stats_ok (snd kv)) ct ->
    Forall (fun kv => stats_ok (snd kv)) mt ->
    Forall (fun kv => stats_ok (snd kv)) cmt ->
    crossover_loop oct omt just_cross just_mut cross_mut
      (map fst bds) (map snd bds) crossover_types mutation_types ct mt cmt
    = inr (ct1, mt1, cmt1) ->
    Forall (fun kv => stats_ok (snd kv)) ct1
    /\ Forall (fun kv => stats_ok (snd kv)) mt1
    /\ Forall (fun kv => stats_ok (snd kv)) cmt1.
Proof.
  induction crossover_types as [| c0 more IH];
    intros ct mt cmt ct1 mt1 cmt1 Fc Fm Fcm; cbn [crossover_loop].
  - intros [= <- <- <-]. auto.
  - destruct (iadd string String.eqb show_type ct c0 _) as [e | ct2] eqn:I;
      monad_step; [discriminate |].
    destruct (mutation_loop _ _ _ _ _ _ _ _ _ _) as [e | [mt2 cmt2]] eqn:M;
      monad_step; [discriminate |].
    destruct (mutation_loop_ok _ _ _ _ _ _ _ Fm Fcm M) as (Fm2 & Fcm2).
    apply IH; auto.
    eapply iadd_ok; [exact Fc | | exact I].
    apply get_stats_mask_ok, bds_exclusive.
Qed.

End LoopsKeep.

(** X28. The counts of a diagnostics object stay consistent. When no
    fitness is both less and greater than another, every [update] that
    returns keeps, in each of the three total statistics and in every
    statistics per type, the counts of beneficial and of detrimental
    offspring non-negative and their sum no greater than the count of all
    offspring; a new object has this property. The rates of the summaries
    are therefore between 0 and 1 wherever the count of all is positive. *)
Theorem update_keeps_counts_consistent
        (self self1 : diagnostics) (population : list fitness)
        (rows : list (offspring_row fitness)) :
  diagnostics_ok self ->
  update fitness lt gt astype_bool self population rows = inr self1 ->
  diagnostics_ok self1.
Proof.
  intros (O1 & O2 & O3 & F1 & F2 & F3). unfold update.
  destruct (variations fitness lt gt population rows) as [e | bds] eqn:V;
    monad_step; [discriminate |].
  pose proof (variations_exclusive _ _ _ V) as X.
  destruct (crossover_loop _ _ _ _ _ _ _ _ _ _ _ _)
    as [e | [[ct mt] cmt]] eqn:L; monad_step; [discriminate |].
  intros [= <-].
  destruct (crossover_loop_ok _ _ _ _ _ bds X _ _ _ _ _ _ _ _ F1 F2 F3 L)
    as (G1 & G2 & G3).
  unfold diagnostics_ok. cbn.
  repeat split; auto; apply stats_ok_add; auto; apply get_stats_ok, X.
Qed.

End Consistency.

Lemma Z_ltb_excludes_gtb (a b : Z) : (a <? b) = true -> (a >? b) = false.
Proof.
  intros H. apply Z.ltb_lt in H. rewrite Z.gtb_ltb. apply Z.ltb_ge. lia.
Qed.

Lemma update_keeps_counts_consistent_witness :
  exists self1,
    update Z Z.ltb Z.gtb
      (fun t => match t with
                | Some s => negb (String.eqb s "")
                | None => false
                end)
      (__init__ (Some ["one_point"]) (Some ["shift"]))
      [5; 3; 8]
      [Row_ Z 1 [0; 1] (Some "one_point") None;
       Row_ Z 9 [-1] None (Some "shift");
       Row_ Z 4 [] (Some "one_point") (Some "shift")]
    = inr self1
    /\ diagnostics_ok self1.
Proof.
  eexists. split; [reflexivity |].
  apply (update_keeps_counts_consistent Z Z.ltb Z.gtb
           (fun t => match t with
                     | Some s => negb (String.eqb s "")
                     | None => false
                     end)
           Z_ltb_excludes_gtb
           (__init__ (Some ["one_point"]) (Some ["shift"]))
           _ [5; 3; 8]
           [Row_ Z 1 [0; 1] (Some "one_point") None;
            Row_ Z 9 [-1] None (Some "shift");
            Row_ Z 4 [] (Some "one_point") (Some "shift")]
           (init_ok _ _)).
  reflexivity.
Defined.

(** ** Sums *)

Section SumFacts.

Variable K : Type.
Variable eqb : K -> K -> bool.
Variable show : K -> string.





End SumFacts.


End EaDiagnosticsFacts.
